(** * Campaign scheduling engine: a shallow embedding and its properties

    The development follows the TypeScript sources of the social-marketing
    agents: [utils/date-utils.ts], [utils/kv-store.ts], [agent/scheduler],
    [agent/manager], [agent/copywriter] and [api/campaigns/route.ts].
    Asynchronous functions become computations in
    a state-and-exception monad over an explicit [World] (wall clock,
    key-value store, remote publishing service, process environment).

    Conventions: time values are milliseconds in [Z]; the process runs in a
    time zone with a fixed offset to UTC; strings are byte strings, and white
    space is the ASCII white space; log output is left out. *)

From Stdlib Require Import ZArith String Ascii List Lia Bool.
From stdpp Require Import base option list gmap strings pretty.

Local Open Scope Z_scope.

(* ================================================================== *)
(** ** JavaScript string helpers *)
(* ================================================================== *)

(** The white space recognised by [String.prototype.trim] and by the regular
    expression class [\s], restricted to the ASCII range. *)
Definition is_space (a : ascii) : bool :=
  let n := nat_of_ascii a in
  ((9 <=? n)%nat && (n <=? 13)%nat) || (n =? 32)%nat.

Definition is_digit (a : ascii) : bool :=
  let n := nat_of_ascii a in (48 <=? n)%nat && (n <=? 57)%nat.

Fixpoint trimStart (s : string) : string :=
  match s with
  | EmptyString => EmptyString
  | String a s' => if is_space a then trimStart s' else s
  end.

Fixpoint trimEnd (s : string) : string :=
  match s with
  | EmptyString => EmptyString
  | String a s' =>
      match trimEnd s' with
      | EmptyString => if is_space a then EmptyString else String a EmptyString
      | t => String a t
      end
  end.

Definition trim (s : string) : string := trimEnd (trimStart s).

Definition lower_ascii (a : ascii) : ascii :=
  let n := nat_of_ascii a in
  if ((65 <=? n)%nat && (n <=? 90)%nat) then ascii_of_nat (n + 32) else a.

Fixpoint toLowerCase (s : string) : string :=
  match s with
  | EmptyString => EmptyString
  | String a s' => String (lower_ascii a) (toLowerCase s')
  end.

(** Truthiness of a JavaScript string: every string but the empty one. *)
Definition truthy (s : string) : bool :=
  match s with EmptyString => false | _ => true end.

(** Truthiness of an optional string ([undefined] is falsy). *)
Definition truthy_opt (o : option string) : bool :=
  match o with Some s => truthy s | None => false end.

(** [Array.prototype.join]. *)
Fixpoint join (sep : string) (l : list string) : string :=
  match l with
  | [] => ""
  | [x] => x
  | x :: rest => x +:+ sep +:+ join sep rest
  end.

(** [Array.prototype.includes] on strings. *)
Definition includes (l : list string) (x : string) : bool :=
  existsb (String.eqb x) l.

(** [String.prototype.includes]: [t] occurs in [s]. *)
Fixpoint str_includes (s t : string) : bool :=
  String.prefix t s
  || match s with
     | EmptyString => false
     | String _ s' => str_includes s' t
     end.

(** [s.replace(/\s+/g, "")]: every run of white space is removed. *)
Fixpoint removeSpaces (s : string) : string :=
  match s with
  | EmptyString => EmptyString
  | String a s' => if is_space a then removeSpaces s' else String a (removeSpaces s')
  end.

(** [x || null] and [x || undefined] on an optional string. *)
Definition or_null (o : option string) : option string :=
  match o with
  | Some (String a s) => Some (String a s)
  | _ => None
  end.

(** The line feed of a template literal. *)
Definition nl : string := String "010" EmptyString.

(* ================================================================== *)
(** ** types.ts *)
(* ================================================================== *)

Inductive CampaignStatus :=
  | planning | researching | writing | scheduling | active | completed.

Inductive Platform := linkedin | twitter.

Record Post := mkPost {
  platform : Platform;
  content : option string;
  media : option (list string);
  post_scheduledDate : option string;
  post_typefullyId : option string
}.

Record Thread := mkThread {
  tweets : option (list Post);
  thread_scheduledDate : option string;
  thread_typefullyId : option string
}.

(** Array slots may hold [null] after a round trip through JSON, which the
    schedulers guard against with [if (!post) continue]. *)
Record CampaignContent := mkContent {
  linkedInPosts : list (option Post);
  twitterThreads : list (option Thread)
}.

Inductive PostStatus := st_draft | st_scheduled | st_published | st_failed.

Record ScheduledPost := mkScheduled {
  postId : string;
  typefullyId : string;
  scheduledDate : string;
  status : PostStatus
}.

Record SchedulingInfo := mkInfo {
  typefullyScheduleId : option string;
  scheduledPosts : list ScheduledPost
}.

Record Campaign := mkCampaign {
  id : string;
  topic : string;
  description : option string;
  publishDate : option string;
  campaign_status : CampaignStatus;
  campaign_content : option CampaignContent;
  schedulingInfo : option SchedulingInfo;
  createdAt : string;
  updatedAt : string
}.

Record SchedulerRequest := mkRequest {
  rq_campaignId : string;
  rq_content : CampaignContent;
  rq_publishDate : option string
}.

Inductive SchedulerOutput :=
  | OutError (error : string)
  | OutSuccess (campaignId : string) (count : nat) (message : string).

Record ResearchResults := mkResearch {
  r_title : string;
  r_description : string;
  r_longFormDescription : string;
  r_tags : list string;
  r_keyInsights : list string;
  r_sources : list string
}.

(** Optional fields that are also nullable hold [None] for both [null] and
    [undefined]; the sources only test them for truthiness. *)
Record ManagerRequest := mkManagerRequest {
  mr_topic : string;
  mr_description : option string;
  mr_publishDate : option string;
  mr_domain : option string
}.

Record CopywriterRequest := mkCopywriterRequest {
  cw_campaignId : string;
  cw_topic : string;
  cw_description : option string;
  cw_publishDate : option string;
  cw_research : option ResearchResults
}.

Record CampaignHandoff := mkHandoff {
  h_topic : string;
  h_description : option string;
  h_campaignId : string;
  h_publishDate : option string;
  h_source : option string
}.

Record CampaignSummary := mkSummary {
  sum_id : string;
  sum_topic : string;
  sum_description : option string;
  sum_status : CampaignStatus;
  sum_createdAt : string;
  sum_updatedAt : string
}.

(** [MgrError msg] is the value of [errorResponse(msg)], a function of
    [utils/response-utils] that the development does not look into. *)
Inductive ManagerOutput :=
  | MgrError (error : string)
  | MgrExisting (existingCampaigns : list CampaignSummary) (message : string)
  | MgrHandoff (message : string) (campaign : CampaignHandoff).

Inductive CopywriterOutput :=
  | CwError (error : string)
  | CwSuccess (campaignId : string) (message : string) (schedulerResult : SchedulerOutput).

Definition PostStatus_eqb (a b : PostStatus) : bool :=
  match a, b with
  | st_draft, st_draft | st_scheduled, st_scheduled
  | st_published, st_published | st_failed, st_failed => true
  | _, _ => false
  end.

(** Field updates performed by assignment in the source. *)
Definition set_post_schedule (p : Post) (d tid : string) : Post :=
  {| platform := platform p; content := content p; media := media p;
     post_scheduledDate := Some d; post_typefullyId := Some tid |}.

Definition set_thread_schedule (t : Thread) (d tid : string) : Thread :=
  {| tweets := tweets t; thread_scheduledDate := Some d;
     thread_typefullyId := Some tid |}.

Definition set_status (c : Campaign) (s : CampaignStatus) (now : string) : Campaign :=
  {| id := id c; topic := topic c; description := description c;
     publishDate := publishDate c; campaign_status := s;
     campaign_content := campaign_content c;
     schedulingInfo := schedulingInfo c;
     createdAt := createdAt c; updatedAt := now |}.

Definition set_content (c : Campaign) (k : option CampaignContent) : Campaign :=
  {| id := id c; topic := topic c; description := description c;
     publishDate := publishDate c; campaign_status := campaign_status c;
     campaign_content := k;
     schedulingInfo := schedulingInfo c;
     createdAt := createdAt c; updatedAt := updatedAt c |}.

Definition set_schedulingInfo (c : Campaign) (i : SchedulingInfo) (now : string) : Campaign :=
  {| id := id c; topic := topic c; description := description c;
     publishDate := publishDate c; campaign_status := campaign_status c;
     campaign_content := campaign_content c;
     schedulingInfo := Some i;
     createdAt := createdAt c; updatedAt := now |}.

(* ================================================================== *)
(** ** Dates: the JavaScript [Date] object and the date-fns functions *)
(* ================================================================== *)

(** A time value is a number of milliseconds since the epoch; [None] stands
    for the [Invalid Date] whose time value is [NaN]. *)
Definition Date := option Z.

Definition MS_PER_DAY : Z := 86400000.

(** ECMAScript TimeClip: time values beyond 8.64e15 ms are invalid. *)
Definition timeClip (t : Z) : Date :=
  if Z.abs t <=? 8640000000000000 then Some t else None.

(** date-fns [addDays] and [addWeeks] on a valid date, in a time zone with a
    fixed offset to UTC (a calendar day is then always 86400000 ms). *)
Definition addDays (d : Z) (amount : Z) : Date := timeClip (d + amount * MS_PER_DAY).
Definition addWeeks (d : Z) (amount : Z) : Date := addDays d (amount * 7).

(** date-fns [isPast]: [+date < Date.now()]. *)
Definition isPast (d : Z) (now : Z) : bool := d <? now.

(** What the sources take from the JavaScript runtime and from libraries
    outside the repository. *)
Class DateFns := {
  (** local time minus UTC, in milliseconds *)
  tz_offset : Z;
  (** date-fns [format d "yyyy-MM-dd'T'HH:mm:ss.SSS'Z'"]: the local
      wall-clock fields of [d] followed by a literal [Z] *)
  format : Z -> string;
  (** [new Date(str).getTime()], [None] for [NaN] *)
  Date_parse : string -> Date;
  (** [Date.prototype.toISOString] *)
  toISOString : Z -> string;
  (** date-fns [addMonths] *)
  addMonths : Z -> Z -> Date;
  (** parse-human-relative-time; [None] when it throws *)
  parseHumanRelative : string -> Z -> option Date
}.

(** Wall-clock instants of the years 0001 to 9999, the range in which the
    format pattern prints a four-digit year that [Date] reads back. *)
Definition CE_MIN : Z := -62135596800000.
Definition CE_MAX : Z := 253402300799999.
Definition common_era (w : Z) : Prop := CE_MIN <= w <= CE_MAX.

(** The pattern ends in a literal [Z], so a formatted local time is read back
    as if it were UTC: the instant moves by the zone offset. *)
Record DateLaws (D : DateFns) : Prop := {
  format_nonempty : forall t, format t <> "";
  parse_format : forall t, common_era (t + tz_offset) ->
                           Date_parse (format t) = Some (t + tz_offset)
}.

(* ================================================================== *)
(** ** The world the agents run in *)
(* ================================================================== *)

(** One request to the publishing service ([POST /drafts/]); the two safety
    flags [auto_retweet_enabled] and [auto_plug_enabled] are the constant
    [false] and are left out. *)
Record DraftRequest := mkDraft {
  d_content : string;
  d_platform : Platform;
  d_threadify : bool;
  d_schedule_date : string;
  d_api_key : string
}.

Inductive Response :=
  | HttpOk (draft_id : string)
  | HttpError (code : Z) (statusText body : string)
  | NetworkError (msg : string).

(** The clock, the remote service and the store's faults are oracles indexed
    by the number of calls made so far, so that a world fixes one arbitrary
    pattern of readings, replies and failures. *)
Record World := mkWorld {
  w_clock : nat -> Z;
  w_ticks : nat;
  w_remote : nat -> DraftRequest -> Response;
  w_sent : list DraftRequest;
  w_campaigns : gmap string Campaign;
  w_index : option (list string);
  w_kv_fault : nat -> bool;
  w_kv_calls : nat;
  w_api_key : option string
}.

Definition tick (w : World) : World :=
  mkWorld (w_clock w) (S (w_ticks w)) (w_remote w) (w_sent w) (w_campaigns w)
          (w_index w) (w_kv_fault w) (w_kv_calls w) (w_api_key w).

Definition sent (rq : DraftRequest) (w : World) : World :=
  mkWorld (w_clock w) (w_ticks w) (w_remote w) (w_sent w ++ [rq]) (w_campaigns w)
          (w_index w) (w_kv_fault w) (w_kv_calls w) (w_api_key w).

Definition kv_called (w : World) : World :=
  mkWorld (w_clock w) (w_ticks w) (w_remote w) (w_sent w) (w_campaigns w)
          (w_index w) (w_kv_fault w) (S (w_kv_calls w)) (w_api_key w).

Definition with_campaigns (m : gmap string Campaign) (w : World) : World :=
  mkWorld (w_clock w) (w_ticks w) (w_remote w) (w_sent w) m
          (w_index w) (w_kv_fault w) (w_kv_calls w) (w_api_key w).

Definition with_index (ix : option (list string)) (w : World) : World :=
  mkWorld (w_clock w) (w_ticks w) (w_remote w) (w_sent w) (w_campaigns w)
          ix (w_kv_fault w) (w_kv_calls w) (w_api_key w).

(** Results of a computation: a value, or a thrown exception. *)
Inductive Res (A : Type) :=
  | Val (a : A)
  | Exn (msg : string).
Arguments Val {A} a.
Arguments Exn {A} msg.

Definition M (A : Type) : Type := World -> Res A * World.

Definition ret {A} (a : A) : M A := fun w => (Val a, w).

Definition bind {A B} (m : M A) (k : A -> M B) : M B :=
  fun w => match m w with
           | (Val a, w') => k a w'
           | (Exn e, w') => (Exn e, w')
           end.

Definition throw {A} (msg : string) : M A := fun w => (Exn msg, w).

(** [try { m } catch (e) { h e }] *)
Definition try_catch {A} (m : M A) (h : string -> M A) : M A :=
  fun w => match m w with
           | (Val a, w') => (Val a, w')
           | (Exn e, w') => h e w'
           end.

Notation "x <- m ;; k" := (bind m (fun x => k))
  (at level 100, m at next level, right associativity).
Notation "m ;;; k" := (bind m (fun _ => k))
  (at level 100, right associativity).

(** [new Date()] and [Date.now()]. *)
Definition newDate : M Z := fun w => (Val (w_clock w (w_ticks w)), tick w).

(** [fetch] against the publishing service. *)
Definition fetch (rq : DraftRequest) : M Response :=
  fun w => (Val (w_remote w (length (w_sent w)) rq), sent rq w).

(** The key-value client of the runtime.  The [data] of the result of a
    [get] is the stored value itself, decoded, or [undefined] when the key is
    absent: this is how the routes read it.  Each call is atomic: a call
    that fails throws and leaves the store as it was.  Campaign records live
    in the store "campaigns", the index record under one key of the store
    "campaigns_meta". *)
Definition kv_call {A} (op : World -> A * World) : M A :=
  fun w => if w_kv_fault w (w_kv_calls w)
           then (Exn "kv: request failed", kv_called w)
           else let (a, w') := op w in (Val a, kv_called w').

Definition kv_get_campaign (key : string) : M (option Campaign) :=
  kv_call (fun w => (w_campaigns w !! key, w)).

Definition kv_set_campaign (key : string) (c : Campaign) : M unit :=
  kv_call (fun w => (tt, with_campaigns (<[key := c]> (w_campaigns w)) w)).

Definition kv_delete_campaign (key : string) : M unit :=
  kv_call (fun w => (tt, with_campaigns (delete key (w_campaigns w)) w)).

Definition kv_get_index : M (option (list string)) :=
  kv_call (fun w => (w_index w, w)).

Definition kv_set_index (ids : list string) : M unit :=
  kv_call (fun w => (tt, with_index (Some ids) w)).

(** [result?.data?.json()].  A stored value is a plain object without a
    member [json]: on absent data the optional chain gives [undefined], and
    on a stored value the call throws a [TypeError]. *)
Definition data_json_call {A} (data : option A) : M (option A) :=
  match data with
  | None => ret None
  | Some _ => throw "result.data.json is not a function"
  end.

(** [result?.data?.json], read as a property and not called: [undefined] on
    absent data and on a stored value alike. *)
Definition data_json {A} (data : option A) : option A := None.

(** [process.env.TYPEFULLY_API_KEY] *)
Definition env_api_key : M (option string) := fun w => (Val (w_api_key w), w).

(* ================================================================== *)
(** ** utils/date-utils.ts *)
(* ================================================================== *)

(** [addDays(new Date(), 7)].  The wall clock is taken to be more than a week
    away from the end of the representable range, so this date is valid. *)
Definition defaultDateOf (now : Z) : Z := now + 7 * MS_PER_DAY.

Section DateUtils.
Context `{DateFns}.

(** The revision that resolves hints with parse-human-relative-time. *)
Definition getValidDate (dateStr : option string) (ensureFuture : bool) : M string :=
  t0 <- newDate ;;
  let defaultDate := defaultDateOf t0 in
  match dateStr with
  | None | Some EmptyString => ret (format defaultDate)
  | Some s =>
      t1 <- newDate ;;
      let dateObj :=
        match parseHumanRelative s t1 with
        | Some d => d
        | None => Date_parse s
        end in
      match dateObj with
      | None => ret (format defaultDate)
      | Some d =>
          if ensureFuture then
            t2 <- newDate ;;
            if isPast d t2 then ret (format defaultDate) else ret (format d)
          else ret (format d)
      end
  end.

Definition getValidFutureDate (dateStr : option string) : M string :=
  getValidDate dateStr true.

Definition incrementDateByDays (dateStr : string) (days : Z) : string :=
  match Date_parse dateStr with
  | None => dateStr
  | Some dateObj =>
      match addDays dateObj days with
      | Some newDate => format newDate
      | None => dateStr
      end
  end.

End DateUtils.

(** The later revision of the same file, with its own phrase matcher. *)
Module Rel.

Fixpoint span (p : ascii -> bool) (s : string) : string * string :=
  match s with
  | EmptyString => (EmptyString, EmptyString)
  | String a s' =>
      if p a then let (h, r) := span p s' in (String a h, r)
      else (EmptyString, s)
  end.

(** [Number.parseInt(ds, 10)] on a string of decimal digits. *)
Fixpoint parseInt_go (acc : Z) (s : string) : Z :=
  match s with
  | EmptyString => acc
  | String a s' => parseInt_go (10 * acc + (Z.of_nat (nat_of_ascii a) - 48)) s'
  end.
Definition parseInt (s : string) : Z := parseInt_go 0 s.

(** [lower.match(/^in\s+(\d+)\s+UNITs?$/)], giving the captured number. *)
Definition match_in (unit : string) (lower : string) : option Z :=
  match lower with
  | String "i" (String "n" r0) =>
      let (ws1, r1) := span is_space r0 in
      let (ds, r2) := span is_digit r1 in
      let (ws2, r3) := span is_space r2 in
      if truthy ws1 && truthy ds && truthy ws2
         && (String.eqb r3 unit || String.eqb r3 (unit +:+ "s"))
      then Some (parseInt ds) else None
  | _ => None
  end.

Section DateUtils.
Context `{DateFns}.

Definition parseRelativeDate (dateStr : string) (now : Z) : option Date :=
  let lower := toLowerCase (trim dateStr) in
  if String.eqb lower "tomorrow" then Some (addDays now 1)
  else if String.eqb lower "today" then Some (Some now)
  else if String.eqb lower "next week" then Some (addWeeks now 1)
  else if String.eqb lower "next month" then Some (addMonths now 1)
  else match match_in "day" lower with
  | Some n => Some (addDays now n)
  | None =>
  match match_in "week" lower with
  | Some n => Some (addWeeks now n)
  | None =>
  match match_in "month" lower with
  | Some n => Some (addMonths now n)
  | None => None
  end end end.

Definition getValidDate (dateStr : option string) (ensureFuture : bool) : M string :=
  t0 <- newDate ;;
  let defaultDate := defaultDateOf t0 in
  match dateStr with
  | None | Some EmptyString => ret (format defaultDate)
  | Some s =>
      t1 <- newDate ;;
      let dateObj :=
        match parseRelativeDate s t1 with
        | Some relativeResult => relativeResult
        | None => Date_parse s
        end in
      match dateObj with
      | None => ret (format defaultDate)
      | Some d =>
          if ensureFuture then
            t2 <- newDate ;;
            if isPast d t2 then ret (format defaultDate) else ret (format d)
          else ret (format d)
      end
  end.

End DateUtils.
End Rel.

(* ================================================================== *)
(** ** utils/kv-store.ts *)
(* ================================================================== *)

Definition isValidId (id : string) : bool := truthy id && truthy (trim id).

(** [typedIndex?.campaignIds?.filter(isValidId) || []], where [typedIndex]
    is [result?.data?.json]. *)
Definition getCampaignIndex : M (list string) :=
  result <- kv_get_index ;;
  let typedIndex := data_json result in
  match typedIndex with
  | Some campaignIds => ret (List.filter isValidId campaignIds)
  | None => ret []
  end.

Definition updateCampaignIndex (campaignId : string) : M unit :=
  if negb (isValidId campaignId) then ret tt
  else
    campaignIds <- getCampaignIndex ;;
    if negb (includes campaignIds campaignId)
    then kv_set_index (campaignIds ++ [campaignId])
    else ret tt.

(** Returns [null] (here [None]) on an invalid id, a missing record or
    whatever is thrown inside the [try], the [TypeError] of the call of
    [json] included. *)
Definition getCampaign (id : string) : M (option Campaign) :=
  if negb (isValidId id) then ret None
  else try_catch
         (result <- kv_get_campaign id ;;
          campaignData <- data_json_call result ;;
          match campaignData with
          | None => ret None
          | Some campaign => ret (Some campaign)
          end)
         (fun _ => ret None).

Definition saveCampaign (campaign : Campaign) : M bool :=
  if negb (isValidId (id campaign)) then ret false
  else try_catch
         (kv_set_campaign (id campaign) campaign ;;;
          updateCampaignIndex (id campaign) ;;;
          ret true)
         (fun _ => ret false).

(** [campaignIds.map((id) => getCampaign(ctx, id))] under [Promise.all]: the
    reads are started in the order of the ids, and none of them rejects. *)
Fixpoint getCampaigns (campaignIds : list string) : M (list (option Campaign)) :=
  match campaignIds with
  | [] => ret []
  | campaignId :: rest =>
      campaign <- getCampaign campaignId ;;
      campaigns <- getCampaigns rest ;;
      ret (campaign :: campaigns)
  end.

Definition listCampaigns : M (list Campaign) :=
  try_catch
    (campaignIds <- getCampaignIndex ;;
     match campaignIds with
     | [] => ret []
     | _ =>
         campaigns <- getCampaigns campaignIds ;;
         ret (omap (fun campaign => campaign) campaigns)
     end)
    (fun _ => ret []).

Definition findCampaignsByTopic (wanted : string) : M (list Campaign) :=
  if negb (truthy (trim wanted)) then ret []
  else
    try_catch
      (allCampaigns <- listCampaigns ;;
       let searchTerm := trim (toLowerCase wanted) in
       let exactMatches :=
         List.filter (fun campaign =>
                        String.eqb (trim (toLowerCase (topic campaign))) searchTerm)
                     allCampaigns in
       match exactMatches with
       | _ :: _ => ret exactMatches
       | [] =>
           ret (List.filter (fun campaign =>
                               str_includes (toLowerCase (topic campaign)) searchTerm)
                            allCampaigns)
       end)
      (fun _ => ret []).

Section Agents.
Context `{DateFns}.

(** The id is made of the clock reading of [Date.now()]; the two time stamps
    share a second reading. *)
Definition createCampaign (wanted : string) (about : option string)
    (publish : option string) : M Campaign :=
  if negb (truthy (trim wanted)) then throw "Invalid topic provided"
  else
    t <- newDate ;;
    let campaignId := "campaign-" +:+ pretty t in
    t' <- newDate ;;
    let now := toISOString t' in
    let campaign :=
      mkCampaign campaignId wanted about publish planning None None now now in
    saved <- saveCampaign campaign ;;
    if negb saved then throw "Failed to save campaign" else ret campaign.

Definition updateCampaignStatus (campaignId : string) (st : CampaignStatus)
  : M (option Campaign) :=
  found <- getCampaign campaignId ;;
  match found with
  | None => ret None
  | Some campaign =>
      now <- newDate ;;
      let campaign' := set_status campaign st (toISOString now) in
      saveCampaign campaign' ;;;
      ret (Some campaign')
  end.

(* ================================================================== *)
(** ** agent/scheduler/index.ts *)
(* ================================================================== *)

(** [postDate || getValidDate("tomorrow")]: the right operand is evaluated
    only when the left one is falsy. *)
Definition or_tomorrow (postDate : option string) : M string :=
  match postDate with
  | Some (String a s) => ret (String a s)
  | _ => getValidDate (Some "tomorrow") true
  end.

Definition createTypefullyDraft (content : string) (platform : Platform)
    (apiKey : string) (scheduledDate : option string) (threadify : bool) : M string :=
  finalDate <- or_tomorrow scheduledDate ;;
  response <- fetch (mkDraft content platform threadify finalDate apiKey) ;;
  match response with
  | HttpOk draft_id => ret draft_id
  | HttpError code statusText body =>
      throw ("Failed to create/schedule draft: " +:+ pretty code +:+ " "
             +:+ statusText +:+ " - " +:+ body)
  | NetworkError msg => throw msg
  end.

(** [Math.min(i, scheduledDates.length - 1)] and the array access with it. *)
Definition dateIndex (i : nat) (scheduledDates : list string) : nat :=
  Nat.min i (length scheduledDates - 1).

Definition postDateAt (i : nat) (scheduledDates : list string) : option string :=
  scheduledDates !! dateIndex i scheduledDates.

Definition linkedInPostId (i : nat) : string := "linkedin-post-" +:+ pretty i.
Definition twitterThreadId (i : nat) : string := "twitter-thread-" +:+ pretty i.

(** One iteration of the loop of [scheduleLinkedInPosts] on a slot that holds
    a post: the records pushed and the post as the iteration leaves it. *)
Definition linkedInIteration (i : nat) (post : Post) (scheduledDates : list string)
    (apiKey : string) : M (list ScheduledPost * Post) :=
  let postDate := postDateAt i scheduledDates in
  try_catch
    (match content post with
     | None | Some EmptyString => ret ([], post)
     | Some body =>
         typefullyId <- createTypefullyDraft body linkedin apiKey postDate false ;;
         d <- or_tomorrow postDate ;;
         d' <- or_tomorrow postDate ;;
         ret ([mkScheduled (linkedInPostId i) typefullyId d st_scheduled],
              set_post_schedule post d' typefullyId)
     end)
    (fun error =>
       d <- or_tomorrow postDate ;;
       ret ([mkScheduled (linkedInPostId i) "" d st_failed], post)).

(** The loop from position [i] on.  An exception that escaped an iteration
    would end the loop in the outer [catch], which keeps what was pushed. *)
Fixpoint linkedInLoop (i : nat) (posts : list (option Post)) (scheduledDates : list string)
    (apiKey : string) (w : World) : (list ScheduledPost * list (option Post)) * World :=
  match posts with
  | [] => (([], []), w)
  | None :: rest =>
      let '((out, rest'), w') := linkedInLoop (S i) rest scheduledDates apiKey w in
      ((out, None :: rest'), w')
  | Some post :: rest =>
      match linkedInIteration i post scheduledDates apiKey w with
      | (Val (pushed, post'), w1) =>
          let '((out, rest'), w2) := linkedInLoop (S i) rest scheduledDates apiKey w1 in
          ((pushed ++ out, Some post' :: rest'), w2)
      | (Exn _, w1) => (([], posts), w1)
      end
  end.

Definition scheduleLinkedInPosts (posts : list (option Post)) (scheduledDates : list string)
    (apiKey : string) (w : World) : (list ScheduledPost * list (option Post)) * World :=
  match scheduledDates with
  | [] => (([], posts), w)
  | _ => linkedInLoop 0 posts scheduledDates apiKey w
  end.

Definition tweetContent (tweet : Post) : string := default "" (content tweet).

Definition twitterIteration (i : nat) (thread : Thread) (scheduledDates : list string)
    (apiKey : string) : M (list ScheduledPost * Thread) :=
  let postDate := postDateAt i scheduledDates in
  try_catch
    (match tweets thread with
     | None | Some [] => ret ([], thread)
     | Some ts =>
         let threadContent :=
           join (String "010" (String "010" (String "010" (String "010" ""))))
                (map tweetContent ts) in
         typefullyId <- createTypefullyDraft threadContent twitter apiKey postDate true ;;
         d <- or_tomorrow postDate ;;
         d' <- or_tomorrow postDate ;;
         ret ([mkScheduled (twitterThreadId i) typefullyId d st_scheduled],
              set_thread_schedule thread d' typefullyId)
     end)
    (fun error =>
       d <- or_tomorrow postDate ;;
       ret ([mkScheduled (twitterThreadId i) "" d st_failed], thread)).

Fixpoint twitterLoop (i : nat) (threads : list (option Thread)) (scheduledDates : list string)
    (apiKey : string) (w : World) : (list ScheduledPost * list (option Thread)) * World :=
  match threads with
  | [] => (([], []), w)
  | None :: rest =>
      let '((out, rest'), w') := twitterLoop (S i) rest scheduledDates apiKey w in
      ((out, None :: rest'), w')
  | Some thread :: rest =>
      match twitterIteration i thread scheduledDates apiKey w with
      | (Val (pushed, thread'), w1) =>
          let '((out, rest'), w2) := twitterLoop (S i) rest scheduledDates apiKey w1 in
          ((pushed ++ out, Some thread' :: rest'), w2)
      | (Exn _, w1) => (([], threads), w1)
      end
  end.

Definition scheduleTwitterThreads (threads : list (option Thread)) (scheduledDates : list string)
    (apiKey : string) (w : World) : (list ScheduledPost * list (option Thread)) * World :=
  match scheduledDates with
  | [] => (([], threads), w)
  | _ => twitterLoop 0 threads scheduledDates apiKey w
  end.

(** The date loops of [scheduleContent]: [n] dates from the running
    [dayIncrement], and the counter after them. *)
Fixpoint dateLoop (scheduledDate : string) (n : nat) (dayIncrement : nat)
  : list string * nat :=
  match n with
  | O => ([], dayIncrement)
  | S n' =>
      let postDate := incrementDateByDays scheduledDate (Z.of_nat dayIncrement) in
      let (rest, final) := dateLoop scheduledDate n' (S dayIncrement) in
      (postDate :: rest, final)
  end.

(** [scheduleContent] fills the scheduling info and the content of the
    campaign in place; both are returned. *)
Definition scheduleContent (campaign : Campaign) (scheduledDate : string)
    (info : SchedulingInfo) (apiKey : string) (w : World)
  : (SchedulingInfo * Campaign) * World :=
  match campaign_content campaign with
  | None => ((info, campaign), w)
  | Some content =>
      let dayIncrement := 0%nat in
      let '(pushedL, postsL, dayIncrement, w) :=
        match linkedInPosts content with
        | [] => ([], linkedInPosts content, dayIncrement, w)
        | _ =>
            let (linkedInDates, dayIncrement') :=
              dateLoop scheduledDate (length (linkedInPosts content)) dayIncrement in
            let '((results, posts'), w') :=
              scheduleLinkedInPosts (linkedInPosts content) linkedInDates apiKey w in
            (results, posts', dayIncrement', w')
        end in
      let '(pushedT, threadsT, w) :=
        match twitterThreads content with
        | [] => ([], twitterThreads content, w)
        | _ =>
            let (twitterDates, _) :=
              dateLoop scheduledDate (length (twitterThreads content)) dayIncrement in
            let '((results, threads'), w') :=
              scheduleTwitterThreads (twitterThreads content) twitterDates apiKey w in
            (results, threads', w')
        end in
      ((mkInfo (typefullyScheduleId info) (scheduledPosts info ++ pushedL ++ pushedT),
        set_content campaign (Some (mkContent postsL threadsT))), w)
  end.

Definition lift {A} (f : World -> A * World) : M A :=
  fun w => let (a, w') := f w in (Val a, w').

Definition successMessage (n : nat) : string :=
  "Successfully scheduled " +:+ pretty n +:+ " posts for campaign".

Definition handler (input : SchedulerRequest) : M SchedulerOutput :=
  try_catch
    (let campaignId := rq_campaignId input in
     if negb (truthy (trim campaignId)) then ret (OutError "Campaign ID is required")
     else
       found <- getCampaign campaignId ;;
       match found with
       | None => ret (OutError ("Campaign not found with ID: " +:+ campaignId))
       | Some campaign =>
           match campaign_content campaign with
           | None => ret (OutError "Campaign has no content to schedule")
           | Some _ =>
               key <- env_api_key ;;
               match key with
               | None | Some EmptyString =>
                   ret (OutError "Missing TYPEFULLY_API_KEY in environment variables")
               | Some apiKey =>
                   updateCampaignStatus campaignId scheduling ;;;
                   scheduledDateString <- getValidDate (rq_publishDate input) true ;;
                   let info := mkInfo None [] in
                   r <- lift (scheduleContent campaign scheduledDateString info apiKey) ;;
                   let '(info', campaign') := r in
                   now <- newDate ;;
                   let campaign'' := set_schedulingInfo campaign' info' (toISOString now) in
                   saveResult <- saveCampaign campaign'' ;;
                   if negb saveResult
                   then ret (OutError "Failed to save campaign with scheduling info")
                   else
                     updateCampaignStatus campaignId active ;;;
                     ret (OutSuccess campaignId (length (scheduledPosts info'))
                            (successMessage (length (scheduledPosts info'))))
               end
           end
       end)
    (fun error => ret (OutError error)).

End Agents.

(* ================================================================== *)
(** ** api/campaigns/route.ts *)
(* ================================================================== *)

Inductive Reply :=
  | JsonError (code : Z) (error : string)
  | JsonSuccess (message : string).

Definition maxRetries : nat := 3.

(** One pass through the body of the retry loop: read the index, filter the
    id out, write the index back.  [true] when the pass completed. *)
Definition indexAttempt (id : string) : M bool :=
  try_catch
    (indexResult <- kv_get_index ;;
     let campaignIds :=
       match indexResult with
       | Some ids => List.filter (fun cid => negb (String.eqb cid id)) ids
       | None => []
       end in
     kv_set_index campaignIds ;;;
     ret true)
    (fun err => ret false).

(** [for (let attempt = 0; attempt < maxRetries; attempt++)], counted down. *)
Fixpoint indexRetryLoop (id : string) (remaining : nat) : M bool :=
  match remaining with
  | O => ret false
  | S n =>
      indexUpdated <- indexAttempt id ;;
      if indexUpdated then ret true else indexRetryLoop id n
  end.

(** The handler of [router.delete('/:id')]. *)
Definition router_delete (id : string) : M Reply :=
  if negb (truthy (trim id)) then ret (JsonError 400 "Campaign ID is required")
  else
    try_catch
      (result <- kv_get_campaign id ;;
       match result with
       | None => ret (JsonError 404 "Campaign not found")
       | Some _ =>
           indexUpdated <- indexRetryLoop id maxRetries ;;
           if negb indexUpdated
           then ret (JsonError 500 "Failed to update campaign index")
           else
             kv_delete_campaign id ;;;
             ret (JsonSuccess ("Campaign " +:+ id +:+ " deleted"))
       end)
      (fun error => ret (JsonError 500 "Failed to delete campaign")).

(** Replies of the two reading routes. *)
Inductive ListReply :=
  | ListError (code : Z) (error : string)
  | ListOk (campaigns : list Campaign).

Inductive ItemReply :=
  | ItemError (code : Z) (error : string)
  | ItemOk (campaign : Campaign).

(** The state a promise settles in. *)
Inductive Settled (A : Type) :=
  | Fulfilled (value : A)
  | Rejected (reason : string).
Arguments Fulfilled {A} value.
Arguments Rejected {A} reason.

Definition settle {A} (m : M A) : M (Settled A) :=
  fun w => match m w with
           | (Val a, w') => (Val (Fulfilled a), w')
           | (Exn e, w') => (Val (Rejected e), w')
           end.

(** The reads of the listing route: one [kv.get] per id, started in the
    order of the ids, each settling on its own. *)
Fixpoint readSettled (campaignIds : list string) : M (list (Settled (option Campaign))) :=
  match campaignIds with
  | [] => ret []
  | campaignId :: rest =>
      r <- settle (kv_get_campaign campaignId) ;;
      rs <- readSettled rest ;;
      ret (r :: rs)
  end.

(** [.filter(fulfilled).map(value).filter(Boolean)] *)
Definition fulfilledValues (results : list (Settled (option Campaign))) : list Campaign :=
  omap (fun r => match r with Fulfilled (Some campaign) => Some campaign | _ => None end)
       results.

(** The handler of [router.get('/')]. *)
Definition router_get_all : M ListReply :=
  try_catch
    (result <- kv_get_index ;;
     let campaignIds :=
       match result with
       | Some ids => List.filter (fun cid => truthy (trim cid)) ids
       | None => []
       end in
     match campaignIds with
     | [] => ret (ListOk [])
     | _ =>
         results <- readSettled campaignIds ;;
         ret (ListOk (fulfilledValues results))
     end)
    (fun error => ret (ListError 500 "Failed to list campaigns")).

(** The handler of [router.get('/:id')]. *)
Definition router_get (id : string) : M ItemReply :=
  if negb (truthy (trim id)) then ret (ItemError 400 "Campaign ID is required")
  else
    try_catch
      (result <- kv_get_campaign id ;;
       match result with
       | None => ret (ItemError 404 "Campaign not found")
       | Some campaign => ret (ItemOk campaign)
       end)
      (fun error => ret (ItemError 500 "Failed to get campaign")).

(** The earlier revision of the routes: the listing waits for its reads with
    [Promise.all], and the deletion removes the record before it rewrites the
    index, once. *)
Module Rev1.

(** [Promise.all] over reads that were all started: the first rejection, in
    the order of the ids, is thrown. *)
Fixpoint allFulfilled {A} (results : list (Settled A)) : M (list A) :=
  match results with
  | [] => ret []
  | Fulfilled a :: rest => l <- allFulfilled rest ;; ret (a :: l)
  | Rejected e :: _ => throw e
  end.

Definition router_get_all : M ListReply :=
  try_catch
    (result <- kv_get_index ;;
     let campaignIds :=
       match result with
       | Some ids => List.filter (fun cid => truthy (trim cid)) ids
       | None => []
       end in
     match campaignIds with
     | [] => ret (ListOk [])
     | _ =>
         results <- readSettled campaignIds ;;
         campaigns <- allFulfilled results ;;
         ret (ListOk (omap (fun campaign => campaign) campaigns))
     end)
    (fun error => ret (ListError 500 "Failed to list campaigns")).

Definition router_delete (id : string) : M Reply :=
  if negb (truthy (trim id)) then ret (JsonError 400 "Campaign ID is required")
  else
    try_catch
      (result <- kv_get_campaign id ;;
       match result with
       | None => ret (JsonError 404 "Campaign not found")
       | Some _ =>
           kv_delete_campaign id ;;;
           indexResult <- kv_get_index ;;
           let campaignIds :=
             match indexResult with
             | Some ids => List.filter (fun cid => negb (String.eqb cid id)) ids
             | None => []
             end in
           kv_set_index campaignIds ;;;
           ret (JsonSuccess ("Campaign " +:+ id +:+ " deleted"))
       end)
      (fun error => ret (JsonError 500 "Failed to delete campaign")).

End Rev1.

(* ================================================================== *)
(** ** agent/manager/index.ts *)
(* ================================================================== *)

Module Manager.

(** The outcome of the one call to the language model is a parameter
    [generated] of the functions that make it: [Some] for the object it
    returned, [None] when the call threw. *)
Definition enrichRequestData (generated : option ManagerRequest) (data : ManagerRequest)
  : ManagerRequest :=
  if truthy (mr_topic data)
     && (truthy_opt (mr_description data) || truthy_opt (mr_publishDate data)
         || truthy_opt (mr_domain data))
  then data
  else if truthy (mr_topic data) then
    match generated with
    | Some output =>
        if negb (truthy (mr_topic output))
        then mkManagerRequest (mr_topic data) (mr_description output)
               (mr_publishDate output) (mr_domain output)
        else output
    | None => mkManagerRequest (mr_topic data) None None None
    end
  else mkManagerRequest "" None None None.

Definition serializeCampaigns (campaigns : list Campaign) : list CampaignSummary :=
  map (fun campaign =>
         mkSummary (id campaign) (topic campaign) (or_null (description campaign))
           (campaign_status campaign) (createdAt campaign) (updatedAt campaign))
      campaigns.

Section Handler.
Context `{DateFns}.

Definition handler (generated : option ManagerRequest) (input : ManagerRequest)
  : M ManagerOutput :=
  if negb (truthy (mr_topic input)) then ret (MgrError "Missing topic")
  else
    let request := enrichRequestData generated input in
    existingCampaigns <- findCampaignsByTopic (mr_topic request) ;;
    match existingCampaigns with
    | _ :: _ =>
        ret (MgrExisting (serializeCampaigns existingCampaigns)
               "Found existing campaigns for this topic.")
    | [] =>
        try_catch
          (let about := or_null (mr_description request) in
           let publish := or_null (mr_publishDate request) in
           campaign <- createCampaign (mr_topic request) about publish ;;
           if negb (truthy (id campaign)) then ret (MgrError "Failed to create campaign")
           else
             let source := or_null (mr_domain request) in
             let payload :=
               mkHandoff (topic campaign) (or_null (description campaign))
                 (id campaign) (or_null (publishDate campaign)) source in
             ret (MgrHandoff "Campaign created, handing off to copywriter" payload))
          (fun error => ret (MgrError ("Failed to create campaign: " +:+ error)))
    end.

End Handler.
End Manager.

(* ================================================================== *)
(** ** agent/copywriter/index.ts *)
(* ================================================================== *)

Module Copywriter.

(** What the language model is asked to return. *)
Record GeneratedPost := mkGenerated {
  g_content : string;
  g_hashtags : option (list string)
}.

Definition DEFAULT_LINKEDIN_POSTS_COUNT : nat := 3.
Definition DEFAULT_TWITTER_THREADS_COUNT : nat := 2.
Definition DEFAULT_TWEETS_PER_THREAD : nat := 3.

(** The outcome of each call to the language model is a parameter
    [generated]: [Some] for the object it returned, [None] when the call or
    the decoding of its answer threw.  The prompt is text for the model and
    is left out; the counts only occur in it. *)
Definition generateLinkedInPosts (generated : option (list GeneratedPost))
    (research : ResearchResults) (wanted : string) (count : nat) : list Post :=
  match generated with
  | Some posts =>
      map (fun post =>
             let text :=
               match g_hashtags post with
               | Some (tag :: tags) =>
                   g_content post +:+ nl +:+ nl
                   +:+ join " " (map (fun tag => "#" +:+ tag) (tag :: tags))
               | _ => g_content post
               end in
             mkPost linkedin (Some text) (Some []) None None)
          posts
  | None =>
      [mkPost linkedin
         (Some ("I've been researching " +:+ wanted
                +:+ " recently, and wanted to share some insights with my network."
                +:+ nl +:+ nl +:+ r_description research
                +:+ nl +:+ nl +:+ "#" +:+ removeSpaces wanted))
         (Some []) None None]
  end.

Definition generateTwitterThreads (generated : option (list (list string)))
    (research : ResearchResults) (wanted : string) (threadCount tweetsPerThread : nat)
  : list Thread :=
  match generated with
  | Some threads =>
      map (fun thread =>
             mkThread
               (Some (map (fun tweet => mkPost twitter (Some tweet) (Some []) None None)
                          thread))
               None None)
          threads
  | None =>
      [mkThread
         (Some [mkPost twitter
                  (Some ("I've been researching " +:+ wanted
                         +:+ " recently, and wanted to share some insights with you all in this thread."))
                  (Some []) None None;
                mkPost twitter (Some (r_description research)) (Some []) None None;
                mkPost twitter
                  (Some (match r_keyInsights research with
                         | String a s :: _ => String a s
                         | _ => wanted +:+ " is a key area everyone should be thinking about."
                         end))
                  (Some []) None None;
                mkPost twitter
                  (Some ("Want to learn more about " +:+ wanted
                         +:+ "? Follow me for more insights on content marketing and digital strategy."))
                  (Some []) None None])
         None None]
  end.

(** The research the handler works from when the request brings none. *)
Definition researchOf (campaign : Campaign) (input : CopywriterRequest) (wanted : string)
  : ResearchResults :=
  match cw_research input with
  | Some inputResearch => inputResearch
  | None =>
      if truthy (cw_topic input) then
        let desc :=
          match or_null (cw_description input) with
          | Some d => d
          | None => default "" (or_null (description campaign))
          end in
        mkResearch (cw_topic input) desc desc
          [toLowerCase (removeSpaces wanted)]
          [if truthy desc then desc else "Key points about " +:+ wanted]
          []
      else
        let desc := default "" (or_null (description campaign)) in
        mkResearch (topic campaign) desc desc
          [toLowerCase (removeSpaces (topic campaign))]
          [if truthy desc then desc else "Key points about " +:+ topic campaign]
          []
  end.

Section Handler.
Context `{DateFns}.

(** [schedulerAgent.run] is taken to run the handler of the scheduler on its
    argument, which fits the scheduler's input schema. *)
Definition schedulerAgent_run (input : SchedulerRequest) : M SchedulerOutput :=
  handler input.

(** The campaign record of the development has no [research] field: the
    handler copies that field unchanged. *)
Definition handler (generatedPosts : option (list GeneratedPost))
    (generatedThreads : option (list (list string))) (input : CopywriterRequest)
  : M CopywriterOutput :=
  try_catch
    (let campaignId := cw_campaignId input in
     if negb (truthy (trim campaignId))
     then ret (CwError "Missing required field: campaignId")
     else
       found <- getCampaign campaignId ;;
       match found with
       | None => ret (CwError ("Campaign not found with ID: " +:+ campaignId))
       | Some campaign =>
           updateCampaignStatus (id campaign) writing ;;;
           let wanted :=
             if truthy (topic campaign) then topic campaign
             else if truthy (cw_topic input) then cw_topic input
             else "No topic provided" in
           let research := researchOf campaign input wanted in
           let linkedInPosts :=
             generateLinkedInPosts generatedPosts research wanted
               DEFAULT_LINKEDIN_POSTS_COUNT in
           let twitterThreads :=
             generateTwitterThreads generatedThreads research wanted
               DEFAULT_TWITTER_THREADS_COUNT DEFAULT_TWEETS_PER_THREAD in
           let campaignContent :=
             mkContent (map Some linkedInPosts) (map Some twitterThreads) in
           now <- newDate ;;
           let updatedCampaign :=
             mkCampaign (id campaign) (topic campaign) (description campaign)
               (publishDate campaign) (campaign_status campaign)
               (Some campaignContent) None (createdAt campaign) (toISOString now) in
           saveSuccess <- saveCampaign updatedCampaign ;;
           if negb saveSuccess
           then ret (CwError "Failed to save campaign with generated content")
           else
             schedulerResult <-
               schedulerAgent_run (mkRequest (id updatedCampaign) campaignContent
                               (publishDate updatedCampaign)) ;;
             ret (CwSuccess (id campaign)
                    "Content generated and handed off to scheduler" schedulerResult)
       end)
    (fun error => ret (CwError error)).

End Handler.
End Copywriter.

(* ================================================================== *)
(** ** A reference implementation of the date primitives *)
(* ================================================================== *)

(** The proleptic Gregorian calendar on day numbers counted from the epoch,
    the timestamp pattern the agents print, and the reading of that pattern
    by [Date].  Outside the years 0001 to 9999 the rendering is not meant to
    match the runtime. *)
Module Iso.

Definition is_leap (y : Z) : bool :=
  ((y mod 4 =? 0) && negb (y mod 100 =? 0)) || (y mod 400 =? 0).

Definition days_in_month (y m : Z) : Z :=
  if m =? 2 then (if is_leap y then 29 else 28)
  else if (m =? 4) || (m =? 6) || (m =? 9) || (m =? 11) then 30
  else 31.

(** Years are counted from the first of March within a 400-year cycle, so
    that the leap day comes last.  [era_start y] is the day of the cycle on
    which its year [y] starts. *)
Definition era_start (y : Z) : Z := 365 * y + y / 4 - y / 100 + y / 400.

Definition year_of_era (doe : Z) : Z :=
  let y := Z.min (doe / 365) 399 in
  if era_start y <=? doe then y else y - 1.
Definition day_of_year (doe : Z) : Z := doe - era_start (year_of_era doe).
(** Month and day of the month of a day of such a year. *)
Definition month_of (doy : Z) : Z :=
  let mp := (5 * doy + 2) / 153 in if mp <? 10 then mp + 3 else mp - 9.
Definition day_of (doy : Z) : Z :=
  let mp := (5 * doy + 2) / 153 in doy - (153 * mp + 2) / 5 + 1.

(** Year, month and day of a day number counted from the epoch, and back. *)
Definition civil_from_days (z : Z) : Z * Z * Z :=
  let z := z + 719468 in
  let era := z / 146097 in
  let doe := z mod 146097 in
  let y := year_of_era doe + era * 400 in
  let m := month_of (day_of_year doe) in
  let d := day_of (day_of_year doe) in
  (if m <=? 2 then y + 1 else y, m, d).

Definition days_from_civil (y m d : Z) : Z :=
  let y := if m <=? 2 then y - 1 else y in
  let era := y / 400 in
  let yoe := y mod 400 in
  let doy := (153 * (if 2 <? m then m - 3 else m + 9) + 2) / 5 + d - 1 in
  let doe := era_start yoe + doy in
  era * 146097 + doe - 719468.

Definition digit (n : Z) : ascii := ascii_of_nat (48 + Z.to_nat n).

Definition dval (a : ascii) : option Z :=
  if is_digit a then Some (Z.of_nat (nat_of_ascii a) - 48) else None.

Definition num2 (a b : ascii) : option Z :=
  x ← dval a; y ← dval b; Some (10 * x + y).
Definition num3 (a b c : ascii) : option Z :=
  x ← dval a; y ← num2 b c; Some (100 * x + y).
Definition num4 (a b c d : ascii) : option Z :=
  x ← dval a; y ← num3 b c d; Some (1000 * x + y).

Definition pad2 (n : Z) (rest : string) : string :=
  String (digit (n / 10 mod 10)) (String (digit (n mod 10)) rest).
Definition pad3 (n : Z) (rest : string) : string :=
  String (digit (n / 100 mod 10)) (pad2 n rest).
Definition pad4 (n : Z) (rest : string) : string :=
  String (digit (n / 1000 mod 10)) (pad3 n rest).

(** [yyyy-MM-ddTHH:mm:ss.SSSZ] for a wall-clock instant. *)
Definition render (w : Z) : string :=
  let '(y, m, d) := civil_from_days (w / MS_PER_DAY) in
  let r := w mod MS_PER_DAY in
  pad4 y (String "-" (pad2 m (String "-" (pad2 d (String "T"
    (pad2 (r / 3600000) (String ":" (pad2 (r / 60000 mod 60) (String ":"
      (pad2 (r / 1000 mod 60) (String "." (pad3 (r mod 1000)
        (String "Z" EmptyString))))))))))))).

(** The time value [Date] gives to a timestamp in that pattern; every other
    string is taken to be unreadable. *)
Definition read (s : string) : Date :=
  match s with
  | String y1 (String y2 (String y3 (String y4 (String s1
    (String m1 (String m2 (String s2 (String d1 (String d2 (String s3
    (String h1 (String h2 (String s4 (String i1 (String i2 (String s5
    (String c1 (String c2 (String s6 (String f1 (String f2 (String f3
    (String s7 EmptyString))))))))))))))))))))))) =>
      if Ascii.eqb s1 "-" && Ascii.eqb s2 "-" && Ascii.eqb s3 "T"
         && Ascii.eqb s4 ":" && Ascii.eqb s5 ":" && Ascii.eqb s6 "."
         && Ascii.eqb s7 "Z"
      then
        y ← num4 y1 y2 y3 y4; m ← num2 m1 m2; d ← num2 d1 d2;
        hh ← num2 h1 h2; mi ← num2 i1 i2; ss ← num2 c1 c2; ms ← num3 f1 f2 f3;
        if (1 <=? m) && (m <=? 12) && (1 <=? d) && (d <=? days_in_month y m)
           && (hh <=? 23) && (mi <=? 59) && (ss <=? 59)
        then timeClip (days_from_civil y m d * MS_PER_DAY
                       + hh * 3600000 + mi * 60000 + ss * 1000 + ms)
        else None
      else None
  | _ => None
  end.

(** date-fns [addMonths]: the same day of the month and time of day, the
    day capped by the length of the target month. *)
Definition add_months (tz t n : Z) : Date :=
  let w := t + tz in
  let '(y, m, d) := civil_from_days (w / MS_PER_DAY) in
  let total := y * 12 + (m - 1) + n in
  let y' := total / 12 in
  let m' := total mod 12 + 1 in
  let d' := Z.min d (days_in_month y' m') in
  timeClip (days_from_civil y' m' d' * MS_PER_DAY + w mod MS_PER_DAY - tz).

(** A runtime in the zone [tz] whose phrase library rejects every hint. *)
Definition runtime (tz : Z) : DateFns :=
  {| tz_offset := tz;
     format := fun t => render (t + tz);
     Date_parse := read;
     toISOString := render;
     addMonths := add_months tz;
     parseHumanRelative := fun _ _ => None |}.

End Iso.

(** Checking a property on [n] consecutive integers from [z]. *)
Fixpoint all_from (n : nat) (z : Z) (P : Z -> bool) : bool :=
  match n with
  | O => true
  | S k => P z && all_from k (z + 1) P
  end.

(** What the calendar proofs need of a day of a year that starts in March:
    its month and day are in range, the 366th day being the 29th of
    February. *)
Definition doy_ok (doy : Z) : bool :=
  let m := Iso.month_of doy in
  let d := Iso.day_of doy in
  (1 <=? m) && (m <=? 12) && (1 <=? d)
  && ((d <=? Iso.days_in_month 1 m) || ((doy =? 365) && (m =? 2) && (d =? 29))).

(** The primitives of [D] with the repository's own phrase matcher in the
    place of the library: under it [getValidDate] is the later revision. *)
Definition with_matcher (D : DateFns) : DateFns :=
  {| tz_offset := @tz_offset D;
     format := @format D;
     Date_parse := @Date_parse D;
     toISOString := @toISOString D;
     addMonths := @addMonths D;
     parseHumanRelative := @Rel.parseRelativeDate D |}.

Definition utc : DateFns := with_matcher (Iso.runtime 0).

(* ================================================================== *)
(** ** Interleaved store calls *)
(* ================================================================== *)

(** An asynchronous function yields to other tasks at each awaited store
    call and nowhere else.  A task is what remains to be run of a save: the
    next store call and the continuation after it. *)
Record Store := mkStore {
  s_campaigns : gmap string Campaign;
  s_index : option (list string)
}.

Inductive Task :=
  | Done (result : bool)
  | SetCampaign (key : string) (c : Campaign) (k : Task)
  | GetIndex (k : option (list string) -> Task)
  | SetIndex (ids : list string) (k : Task).

(** [saveCampaign] with [updateCampaignIndex] inlined, on a store that does
    not fail. *)
Definition saveCampaign_task (campaign : Campaign) : Task :=
  if negb (isValidId (id campaign)) then Done false
  else
    SetCampaign (id campaign) campaign
      (GetIndex (fun result =>
         let campaignIds :=
           match data_json result with
           | Some ids => List.filter isValidId ids
           | None => []
           end in
         if negb (includes campaignIds (id campaign))
         then SetIndex (campaignIds ++ [id campaign]) (Done true)
         else Done true)).

(** One store call of a task. *)
Definition step (t : Task) (s : Store) : Task * Store :=
  match t with
  | Done r => (Done r, s)
  | SetCampaign key c k => (k, mkStore (<[key := c]> (s_campaigns s)) (s_index s))
  | GetIndex k => (k (s_index s), s)
  | SetIndex ids k => (k, mkStore (s_campaigns s) (Some ids))
  end.

(** A task run to its end without yielding to another one. *)
Fixpoint run (t : Task) (s : Store) : bool * Store :=
  match t with
  | Done r => (r, s)
  | SetCampaign key c k => run k (mkStore (<[key := c]> (s_campaigns s)) (s_index s))
  | GetIndex k => run (k (s_index s)) s
  | SetIndex ids k => run k (mkStore (s_campaigns s) (Some ids))
  end.

(** Two tasks under a schedule: [true] lets the first one make its next
    store call, [false] the second one. *)
Fixpoint interleave (schedule : list bool) (a b : Task) (s : Store)
  : Task * Task * Store :=
  match schedule with
  | [] => (a, b, s)
  | true :: rest => let (a', s') := step a s in interleave rest a' b s'
  | false :: rest => let (b', s') := step b s in interleave rest a b' s'
  end.

(* ================================================================== *)
(** ** Vocabulary of the statements *)
(* ================================================================== *)

(** [n] further readings of the clock. *)
Definition advance (n : nat) (w : World) : World :=
  mkWorld (w_clock w) (n + w_ticks w) (w_remote w) (w_sent w) (w_campaigns w)
          (w_index w) (w_kv_fault w) (w_kv_calls w) (w_api_key w).

(** A store that answers every call. *)
Definition no_faults (w : World) : Prop := forall n, w_kv_fault w n = false.

Definition store_of (w : World) : Store := mkStore (w_campaigns w) (w_index w).

(** The ids held by the index record. *)
Definition index_ids (w : World) : list string := default [] (w_index w).

(** What a run of the schedulers leaves alone: the store, the environment and
    the oracles. *)
Definition same_store (w w' : World) : Prop :=
  w_campaigns w' = w_campaigns w /\ w_index w' = w_index w
  /\ w_kv_fault w' = w_kv_fault w /\ w_kv_calls w' = w_kv_calls w
  /\ w_api_key w' = w_api_key w /\ w_clock w' = w_clock w
  /\ w_remote w' = w_remote w.

(** The body a LinkedIn slot is dispatched with, if it is dispatched. *)
Definition postBody (slot : option Post) : option string :=
  match slot with
  | Some post =>
      match content post with
      | Some (String a s) => Some (String a s)
      | _ => None
      end
  | None => None
  end.

(** The text a Twitter slot is dispatched with, if it is dispatched. *)
Definition threadBody (slot : option Thread) : option string :=
  match slot with
  | Some thread =>
      match tweets thread with
      | Some (t :: ts) =>
          Some (join (String "010" (String "010" (String "010" (String "010" ""))))
                     (map tweetContent (t :: ts)))
      | _ => None
      end
  | None => None
  end.

(** Positions and bodies of the slots that are dispatched, from position [i]. *)
Fixpoint dispatchable {A} (body : option A -> option string) (i : nat)
    (slots : list (option A)) : list (nat * string) :=
  match slots with
  | [] => []
  | slot :: rest =>
      match body slot with
      | Some b => (i, b) :: dispatchable body (S i) rest
      | None => dispatchable body (S i) rest
      end
  end.

(** The record of one dispatched item, read against the request sent for it
    and the reply number [n] of the remote service. *)
Definition item_outcome (remote : nat -> DraftRequest -> Response)
    (mkId : nat -> string) (plat : Platform) (thr : bool)
    (scheduledDates : list string) (apiKey : string)
    (n : nat) (item : nat * string) (rq : DraftRequest) (o : ScheduledPost) : Prop :=
  d_content rq = item.2 /\ d_platform rq = plat /\ d_threadify rq = thr
  /\ d_api_key rq = apiKey
  /\ postId o = mkId item.1
  /\ (forall d, postDateAt item.1 scheduledDates = Some d -> d <> "" ->
        scheduledDate o = d /\ d_schedule_date rq = d)
  /\ match remote n rq with
     | HttpOk draft_id => status o = st_scheduled /\ typefullyId o = draft_id
     | _ => status o = st_failed /\ typefullyId o = ""
     end.

(** Items, requests and records of one run, in step, the replies numbered
    from [n]. *)
Inductive outcomes_of (P : nat -> nat * string -> DraftRequest -> ScheduledPost -> Prop)
  : nat -> list (nat * string) -> list DraftRequest -> list ScheduledPost -> Prop :=
  | outcomes_nil n : outcomes_of P n [] [] []
  | outcomes_cons n item items rq rqs o os :
      P n item rq o ->
      outcomes_of P (S n) items rqs os ->
      outcomes_of P n (item :: items) (rq :: rqs) (o :: os).

(** The index filtered by a deletion. *)
Definition without (id : string) (ids : list string) : list string :=
  List.filter (fun cid => negb (String.eqb cid id)) ids.

(** The passes of the retry loop of a deletion, read off the failures of
    the store: a pass that starts at store call [k] reads the index at call
    [k] and writes it at call [k + 1]; it fails when one of the two fails,
    and a failing read ends the pass after one call. *)
Definition pass_fails (fault : nat -> bool) (k : nat) : bool := fault k || fault (S k).

Definition pass_calls (fault : nat -> bool) (k : nat) : nat := if fault k then 1 else 2.

(** Whether the [n] passes in a row from call [k] on all fail, and the number
    of store calls they make. *)
Fixpoint failed_passes (fault : nat -> bool) (k n : nat) : bool :=
  match n with
  | O => true
  | S n' => pass_fails fault k && failed_passes fault (k + pass_calls fault k) n'
  end.

Fixpoint passes_calls (fault : nat -> bool) (k n : nat) : nat :=
  match n with
  | O => O
  | S n' => pass_calls fault k + passes_calls fault (k + pass_calls fault k) n'
  end.

(** Sequences of operations on the campaign store. *)
Inductive Op :=
  | OpSave (campaign : Campaign)
  | OpDelete (id : string).

Definition op_run (o : Op) : M bool :=
  match o with
  | OpSave campaign => saveCampaign campaign
  | OpDelete id =>
      reply <- router_delete id ;;
      ret (match reply with JsonSuccess _ => true | JsonError _ _ => false end)
  end.

Definition op_ok (o : Op) (w : World) : bool :=
  match fst (op_run o w) with Val true => true | _ => false end.

Definition op_next (o : Op) (w : World) : World := snd (op_run o w).

Fixpoint run_ops (ops : list Op) (w : World) : World :=
  match ops with
  | [] => w
  | o :: rest => run_ops rest (op_next o w)
  end.

(** What [createTypefullyDraft] makes of a reply. *)
Definition draft_result (r : Response) : Res string :=
  match r with
  | HttpOk draft_id => Val draft_id
  | HttpError code statusText body =>
      Exn ("Failed to create/schedule draft: " +:+ pretty code +:+ " "
           +:+ statusText +:+ " - " +:+ body)
  | NetworkError msg => Exn msg
  end.

(** The common shape of the two item loops, used to reason about both at
    once: [body] tells whether and with what text a slot is dispatched. *)
Section ItemLoop.
Context `{DateFns} {Item : Type}.
Variables (body : option Item -> option string) (plat : Platform) (thr : bool)
          (mkId : nat -> string) (mark : Item -> string -> string -> Item).

Definition itemIteration (i : nat) (item : Item) (scheduledDates : list string)
    (apiKey : string) : M (list ScheduledPost * Item) :=
  let postDate := postDateAt i scheduledDates in
  try_catch
    (match body (Some item) with
     | None => ret ([], item)
     | Some text =>
         typefullyId <- createTypefullyDraft text plat apiKey postDate thr ;;
         d <- or_tomorrow postDate ;;
         d' <- or_tomorrow postDate ;;
         ret ([mkScheduled (mkId i) typefullyId d st_scheduled],
              mark item d' typefullyId)
     end)
    (fun error =>
       d <- or_tomorrow postDate ;;
       ret ([mkScheduled (mkId i) "" d st_failed], item)).

Fixpoint itemLoop (i : nat) (slots : list (option Item)) (scheduledDates : list string)
    (apiKey : string) (w : World) : (list ScheduledPost * list (option Item)) * World :=
  match slots with
  | [] => (([], []), w)
  | None :: rest =>
      let '((out, rest'), w') := itemLoop (S i) rest scheduledDates apiKey w in
      ((out, None :: rest'), w')
  | Some item :: rest =>
      match itemIteration i item scheduledDates apiKey w with
      | (Val (pushed, item'), w1) =>
          let '((out, rest'), w2) := itemLoop (S i) rest scheduledDates apiKey w1 in
          ((pushed ++ out, Some item' :: rest'), w2)
      | (Exn _, w1) => (([], slots), w1)
      end
  end.

End ItemLoop.

(** The world after [saveCampaign] of a campaign with a valid id on a store
    that answers: the record is written, the index is read, and the index is
    written with the id. *)
Definition save_world (campaign : Campaign) (w : World) : World :=
  let w1 := kv_called (with_campaigns (<[id campaign := campaign]> (w_campaigns w)) w) in
  let w2 := kv_called w1 in
  kv_called (with_index (Some [id campaign]) w2).

(* ================================================================== *)
(** ** Vocabulary for the store, the routes and the agents *)
(* ================================================================== *)

(** Whether every character of a string satisfies [p]. *)
Fixpoint all_chars (p : ascii -> bool) (s : string) : bool :=
  match s with
  | EmptyString => true
  | String a s' => p a && all_chars p s'
  end.

(** [n] further calls to the store. *)
Definition called (n : nat) (w : World) : World :=
  mkWorld (w_clock w) (w_ticks w) (w_remote w) (w_sent w) (w_campaigns w)
          (w_index w) (w_kv_fault w) (n + w_kv_calls w) (w_api_key w).

(** Whether the next call to the store fails. *)
Definition fault_now (w : World) : bool := w_kv_fault w (w_kv_calls w).

(** What a sequence of reads started at call number [k] yields: a read that
    fails yields nothing. *)
Fixpoint reads (fault : nat -> bool) (k : nat) (campaigns : gmap string Campaign)
    (ids : list string) : list (option Campaign) :=
  match ids with
  | [] => []
  | cid :: rest =>
      (if fault k then None else campaigns !! cid) :: reads fault (S k) campaigns rest
  end.

(** The campaigns the index leads to. *)
Definition indexed_campaigns (w : World) : list Campaign :=
  omap (fun cid => w_campaigns w !! cid) (List.filter isValidId (index_ids w)).

(** Every record is stored under its own id. *)
Definition well_keyed (w : World) : Prop :=
  forall key campaign, w_campaigns w !! key = Some campaign -> id campaign = key.

(** A computation keeps a property of the world. *)
Definition preserves {A} (P : World -> Prop) (m : M A) : Prop :=
  forall w, P w -> P (m w).2.

(** A property of the world that only looks at the store. *)
Definition on_store (Q : Store -> Prop) (w : World) : Prop := Q (store_of w).

(** The two ways a campaign matches a search term. *)
Definition exact_match (searchTerm : string) (campaign : Campaign) : bool :=
  String.eqb (trim (toLowerCase (topic campaign))) searchTerm.

Definition partial_match (searchTerm : string) (campaign : Campaign) : bool :=
  str_includes (toLowerCase (topic campaign)) searchTerm.

(** The campaigns [listCampaigns] returns in a world. *)
Definition listed (w : World) : list Campaign :=
  match (listCampaigns w).1 with
  | Val l => l
  | Exn _ => []
  end.

(** The selection [findCampaignsByTopic] makes among the campaigns it lists:
    the exact matches, or the partial ones when no match is exact. *)
Definition topic_matches (searchTerm : string) (allCampaigns : list Campaign)
  : list Campaign :=
  match List.filter (exact_match searchTerm) allCampaigns with
  | [] => List.filter (partial_match searchTerm) allCampaigns
  | exactMatches => exactMatches
  end.

(** The campaign [createCampaign] builds in a world. *)
Definition created `{DateFns} (wanted : string) (about publish : option string)
    (w : World) : Campaign :=
  let now := toISOString (w_clock w (S (w_ticks w))) in
  mkCampaign ("campaign-" +:+ pretty (w_clock w (w_ticks w))) wanted about publish
    planning None None now now.

(** The two writes a save is made of: a record under its own id, and the
    index made of the id of a record that is there. *)
Inductive store_write : Store -> Store -> Prop :=
  | write_record campaigns index campaign :
      isValidId (id campaign) = true ->
      store_write (mkStore campaigns index)
                  (mkStore (<[id campaign := campaign]> campaigns) index)
  | write_index campaigns index cid :
      isValidId cid = true -> is_Some (campaigns !! cid) ->
      store_write (mkStore campaigns index) (mkStore campaigns (Some [cid])).

(** A property of the store that both writes keep. *)
Definition save_closed (Q : Store -> Prop) : Prop :=
  forall s s', store_write s s' -> Q s -> Q s'.

(** Every valid id of the index has its record. *)
Definition index_leads_to_records (w : World) : Prop :=
  forall cid, cid ∈ index_ids w -> isValidId cid = true -> is_Some (w_campaigns w !! cid).

(** The entry points that write to the store, and sequences of their runs. *)
Inductive Call :=
  | CallSave (campaign : Campaign)
  | CallStatus (campaignId : string) (st : CampaignStatus)
  | CallCreate (wanted : string) (about publish : option string)
  | CallScheduler (input : SchedulerRequest)
  | CallManager (generated : option ManagerRequest) (input : ManagerRequest)
  | CallCopywriter (generatedPosts : option (list Copywriter.GeneratedPost))
      (generatedThreads : option (list (list string))) (input : CopywriterRequest)
  | CallDelete (campaignId : string).

Definition call_run `{DateFns} (c : Call) (w : World) : World :=
  match c with
  | CallSave campaign => (saveCampaign campaign w).2
  | CallStatus campaignId st => (updateCampaignStatus campaignId st w).2
  | CallCreate wanted about publish => (createCampaign wanted about publish w).2
  | CallScheduler input => (handler input w).2
  | CallManager generated input => (Manager.handler generated input w).2
  | CallCopywriter generatedPosts generatedThreads input =>
      (Copywriter.handler generatedPosts generatedThreads input w).2
  | CallDelete campaignId => (router_delete campaignId w).2
  end.

Fixpoint call_runs `{DateFns} (calls : list Call) (w : World) : World :=
  match calls with
  | [] => w
  | c :: rest => call_runs rest (call_run c w)
  end.

Definition call_deletes (key : string) (c : Call) : Prop :=
  match c with
  | CallDelete x => x = key
  | _ => False
  end.

(** Whether one of the [n] calls from number [k] on fails. *)
Fixpoint faults_within (fault : nat -> bool) (k n : nat) : bool :=
  match n with
  | O => false
  | S n' => fault k || faults_within fault (S k) n'
  end.

(* ================================================================== *)
(** ** Sample data *)
(* ================================================================== *)

(** 2026-11-02T08:13:00.000Z *)
Definition sample_now : Z := 1793607180000.

(** A world whose clock stands still and whose store answers every call. *)
Definition quiet_world (remote : nat -> DraftRequest -> Response)
    (campaigns : gmap string Campaign) (index : option (list string))
    (key : option string) : World :=
  mkWorld (fun _ => sample_now) 0 remote [] campaigns index (fun _ => false) 0 key.

Definition post_of (text : string) : Post :=
  mkPost linkedin (Some text) None None None.

Definition thread_of (texts : list string) : Thread :=
  mkThread (Some (map (fun t => mkPost twitter (Some t) None None None) texts))
           None None.

(** A service that refuses the second draft it is sent and accepts the
    others, naming them after their rank. *)
Definition second_fails (n : nat) (rq : DraftRequest) : Response :=
  if (n =? 1)%nat then HttpError 500 "Internal Server Error" "busy"
  else HttpOk ("d" +:+ pretty n).

Definition always_accepts (n : nat) (rq : DraftRequest) : Response :=
  HttpOk ("d" +:+ pretty (S n)).

Definition always_refuses (n : nat) (rq : DraftRequest) : Response :=
  HttpError 500 "Internal Server Error" "busy".

Definition sample_dates : list string :=
  ["2026-11-03T08:13:00.000Z"; "2026-11-04T08:13:00.000Z"].

(** The campaign of the end-to-end scenario, as the copywriter left it. *)
Definition sample_campaign : Campaign :=
  mkCampaign "c1" "launch" None (Some "tomorrow") writing
    (Some (mkContent [Some (post_of "A")] [])) None
    "2026-11-02T08:00:00.000Z" "2026-11-02T08:00:00.000Z".

Definition d1_service (n : nat) (rq : DraftRequest) : Response := HttpOk "d1".

Definition sample_world (remote : nat -> DraftRequest -> Response) : World :=
  quiet_world remote {["c1" := sample_campaign]} (Some ["c1"]) (Some "key").

Definition sample_request : SchedulerRequest :=
  mkRequest "c1" (mkContent [Some (post_of "A")] []) (Some "tomorrow").

(** A campaign with two posts and one thread. *)
Definition mixed_content : CampaignContent :=
  mkContent [Some (post_of "first"); Some (post_of "second")]
            [Some (thread_of ["one"; "two"])].

Definition mixed_campaign : Campaign :=
  mkCampaign "c2" "launch" None None writing (Some mixed_content) None
    "2026-11-02T08:00:00.000Z" "2026-11-02T08:00:00.000Z".

(** A store whose call number [k] fails. *)
Definition fault_at (k : nat) (n : nat) : bool := (n =? k)%nat.

Definition faulty_world (fault : nat -> bool) (campaigns : gmap string Campaign)
    (index : option (list string)) : World :=
  mkWorld (fun _ => sample_now) 0 always_accepts [] campaigns index fault 0 None.

Definition campaign_a : Campaign :=
  mkCampaign "a" "first" None None planning None None
    "2026-11-02T08:00:00.000Z" "2026-11-02T08:00:00.000Z".

Definition campaign_b : Campaign :=
  mkCampaign "b" "second" None None planning None None
    "2026-11-02T08:00:00.000Z" "2026-11-02T08:00:00.000Z".

(** Two saves whose store calls interleave: each writes its record and
    reads the index before either writes the index. *)
Definition racing_saves : Task * Task * Store :=
  interleave [true; true; false; false; true; false]
    (saveCampaign_task campaign_a) (saveCampaign_task campaign_b) (mkStore ∅ None).

(* ================================================================== *)
(** * Properties *)
(* ================================================================== *)

(** ** Clock readings *)

Lemma advance_0 w : advance 0 w = w.
Proof. by destruct w. Qed.

Lemma same_store_refl w : same_store w w.
Proof. by repeat split. Qed.

Lemma same_store_trans w1 w2 w3 :
  same_store w1 w2 -> same_store w2 w3 -> same_store w1 w3.
Proof.
  unfold same_store. intros (?&?&?&?&?&?&?) (?&?&?&?&?&?&?).
  repeat split; congruence.
Qed.

Section DateFacts.
Context `{D : DateFns}.

(** The shape of every run of [getValidDate]: a value, and a world that
    differs by the clock readings taken. *)
Lemma getValidDate_runs hint ef w :
  exists s n, getValidDate hint ef w = (Val s, advance n w).
Proof.
  unfold getValidDate, bind, newDate, ret.
  destruct hint as [[|a s]|]; try (eexists _, 1%nat; reflexivity).
  simpl.
  destruct (match parseHumanRelative (String a s) _ with
            | Some d => d | None => Date_parse (String a s) end) as [d|];
    [|eexists _, 2%nat; reflexivity].
  destruct ef; [|eexists _, 2%nat; reflexivity].
  simpl. destruct (isPast d _); eexists _, 3%nat; reflexivity.
Qed.

(** Every value of [getValidDate] is a formatted instant. *)
Lemma getValidDate_formats hint ef w :
  exists t, (getValidDate hint ef w).1 = Val (format t).
Proof.
  unfold getValidDate, bind, newDate, ret.
  destruct hint as [[|a s]|]; try (by eexists).
  simpl.
  destruct (match parseHumanRelative (String a s) _ with
            | Some d => d | None => Date_parse (String a s) end) as [d|];
    [|by eexists].
  destruct ef; [|by eexists].
  simpl. destruct (isPast d _); by eexists.
Qed.

Lemma or_tomorrow_runs postDate w :
  exists s n, or_tomorrow postDate w = (Val s, advance n w).
Proof.
  destruct postDate as [[|a s]|]; simpl; try apply getValidDate_runs.
  exists (String a s), 0%nat. by rewrite advance_0.
Qed.

Lemma or_tomorrow_date d w : d <> "" -> or_tomorrow (Some d) w = (Val d, w).
Proof. by destruct d. Qed.

(** A dispatch sends exactly one request, and its result is the reply of the
    remote service to that request. *)
Lemma createTypefullyDraft_runs text plat apiKey postDate thr w :
  exists finalDate n,
    let rq := mkDraft text plat thr finalDate apiKey in
    or_tomorrow postDate w = (Val finalDate, advance n w) /\
    createTypefullyDraft text plat apiKey postDate thr w
    = (draft_result (w_remote w (length (w_sent w)) rq), sent rq (advance n w)).
Proof.
  destruct (or_tomorrow_runs postDate w) as (s & n & E).
  exists s, n. simpl. split; [exact E|].
  unfold createTypefullyDraft, bind. rewrite E. unfold fetch. simpl.
  by destruct (w_remote w _ _).
Qed.

End DateFacts.

(** ** The item loops *)

(** Closes a case of an iteration: the request [rq] was sent, one record was
    pushed, and the record agrees with the reply [Ereply]. *)
Ltac record_found rq Ereply :=
  unfold ret; eexists rq, _, _, _;
  split; [reflexivity|]; split; [reflexivity|]; split; [by repeat split|];
  unfold item_outcome; simpl; rewrite Ereply; repeat split; eauto.

Section ItemFacts.
Context `{D : DateFns} {Item : Type}.
Variables (body : option Item -> option string) (plat : Platform) (thr : bool)
          (mkId : nat -> string) (mark : Item -> string -> string -> Item).
Hypothesis body_None : body None = None.

Lemma itemIteration_skip i item dates apiKey w :
  body (Some item) = None ->
  itemIteration body plat thr mkId mark i item dates apiKey w = (Val ([], item), w).
Proof. intros E. unfold itemIteration, try_catch. by rewrite E. Qed.

Lemma itemIteration_dispatch i item text dates apiKey w :
  body (Some item) = Some text ->
  exists rq o item' w1,
    itemIteration body plat thr mkId mark i item dates apiKey w
    = (Val ([o], item'), w1)
    /\ w_sent w1 = w_sent w ++ [rq]
    /\ same_store w w1
    /\ item_outcome (w_remote w) mkId plat thr dates apiKey
         (length (w_sent w)) (i, text) rq o.
Proof.
  intros E. unfold itemIteration, try_catch, bind. rewrite E.
  destruct (createTypefullyDraft_runs text plat apiKey (postDateAt i dates) thr w)
    as (finalDate & n & Efinal & Erun).
  simpl in Erun. rewrite Erun.
  set (rq := mkDraft text plat thr finalDate apiKey).
  set (w0 := sent rq (advance n w)).
  assert (Hdate : forall d, postDateAt i dates = Some d -> d <> "" -> finalDate = d).
  { intros d Hd Hne. rewrite Hd, (or_tomorrow_date d w Hne) in Efinal. congruence. }
  destruct (or_tomorrow_runs (postDateAt i dates) w0) as (s1 & n1 & E1).
  assert (Hs1 : forall d, postDateAt i dates = Some d -> d <> "" -> s1 = d).
  { intros d Hd Hne. rewrite Hd, (or_tomorrow_date d w0 Hne) in E1. congruence. }
  destruct (w_remote w (length (w_sent w)) rq) eqn:Ereply; simpl.
  - (* the draft was created *)
    rewrite E1.
    destruct (or_tomorrow_runs (postDateAt i dates) (advance n1 w0)) as (s2 & n2 & E2).
    rewrite E2. record_found rq Ereply.
  - (* the service refused the draft *)
    rewrite E1. record_found rq Ereply.
  - (* the request itself failed *)
    rewrite E1. record_found rq Ereply.
Qed.

(** Every slot that can be dispatched is dispatched once, whatever happened
    to the slots before it, and leaves one record. *)
Lemma itemLoop_spec slots : forall i dates apiKey w,
  exists rqs,
    outcomes_of (item_outcome (w_remote w) mkId plat thr dates apiKey)
      (length (w_sent w)) (dispatchable body i slots) rqs
      (itemLoop body plat thr mkId mark i slots dates apiKey w).1.1
    /\ w_sent (itemLoop body plat thr mkId mark i slots dates apiKey w).2
       = w_sent w ++ rqs
    /\ same_store w (itemLoop body plat thr mkId mark i slots dates apiKey w).2
    /\ length (itemLoop body plat thr mkId mark i slots dates apiKey w).1.2
       = length slots.
Proof.
  induction slots as [|slot rest IH]; intros i dates apiKey w.
  - exists []. simpl. rewrite app_nil_r.
    split; [constructor|]. split; [reflexivity|]. split; [apply same_store_refl|reflexivity].
  - destruct slot as [item|]; simpl.
    + destruct (body (Some item)) as [text|] eqn:E.
      * destruct (itemIteration_dispatch i item text dates apiKey w E)
          as (rq & o & item' & w1 & Erun & Hsent & Hsame & Hout).
        rewrite Erun.
        destruct (IH (S i) dates apiKey w1) as (rqs & Hrest & Hsent' & Hsame' & Hlen).
        destruct (itemLoop _ _ _ _ _ (S i) rest dates apiKey w1) as [[out rest'] w2].
        simpl in *. exists (rq :: rqs).
        split; [|split; [|split]].
        -- constructor; [exact Hout|].
           destruct Hsame as (_&_&_&_&_&_&Hrem).
           rewrite Hrem, Hsent, length_app, Nat.add_1_r in Hrest. exact Hrest.
        -- rewrite Hsent', Hsent, <- app_assoc. reflexivity.
        -- eapply same_store_trans; eauto.
        -- by rewrite Hlen.
      * rewrite (itemIteration_skip i item dates apiKey w E).
        destruct (IH (S i) dates apiKey w) as (rqs & Hrest & Hsent' & Hsame' & Hlen).
        destruct (itemLoop _ _ _ _ _ (S i) rest dates apiKey w) as [[out rest'] w2].
        simpl in *. exists rqs. by rewrite Hlen.
    + rewrite body_None.
      destruct (IH (S i) dates apiKey w) as (rqs & Hrest & Hsent' & Hsame' & Hlen).
      destruct (itemLoop _ _ _ _ _ (S i) rest dates apiKey w) as [[out rest'] w2].
      simpl in *. exists rqs. by rewrite Hlen.
Qed.

End ItemFacts.

Lemma outcomes_of_lookup P n items rqs os :
  outcomes_of P n items rqs os ->
  length rqs = length items /\ length os = length items /\
  forall k item, items !! k = Some item ->
    exists rq o, rqs !! k = Some rq /\ os !! k = Some o /\ P (n + k)%nat item rq o.
Proof.
  induction 1 as [n|n item items rq rqs o os HP Hrest (Hl1 & Hl2 & IH)].
  - repeat split; intros k item Hk; by rewrite lookup_nil in Hk.
  - simpl. rewrite Hl1, Hl2. repeat split.
    intros [|k] it Hk; simpl in *.
    + injection Hk as <-. exists rq, o. by rewrite Nat.add_0_r.
    + destruct (IH k it Hk) as (rq' & o' & ? & ? & HP').
      exists rq', o'. repeat split; try done.
      by rewrite <- Nat.add_succ_comm.
Qed.

Lemma outcomes_of_ids remote mkId plat thr dates apiKey n items rqs os :
  outcomes_of (item_outcome remote mkId plat thr dates apiKey) n items rqs os ->
  map postId os = map (fun item => mkId item.1) items.
Proof.
  induction 1 as [|n item items rq rqs o os HP _ IH]; [done|].
  simpl. rewrite IH. f_equal. apply HP.
Qed.

Lemma dispatchable_lookup {A} (body : option A -> option string) slots :
  forall j i slot text,
    slots !! i = Some slot -> body slot = Some text ->
    exists k, dispatchable body j slots !! k = Some ((j + i)%nat, text).
Proof.
  induction slots as [|s rest IH]; intros j i slot text Hi Hb.
  - by rewrite lookup_nil in Hi.
  - destruct i as [|i]; simpl in *.
    + injection Hi as ->. rewrite Hb. exists 0%nat. by rewrite Nat.add_0_r.
    + destruct (IH (S j) i slot text Hi Hb) as (k & Hk).
      rewrite <- Nat.add_succ_comm.
      destruct (body s); [by exists (S k)|by exists k].
Qed.

Lemma dispatchable_positions {A} (body : option A -> option string) slots :
  forall j i text,
    (i, text) ∈ dispatchable body j slots ->
    exists slot, (j <= i)%nat /\ slots !! (i - j)%nat = Some slot /\ body slot = Some text.
Proof.
  induction slots as [|s rest IH]; intros j i text Hin; simpl in Hin.
  - by apply elem_of_nil in Hin.
  - destruct (body s) as [b|] eqn:E.
    + apply elem_of_cons in Hin as [Heq|Hin].
      * injection Heq as -> ->. exists s. by rewrite Nat.sub_diag.
      * destruct (IH _ _ _ Hin) as (slot & Hle & Hl & Hb).
        exists slot. split; [lia|]. split; [|done].
        replace (i - j)%nat with (S (i - S j)) by lia. done.
    + destruct (IH _ _ _ Hin) as (slot & Hle & Hl & Hb).
      exists slot. split; [lia|]. split; [|done].
      replace (i - j)%nat with (S (i - S j)) by lia. done.
Qed.

Section Loops.
Context `{D : DateFns}.

Lemma linkedInLoop_itemLoop posts : forall i dates apiKey w,
  linkedInLoop i posts dates apiKey w
  = itemLoop postBody linkedin false linkedInPostId set_post_schedule
      i posts dates apiKey w.
Proof.
  induction posts as [|[post|] rest IH]; intros i dates apiKey w; simpl.
  - reflexivity.
  - replace (linkedInIteration i post dates apiKey w)
      with (itemIteration postBody linkedin false linkedInPostId set_post_schedule
              i post dates apiKey w).
    2:{ unfold linkedInIteration, itemIteration, postBody.
        by destruct (content post) as [[|a s]|]. }
    destruct (itemIteration _ _ _ _ _ i post dates apiKey w) as [[[pushed post']|e] w1];
      [|done].
    by rewrite IH.
  - by rewrite IH.
Qed.

Lemma twitterLoop_itemLoop threads : forall i dates apiKey w,
  twitterLoop i threads dates apiKey w
  = itemLoop threadBody twitter true twitterThreadId set_thread_schedule
      i threads dates apiKey w.
Proof.
  induction threads as [|[thread|] rest IH]; intros i dates apiKey w; simpl.
  - reflexivity.
  - replace (twitterIteration i thread dates apiKey w)
      with (itemIteration threadBody twitter true twitterThreadId set_thread_schedule
              i thread dates apiKey w).
    2:{ unfold twitterIteration, itemIteration, threadBody.
        by destruct (tweets thread) as [[|t ts]|]. }
    destruct (itemIteration _ _ _ _ _ i thread dates apiKey w)
      as [[[pushed thread']|e] w1]; [|done].
    by rewrite IH.
  - by rewrite IH.
Qed.

(** The two schedulers on a non-empty date list. *)
Lemma scheduleLinkedInPosts_spec posts dates apiKey w :
  dates <> [] ->
  exists rqs,
    outcomes_of (item_outcome (w_remote w) linkedInPostId linkedin false dates apiKey)
      (length (w_sent w)) (dispatchable postBody 0 posts) rqs
      (scheduleLinkedInPosts posts dates apiKey w).1.1
    /\ w_sent (scheduleLinkedInPosts posts dates apiKey w).2 = w_sent w ++ rqs
    /\ same_store w (scheduleLinkedInPosts posts dates apiKey w).2
    /\ length (scheduleLinkedInPosts posts dates apiKey w).1.2 = length posts.
Proof.
  intros Hne. unfold scheduleLinkedInPosts.
  destruct dates as [|d0 dates']; [done|].
  rewrite linkedInLoop_itemLoop. by apply itemLoop_spec.
Qed.

Lemma scheduleTwitterThreads_spec threads dates apiKey w :
  dates <> [] ->
  exists rqs,
    outcomes_of (item_outcome (w_remote w) twitterThreadId twitter true dates apiKey)
      (length (w_sent w)) (dispatchable threadBody 0 threads) rqs
      (scheduleTwitterThreads threads dates apiKey w).1.1
    /\ w_sent (scheduleTwitterThreads threads dates apiKey w).2 = w_sent w ++ rqs
    /\ same_store w (scheduleTwitterThreads threads dates apiKey w).2
    /\ length (scheduleTwitterThreads threads dates apiKey w).1.2 = length threads.
Proof.
  intros Hne. unfold scheduleTwitterThreads.
  destruct dates as [|d0 dates']; [done|].
  rewrite twitterLoop_itemLoop. by apply itemLoop_spec.
Qed.

End Loops.

Lemma linkedInPostId_inj i j : linkedInPostId i = linkedInPostId j -> i = j.
Proof.
  unfold linkedInPostId. intros E. simpl in E.
  injection E as E. by apply (inj pretty).
Qed.

Lemma twitterThreadId_inj i j : twitterThreadId i = twitterThreadId j -> i = j.
Proof.
  unfold twitterThreadId. intros E. simpl in E.
  injection E as E. by apply (inj pretty).
Qed.

Lemma postBody_truthy post :
  truthy_opt (content post) = true ->
  exists text, postBody (Some post) = Some text /\ content post = Some text.
Proof.
  unfold postBody. destruct (content post) as [[|a s]|]; try done.
  intros _. by eexists.
Qed.

(** ** Failure isolation *)

(** Each dispatched item is recorded according to the reply to its own
    request. *)
Lemma outcomes_isolated remote mkId plat thr dates apiKey n items rqs os :
  outcomes_of (item_outcome remote mkId plat thr dates apiKey) n items rqs os ->
  forall k i text, items !! k = Some (i, text) ->
    exists rq o, rqs !! k = Some rq /\ os !! k = Some o /\
      d_content rq = text /\
      match remote (n + k)%nat rq with
      | HttpOk draft_id => status o = st_scheduled /\ typefullyId o = draft_id
      | _ => status o = st_failed /\ typefullyId o = "" /\
             (forall d, postDateAt i dates = Some d -> d <> "" ->
                scheduledDate o = d)
      end.
Proof.
  intros Hout k i text Hi.
  destruct (outcomes_of_lookup _ _ _ _ _ Hout) as (_ & _ & Hk).
  destruct (Hk k _ Hi) as (rq & o & Hrq & Ho & Hc & _ & _ & _ & _ & Hd & Hr).
  exists rq, o. repeat split; try done.
  destruct (remote _ rq); destruct Hr as [? ?]; repeat split; try done;
    intros d Hd1 Hd2; by destruct (Hd d Hd1 Hd2).
Qed.

(** The threads are isolated from one another in the same way. *)
Lemma thread_failure_isolation `{D : DateFns} threads dates apiKey w :
  dates <> [] ->
  let items := dispatchable threadBody 0 threads in
  let result := scheduleTwitterThreads threads dates apiKey w in
  exists rqs,
    w_sent result.2 = w_sent w ++ rqs /\
    length rqs = length items /\
    map postId result.1.1 = map (fun item => twitterThreadId item.1) items /\
    (forall k i text, items !! k = Some (i, text) ->
       exists rq o, rqs !! k = Some rq /\ result.1.1 !! k = Some o /\
         d_content rq = text /\
         match w_remote w (length (w_sent w) + k) rq with
         | HttpOk draft_id => status o = st_scheduled /\ typefullyId o = draft_id
         | _ => status o = st_failed /\ typefullyId o = "" /\
                (forall d, postDateAt i dates = Some d -> d <> "" ->
                   scheduledDate o = d)
         end).
Proof.
  intros Hne items result.
  destruct (scheduleTwitterThreads_spec threads dates apiKey w Hne)
    as (rqs & Hout & Hsent & _ & _).
  fold result in Hout, Hsent. fold items in Hout.
  destruct (outcomes_of_lookup _ _ _ _ _ Hout) as (Hl1 & _ & _).
  exists rqs. split; [done|]. split; [done|].
  split; [by apply outcomes_of_ids in Hout|].
  exact (outcomes_isolated _ _ _ _ _ _ _ _ _ _ Hout).
Qed.

(** C3. The LinkedIn scheduler dispatches every post that has a body, one
    request each, whatever the replies to the earlier ones: the records come
    one per dispatched post in the order of the posts; a post whose dispatch
    fails gets a record that is [failed], has the empty draft id and keeps
    the date chosen for it, and the posts after it are still dispatched.  For
    three posts of which the second fails the statuses are scheduled,
    failed, scheduled. *)
Theorem failure_isolation `{D : DateFns} posts dates apiKey w :
  dates <> [] ->
  let items := dispatchable postBody 0 posts in
  let result := scheduleLinkedInPosts posts dates apiKey w in
  exists rqs,
    w_sent result.2 = w_sent w ++ rqs /\
    length rqs = length items /\
    map postId result.1.1 = map (fun item => linkedInPostId item.1) items /\
    (forall k i text, items !! k = Some (i, text) ->
       exists rq o, rqs !! k = Some rq /\ result.1.1 !! k = Some o /\
         d_content rq = text /\
         match w_remote w (length (w_sent w) + k) rq with
         | HttpOk draft_id => status o = st_scheduled /\ typefullyId o = draft_id
         | _ => status o = st_failed /\ typefullyId o = "" /\
                (forall d, postDateAt i dates = Some d -> d <> "" ->
                   scheduledDate o = d)
         end) /\
    (forall p0 p1 p2, posts = [Some p0; Some p1; Some p2] ->
       truthy_opt (content p0) = true ->
       truthy_opt (content p1) = true ->
       truthy_opt (content p2) = true ->
       (forall rq, exists draft_id,
           w_remote w (length (w_sent w)) rq = HttpOk draft_id) ->
       (forall rq draft_id,
           w_remote w (length (w_sent w) + 1) rq <> HttpOk draft_id) ->
       (forall rq, exists draft_id,
           w_remote w (length (w_sent w) + 2) rq = HttpOk draft_id) ->
       map status result.1.1 = [st_scheduled; st_failed; st_scheduled]).
Proof.
  intros Hne items result.
  destruct (scheduleLinkedInPosts_spec posts dates apiKey w Hne)
    as (rqs & Hout & Hsent & _ & _).
  fold result in Hout, Hsent. fold items in Hout.
  destruct (outcomes_of_lookup _ _ _ _ _ Hout) as (Hl1 & Hl2 & _).
  pose proof (outcomes_isolated _ _ _ _ _ _ _ _ _ _ Hout) as Hper.
  exists rqs. repeat split; try done.
  - by apply outcomes_of_ids in Hout.
  - intros p0 p1 p2 -> H0 H1 H2 Hok0 Hbad Hok2.
    destruct (postBody_truthy _ H0) as (t0 & B0 & _).
    destruct (postBody_truthy _ H1) as (t1 & B1 & _).
    destruct (postBody_truthy _ H2) as (t2 & B2 & _).
    assert (Hitems : items = [(0%nat, t0); (1%nat, t1); (2%nat, t2)]).
    { unfold items. cbn [dispatchable]. by rewrite B0, B1, B2. }
    rewrite Hitems in Hl2, Hper.
    destruct (result.1.1) as [|o0 [|o1 [|o2 [|o3 os]]]]; try done.
    destruct (Hper 0%nat _ _ eq_refl) as (rq0 & ? & _ & [= <-] & _ & R0).
    destruct (Hper 1%nat _ _ eq_refl) as (rq1 & ? & _ & [= <-] & _ & R1).
    destruct (Hper 2%nat _ _ eq_refl) as (rq2 & ? & _ & [= <-] & _ & R2).
    rewrite Nat.add_0_r in R0.
    destruct (Hok0 rq0) as (i0 & E0). rewrite E0 in R0.
    destruct (Hok2 rq2) as (i2 & E2). rewrite E2 in R2.
    simpl. destruct R0 as [-> _], R2 as [-> _].
    destruct (w_remote w (length (w_sent w) + 1) rq1) eqn:E1;
      [by destruct (Hbad rq1 draft_id)| |]; by destruct R1 as [-> _].
Qed.

(** The statuses of the run on three posts of which the second is refused. *)
Lemma failure_isolation_witness :
  sample_dates <> [] /\
  map status
    (@scheduleLinkedInPosts utc
       [Some (post_of "ok"); Some (post_of "bad"); Some (post_of "ok")]
       sample_dates "key" (quiet_world second_fails ∅ None (Some "key"))).1.1
  = [st_scheduled; st_failed; st_scheduled].
Proof.
  assert (Hne : sample_dates <> []) by done.
  split; [exact Hne|].
  destruct (@failure_isolation utc
              [Some (post_of "ok"); Some (post_of "bad"); Some (post_of "ok")]
              sample_dates "key" (quiet_world second_fails ∅ None (Some "key")) Hne)
    as (rqs & _ & _ & _ & _ & Hex).
  apply (Hex _ _ _ eq_refl); try reflexivity.
  - intros rq. by eexists.
  - intros rq draft_id. done.
  - intros rq. by eexists.
Defined.

(** ** Date selection and skipped items *)

Lemma record_of_dispatched remote mkId plat thr dates apiKey n items rqs os o :
  outcomes_of (item_outcome remote mkId plat thr dates apiKey) n items rqs os ->
  o ∈ os -> exists item, item ∈ items /\ postId o = mkId item.1.
Proof.
  intros Hout Ho. apply outcomes_of_ids in Hout.
  assert (Hin : postId o ∈ map postId os) by (by apply list_elem_of_fmap_2).
  rewrite Hout in Hin. apply list_elem_of_fmap in Hin as (item & ? & ?).
  by exists item.
Qed.

Lemma postDateAt_clamped (dates : list string) i :
  dates <> [] ->
  (dateIndex i dates < length dates)%nat /\
  exists d, postDateAt i dates = Some d /\
            ((length dates - 1 <= i)%nat -> last dates = Some d).
Proof.
  intros Hne. unfold postDateAt, dateIndex.
  assert (Hlen : (0 < length dates)%nat) by (destruct dates; [done|simpl; lia]).
  split; [lia|].
  destruct (lookup_lt_is_Some_2 dates (i `min` (length dates - 1))) as [d Hd]; [lia|].
  exists d. split; [done|]. intros Hi.
  rewrite last_lookup, <- Hd. f_equal. lia.
Qed.

(** In a run on a non-empty date list, the slot at position [i], when it is
    dispatched, is sent and recorded with the date chosen for [i]. *)
Lemma dated_record remote mkId plat thr dates apiKey n items rqs os i text d :
  outcomes_of (item_outcome remote mkId plat thr dates apiKey) n items rqs os ->
  (i, text) ∈ items -> postDateAt i dates = Some d -> d <> "" ->
  exists rq o, rq ∈ rqs /\ o ∈ os /\ d_content rq = text /\ d_schedule_date rq = d
               /\ postId o = mkId i /\ scheduledDate o = d.
Proof.
  intros Hout Hin Hd Hne.
  apply list_elem_of_lookup in Hin as [k Hk].
  destruct (outcomes_of_lookup _ _ _ _ _ Hout) as (_ & _ & Hper).
  destruct (Hper k _ Hk) as (rq & o & Hrq & Ho & Hc & _ & _ & _ & Hid & Hdate & _).
  destruct (Hdate d Hd Hne) as [? ?].
  exists rq, o. repeat split; try done; by eapply list_elem_of_lookup_2.
Qed.

(** C5. On a non-empty date list the date chosen for position [i] is the
    entry at [min i (length dates - 1)]: the index is always in range, hence
    the access always yields a date, and from the last index on it is the
    last date.  A dispatched post or thread at position [i] is sent and
    recorded with that date, and running short of dates ends neither
    scheduler early: each leaves one record per dispatched item. *)
Theorem fallback_clamp `{D : DateFns} (dates : list string) (i : nat) :
  dates <> [] ->
  exists d,
    dateIndex i dates = Nat.min i (length dates - 1) /\
    (dateIndex i dates < length dates)%nat /\
    postDateAt i dates = Some d /\
    dates !! Nat.min i (length dates - 1) = Some d /\
    ((length dates - 1 <= i)%nat -> last dates = Some d) /\
    (d <> "" -> forall posts apiKey w slot text,
        posts !! i = Some slot -> postBody slot = Some text ->
        exists rq o,
          rq ∈ w_sent (scheduleLinkedInPosts posts dates apiKey w).2 /\
          o ∈ (scheduleLinkedInPosts posts dates apiKey w).1.1 /\
          d_content rq = text /\ d_schedule_date rq = d /\
          postId o = linkedInPostId i /\ scheduledDate o = d) /\
    (d <> "" -> forall threads apiKey w slot text,
        threads !! i = Some slot -> threadBody slot = Some text ->
        exists rq o,
          rq ∈ w_sent (scheduleTwitterThreads threads dates apiKey w).2 /\
          o ∈ (scheduleTwitterThreads threads dates apiKey w).1.1 /\
          d_content rq = text /\ d_schedule_date rq = d /\
          postId o = twitterThreadId i /\ scheduledDate o = d) /\
    (forall posts apiKey w,
        length (scheduleLinkedInPosts posts dates apiKey w).1.1
        = length (dispatchable postBody 0 posts)) /\
    (forall threads apiKey w,
        length (scheduleTwitterThreads threads dates apiKey w).1.1
        = length (dispatchable threadBody 0 threads)).
Proof.
  intros Hne.
  destruct (postDateAt_clamped dates i Hne) as (Hlt & d & Hd & Hlast).
  exists d. split; [done|]. split; [done|]. split; [done|]. split; [done|].
  split; [done|]. split; [|split; [|split]].
  - intros Hd' posts apiKey w slot text Hslot Hbody.
    destruct (scheduleLinkedInPosts_spec posts dates apiKey w Hne)
      as (rqs & Hout & Hsent & _ & _).
    destruct (dispatchable_lookup postBody posts 0 i slot text Hslot Hbody) as (k & Hk).
    apply list_elem_of_lookup_2 in Hk.
    destruct (dated_record _ _ _ _ _ _ _ _ _ _ _ _ _ Hout Hk Hd Hd')
      as (rq & o & ? & ? & ? & ? & ? & ?).
    exists rq, o. rewrite Hsent. repeat split; try done.
    apply elem_of_app. by right.
  - intros Hd' threads apiKey w slot text Hslot Hbody.
    destruct (scheduleTwitterThreads_spec threads dates apiKey w Hne)
      as (rqs & Hout & Hsent & _ & _).
    destruct (dispatchable_lookup threadBody threads 0 i slot text Hslot Hbody)
      as (k & Hk).
    apply list_elem_of_lookup_2 in Hk.
    destruct (dated_record _ _ _ _ _ _ _ _ _ _ _ _ _ Hout Hk Hd Hd')
      as (rq & o & ? & ? & ? & ? & ? & ?).
    exists rq, o. rewrite Hsent. repeat split; try done.
    apply elem_of_app. by right.
  - intros posts apiKey w.
    destruct (scheduleLinkedInPosts_spec posts dates apiKey w Hne)
      as (rqs & Hout & _).
    by destruct (outcomes_of_lookup _ _ _ _ _ Hout) as (_ & ? & _).
  - intros threads apiKey w.
    destruct (scheduleTwitterThreads_spec threads dates apiKey w Hne)
      as (rqs & Hout & _).
    by destruct (outcomes_of_lookup _ _ _ _ _ Hout) as (_ & ? & _).
Qed.

(** With two dates, position 4 is given the second one. *)
Lemma fallback_clamp_witness :
  sample_dates <> [] /\
  postDateAt 4 sample_dates = Some "2026-11-04T08:13:00.000Z" /\
  last sample_dates = Some "2026-11-04T08:13:00.000Z".
Proof.
  assert (Hne : sample_dates <> []) by done.
  split; [exact Hne|].
  destruct (@fallback_clamp utc sample_dates 4 Hne)
    as (d & _ & _ & Hd & _ & Hlast & _).
  split.
  - reflexivity.
  - rewrite Hlast; [|simpl; lia]. rewrite <- Hd. reflexivity.
Defined.

(** C7. A LinkedIn post whose content is missing or empty leaves no record
    under its position, and neither does a Twitter thread whose tweets are
    missing or empty: the records of a run are exactly those of the
    dispatched slots, so a skipped slot is not recorded as a failure either,
    and no request is sent for it. *)
Theorem empty_items_skipped `{D : DateFns} :
  (forall posts dates apiKey w i post,
      posts !! i = Some (Some post) ->
      content post = None \/ content post = Some "" ->
      forall o, o ∈ (scheduleLinkedInPosts posts dates apiKey w).1.1 ->
                postId o <> linkedInPostId i) /\
  (forall threads dates apiKey w i thread,
      threads !! i = Some (Some thread) ->
      tweets thread = None \/ tweets thread = Some [] ->
      forall o, o ∈ (scheduleTwitterThreads threads dates apiKey w).1.1 ->
                postId o <> twitterThreadId i) /\
  (forall posts dates apiKey w,
      dates <> [] ->
      map postId (scheduleLinkedInPosts posts dates apiKey w).1.1
      = map (fun item => linkedInPostId item.1) (dispatchable postBody 0 posts) /\
      length (w_sent (scheduleLinkedInPosts posts dates apiKey w).2)
      = (length (w_sent w) + length (dispatchable postBody 0 posts))%nat) /\
  (forall threads dates apiKey w,
      dates <> [] ->
      map postId (scheduleTwitterThreads threads dates apiKey w).1.1
      = map (fun item => twitterThreadId item.1) (dispatchable threadBody 0 threads) /\
      length (w_sent (scheduleTwitterThreads threads dates apiKey w).2)
      = (length (w_sent w) + length (dispatchable threadBody 0 threads))%nat).
Proof.
  split; [|split; [|split]].
  - intros posts dates apiKey w i post Hslot Hempty o Ho Hid.
    destruct dates as [|d0 dates']; [by apply elem_of_nil in Ho|].
    destruct (scheduleLinkedInPosts_spec posts (d0 :: dates') apiKey w)
      as (rqs & Hout & _); [done|].
    destruct (record_of_dispatched _ _ _ _ _ _ _ _ _ _ _ Hout Ho) as ([j text] & Hin & Hj).
    rewrite Hid in Hj. apply linkedInPostId_inj in Hj. simpl in Hj. subst j.
    destruct (dispatchable_positions _ _ _ _ _ Hin) as (slot & _ & Hs & Hb).
    rewrite Nat.sub_0_r, Hslot in Hs. injection Hs as <-.
    unfold postBody in Hb. by destruct Hempty as [E|E]; rewrite E in Hb.
  - intros threads dates apiKey w i thread Hslot Hempty o Ho Hid.
    destruct dates as [|d0 dates']; [by apply elem_of_nil in Ho|].
    destruct (scheduleTwitterThreads_spec threads (d0 :: dates') apiKey w)
      as (rqs & Hout & _); [done|].
    destruct (record_of_dispatched _ _ _ _ _ _ _ _ _ _ _ Hout Ho) as ([j text] & Hin & Hj).
    rewrite Hid in Hj. apply twitterThreadId_inj in Hj. simpl in Hj. subst j.
    destruct (dispatchable_positions _ _ _ _ _ Hin) as (slot & _ & Hs & Hb).
    rewrite Nat.sub_0_r, Hslot in Hs. injection Hs as <-.
    unfold threadBody in Hb. by destruct Hempty as [E|E]; rewrite E in Hb.
  - intros posts dates apiKey w Hne.
    destruct (scheduleLinkedInPosts_spec posts dates apiKey w Hne)
      as (rqs & Hout & Hsent & _).
    split; [by apply outcomes_of_ids in Hout|].
    rewrite Hsent, length_app.
    by destruct (outcomes_of_lookup _ _ _ _ _ Hout) as (-> & _).
  - intros threads dates apiKey w Hne.
    destruct (scheduleTwitterThreads_spec threads dates apiKey w Hne)
      as (rqs & Hout & Hsent & _).
    split; [by apply outcomes_of_ids in Hout|].
    rewrite Hsent, length_app.
    by destruct (outcomes_of_lookup _ _ _ _ _ Hout) as (-> & _).
Qed.

(** A post with empty content between two others, and a thread without
    tweets, leave no record. *)
Lemma empty_items_skipped_witness :
  map postId
    (@scheduleLinkedInPosts utc
       [Some (post_of "a"); Some (post_of ""); Some (post_of "c")]
       sample_dates "key" (quiet_world always_accepts ∅ None (Some "key"))).1.1
  = ["linkedin-post-0"; "linkedin-post-2"] /\
  (@scheduleTwitterThreads utc [Some (thread_of [])]
       sample_dates "key" (quiet_world always_accepts ∅ None (Some "key"))).1.1
  = [].
Proof.
  destruct (@empty_items_skipped utc) as (_ & _ & HL & HT).
  split.
  - destruct (HL [Some (post_of "a"); Some (post_of ""); Some (post_of "c")]
                sample_dates "key" (quiet_world always_accepts ∅ None (Some "key")))
      as [-> _]; [done|reflexivity].
  - destruct (HT [Some (thread_of [])]
                sample_dates "key" (quiet_world always_accepts ∅ None (Some "key")))
      as [Hids _]; [done|].
    by destruct (_.1.1).
Defined.

(** ** The shared day counter *)

Section Days.
Context `{D : DateFns}.

Lemma dateLoop_spec scheduledDate n : forall j,
  dateLoop scheduledDate n j
  = (map (fun k => incrementDateByDays scheduledDate (Z.of_nat k)) (seq j n),
     (j + n)%nat).
Proof.
  induction n as [|n IH]; intros j; simpl.
  - by rewrite Nat.add_0_r.
  - rewrite IH. by rewrite Nat.add_succ_comm.
Qed.

(** [scheduleContent] on a campaign with content: the dates of the threads go
    on from the counter the posts left.  A channel without items is handed
    no dates and its scheduler returns at once, as if it had been skipped. *)
Lemma scheduleContent_spec campaign cc scheduledDate info apiKey w :
  campaign_content campaign = Some cc ->
  let day k := incrementDateByDays scheduledDate (Z.of_nat k) in
  let nL := length (linkedInPosts cc) in
  let nT := length (twitterThreads cc) in
  let rL := scheduleLinkedInPosts (linkedInPosts cc) (map day (seq 0 nL)) apiKey w in
  let rT := scheduleTwitterThreads (twitterThreads cc) (map day (seq nL nT))
              apiKey rL.2 in
  scheduleContent campaign scheduledDate info apiKey w
  = ((mkInfo (typefullyScheduleId info) (scheduledPosts info ++ rL.1.1 ++ rT.1.1),
      set_content campaign (Some (mkContent rL.1.2 rT.1.2))), rT.2).
Proof.
  intros Hc day nL nT rL rT. unfold scheduleContent. rewrite Hc.
  subst rL rT nL nT.
  destruct (linkedInPosts cc) as [|p ps] eqn:EL.
  - destruct (twitterThreads cc) as [|t ts] eqn:ET; [done|].
    cbv beta iota zeta. rewrite dateLoop_spec. fold day. cbn [fst snd length].
    assert (E0 : scheduleLinkedInPosts [] [] apiKey w = (([], []), w)) by reflexivity.
    cbn [map seq length]. rewrite !E0. cbn [fst snd].
    by destruct (scheduleTwitterThreads (t :: ts) _ apiKey w) as [[outT threadsT] w2].
  - rewrite dateLoop_spec. fold day.
    destruct (scheduleLinkedInPosts (p :: ps) (map day (seq 0 (length (p :: ps)))) apiKey w)
      as [[outL postsL] w1].
    cbv beta iota zeta. cbn [fst snd].
    destruct (twitterThreads cc) as [|t ts] eqn:ET; [done|].
    rewrite dateLoop_spec. fold day.
    change (0 + length (p :: ps))%nat with (length (p :: ps)).
    by destruct (scheduleTwitterThreads (t :: ts) _ apiKey w1) as [[outT threadsT] w2].
Qed.

Context (laws : DateLaws D).

Lemma format_inj a b :
  common_era (a + tz_offset) -> common_era (b + tz_offset) ->
  format a = format b -> a = b.
Proof.
  intros Ha Hb E.
  pose proof (parse_format D laws a Ha) as Pa.
  pose proof (parse_format D laws b Hb) as Pb.
  rewrite E, Pb in Pa. injection Pa. lia.
Qed.

Lemma incrementDateByDays_format t k :
  common_era (t + tz_offset) ->
  Z.abs (t + tz_offset + k * MS_PER_DAY) <= 8640000000000000 ->
  incrementDateByDays (format t) k = format (t + tz_offset + k * MS_PER_DAY).
Proof.
  intros Ht Hk. unfold incrementDateByDays, addDays, timeClip.
  rewrite (parse_format D laws t Ht).
  destruct (Z.leb_spec (Z.abs (t + tz_offset + k * MS_PER_DAY)) 8640000000000000);
    [done|lia].
Qed.

End Days.

Lemma outcomes_pairs remote mkId plat thr dates apiKey n items rqs os :
  outcomes_of (item_outcome remote mkId plat thr dates apiKey) n items rqs os ->
  Forall (fun item => exists d, postDateAt item.1 dates = Some d /\ d <> "") items ->
  map (fun o => (postId o, scheduledDate o)) os
  = map (fun item => (mkId item.1, default "" (postDateAt item.1 dates))) items.
Proof.
  induction 1 as [|n item items rq rqs o os HP _ IH]; [done|].
  intros Hall. apply Forall_cons in Hall as [(d & Hd & Hne) Hall].
  simpl. rewrite (IH Hall). f_equal.
  destruct HP as (_ & _ & _ & _ & Hid & Hdate & _).
  destruct (Hdate d Hd Hne) as [-> _]. by rewrite Hid, Hd.
Qed.

Lemma postDateAt_map (day : nat -> string) start n i :
  (i < n)%nat -> postDateAt i (map day (seq start n)) = Some (day (start + i)%nat).
Proof.
  intros Hi. unfold postDateAt, dateIndex.
  rewrite length_map, length_seq, Nat.min_l by lia.
  rewrite list_lookup_fmap, lookup_seq_lt by done. done.
Qed.

(** C2. On a campaign with posts and threads, scheduled from the timestamp
    [format t], one counter runs through both channels: the posts are handed
    the days 0 to nL-1 after the instant read from that timestamp, the
    threads the days from nL on, no day is handed out twice, and the merged
    records are those of the posts in position order followed by those of
    the threads in position order.  With two posts and one thread the
    records are post 0, post 1, thread 0 on three consecutive days. *)
Theorem shared_day_counter `{D : DateFns} (laws : DateLaws D)
    campaign cc t info apiKey w :
  campaign_content campaign = Some cc ->
  linkedInPosts cc <> [] -> twitterThreads cc <> [] ->
  let nL := length (linkedInPosts cc) in
  let nT := length (twitterThreads cc) in
  common_era (t + tz_offset) ->
  common_era (t + 2 * tz_offset) ->
  common_era (t + 2 * tz_offset + Z.of_nat (nL + nT) * MS_PER_DAY) ->
  let day k := format (t + tz_offset + Z.of_nat k * MS_PER_DAY) in
  let rL := scheduleLinkedInPosts (linkedInPosts cc) (map day (seq 0 nL)) apiKey w in
  let rT := scheduleTwitterThreads (twitterThreads cc) (map day (seq nL nT))
              apiKey rL.2 in
  scheduleContent campaign (format t) info apiKey w
  = ((mkInfo (typefullyScheduleId info) (scheduledPosts info ++ rL.1.1 ++ rT.1.1),
      set_content campaign (Some (mkContent rL.1.2 rT.1.2))), rT.2) /\
  (forall i, (i < nL)%nat -> postDateAt i (map day (seq 0 nL)) = Some (day i)) /\
  (forall j, (j < nT)%nat ->
     postDateAt j (map day (seq nL nT)) = Some (day (nL + j)%nat)) /\
  NoDup (map day (seq 0 nL) ++ map day (seq nL nT)) /\
  map postId (rL.1.1 ++ rT.1.1)
  = map (fun item => linkedInPostId item.1)
        (dispatchable postBody 0 (linkedInPosts cc))
    ++ map (fun item => twitterThreadId item.1)
        (dispatchable threadBody 0 (twitterThreads cc)) /\
  (forall p0 p1 th,
     linkedInPosts cc = [Some p0; Some p1] ->
     twitterThreads cc = [Some th] ->
     truthy_opt (content p0) = true ->
     truthy_opt (content p1) = true ->
     (exists tw tws, tweets th = Some (tw :: tws)) ->
     map (fun o => (postId o, scheduledDate o)) (rL.1.1 ++ rT.1.1)
     = [("linkedin-post-0", day 0%nat); ("linkedin-post-1", day 1%nat);
        ("twitter-thread-0", day 2%nat)]).
Proof.
  intros Hc HL HT nL nT H1 H2 H3 day rL rT.
  assert (HnL : (0 < nL)%nat) by (subst nL; destruct (linkedInPosts cc); [done|simpl; lia]).
  assert (HnT : (0 < nT)%nat) by (subst nT; destruct (twitterThreads cc); [done|simpl; lia]).
  assert (Hday : forall k, (k <= nL + nT)%nat ->
            incrementDateByDays (format t) (Z.of_nat k) = day k).
  { intros k Hk. apply incrementDateByDays_format; [done..|].
    unfold common_era, CE_MIN, CE_MAX, MS_PER_DAY in *. lia. }
  assert (HdatesL : map (fun k => incrementDateByDays (format t) (Z.of_nat k)) (seq 0 nL)
                    = map day (seq 0 nL)).
  { apply map_ext_in. intros k Hk. apply in_seq in Hk. apply Hday. lia. }
  assert (HdatesT : map (fun k => incrementDateByDays (format t) (Z.of_nat k)) (seq nL nT)
                    = map day (seq nL nT)).
  { apply map_ext_in. intros k Hk. apply in_seq in Hk. apply Hday. lia. }
  assert (HneL : map day (seq 0 nL) <> []).
  { destruct nL; [lia|done]. }
  assert (HneT : map day (seq nL nT) <> []).
  { destruct nT; [lia|done]. }
  destruct (scheduleLinkedInPosts_spec (linkedInPosts cc) _ apiKey w HneL)
    as (rqsL & HoutL & _).
  destruct (scheduleTwitterThreads_spec (twitterThreads cc) _ apiKey rL.2 HneT)
    as (rqsT & HoutT & _).
  fold rL in HoutL. fold rT in HoutT.
  split; [|split; [|split; [|split; [|split]]]].
  - pose proof (scheduleContent_spec campaign cc (format t) info apiKey w Hc) as E.
    cbv zeta in E. fold nL nT in E. rewrite HdatesL, HdatesT in E. exact E.
  - intros i Hi. by rewrite postDateAt_map.
  - intros j Hj. by rewrite postDateAt_map.
  - rewrite <- map_app, <- seq_app. apply NoDup_fmap_2_strong; [|apply NoDup_seq].
    intros a b Ha Hb E.
    apply elem_of_seq in Ha. apply elem_of_seq in Hb.
    apply (format_inj laws) in E;
      unfold common_era, CE_MIN, CE_MAX, MS_PER_DAY in *; lia.
  - rewrite map_app. f_equal; by eapply outcomes_of_ids.
  - intros p0 p1 th EL ET T0 T1 (tw & tws & Eth).
    destruct (postBody_truthy _ T0) as (t0 & B0 & _).
    destruct (postBody_truthy _ T1) as (t1 & B1 & _).
    assert (EnL : nL = 2%nat) by (subst nL; by rewrite EL).
    assert (EnT : nT = 1%nat) by (subst nT; by rewrite ET).
    rewrite EL in HoutL. rewrite ET in HoutT.
    cbn [dispatchable] in HoutL, HoutT. rewrite B0, B1 in HoutL.
    unfold threadBody in HoutT. rewrite Eth in HoutT.
    rewrite map_app.
    rewrite (outcomes_pairs _ _ _ _ _ _ _ _ _ _ HoutL),
            (outcomes_pairs _ _ _ _ _ _ _ _ _ _ HoutT).
    + rewrite EnL, EnT. reflexivity.
    + repeat constructor. exists (day 2%nat). rewrite EnL, EnT.
      split; [reflexivity|apply (format_nonempty D laws)].
    + rewrite EnL. repeat constructor.
      * exists (day 0%nat). split; [reflexivity|apply (format_nonempty D laws)].
      * exists (day 1%nat). split; [reflexivity|apply (format_nonempty D laws)].
Qed.

(** ** The reference date primitives *)

Lemma all_from_spec P n : forall z,
  all_from n z P = true -> forall i, z <= i < z + Z.of_nat n -> P i = true.
Proof.
  induction n as [|n IH]; intros z H i Hi; [lia|].
  simpl in H. apply andb_true_iff in H as [Hz Hrest].
  destruct (Z.eq_dec i z) as [->|Hne]; [done|].
  apply (IH (z + 1)); [done|lia].
Qed.

Lemma doy_checked : all_from 366 0 doy_ok = true.
Proof. vm_compute. reflexivity. Qed.

Lemma doy_facts doy :
  0 <= doy <= 365 ->
  let m := Iso.month_of doy in
  let d := Iso.day_of doy in
  1 <= m <= 12 /\ 1 <= d /\
  (d <= Iso.days_in_month 1 m \/ (doy = 365 /\ m = 2 /\ d = 29)).
Proof.
  intros H m d.
  pose proof (all_from_spec _ _ _ doy_checked doy) as C.
  unfold doy_ok in C. fold m d in C.
  rewrite !andb_true_iff, orb_true_iff, !andb_true_iff in C.
  rewrite !Z.leb_le, !Z.eqb_eq in C.
  destruct C as [[[? ?] ?] ?]; [simpl; lia|]. lia.
Qed.

Lemma era_start_year y :
  Iso.era_start (y + 1) - Iso.era_start y = if Iso.is_leap (y + 1) then 366 else 365.
Proof.
  unfold Iso.era_start, Iso.is_leap.
  destruct (Z.eqb_spec ((y + 1) mod 4) 0), (Z.eqb_spec ((y + 1) mod 100) 0),
           (Z.eqb_spec ((y + 1) mod 400) 0); simpl;
    Z.div_mod_to_equations; lia.
Qed.

Lemma year_of_era_spec doe :
  0 <= doe < 146097 ->
  0 <= Iso.year_of_era doe <= 399 /\
  Iso.era_start (Iso.year_of_era doe) <= doe < Iso.era_start (Iso.year_of_era doe + 1).
Proof.
  intros H. unfold Iso.year_of_era.
  set (y := Z.min (doe / 365) 399).
  assert (Hq : 365 * (doe / 365) <= doe < 365 * (doe / 365 + 1))
    by (Z.div_mod_to_equations; lia).
  assert (Hy : 0 <= y <= 399 /\ 365 * y <= doe /\ (y = 399 \/ doe < 365 * (y + 1))).
  { subst y. destruct (Z.min_spec (doe / 365) 399) as [[? ->]|[? ->]]. all: lia. }
  destruct Hy as (Hy & Hlow & Hup). clearbody y. clear Hq.
  destruct (Z.leb_spec (Iso.era_start y) doe) as [Hle|Hgt].
  - split; [lia|]. split; [done|].
    unfold Iso.era_start in *. Z.div_mod_to_equations; lia.
  - assert (y <> 0) by (intros ->; unfold Iso.era_start in Hgt; Z.div_mod_to_equations; lia).
    replace (y - 1 + 1) with y by lia.
    split; [lia|]. split; [|done].
    unfold Iso.era_start in *. Z.div_mod_to_equations; lia.
Qed.

Lemma is_leap_shift y e : Iso.is_leap (y + e * 400) = Iso.is_leap y.
Proof.
  unfold Iso.is_leap.
  replace ((y + e * 400) mod 4) with (y mod 4)
    by (Z.div_mod_to_equations; lia).
  replace ((y + e * 400) mod 100) with (y mod 100)
    by (Z.div_mod_to_equations; lia).
  replace ((y + e * 400) mod 400) with (y mod 400)
    by (Z.div_mod_to_equations; lia).
  reflexivity.
Qed.

Lemma days_in_month_shift y e m :
  Iso.days_in_month (y + e * 400) m = Iso.days_in_month y m.
Proof. unfold Iso.days_in_month. by rewrite is_leap_shift. Qed.

Lemma days_in_month_common y m :
  Iso.days_in_month 1 m <= Iso.days_in_month y m /\
  (Iso.is_leap y = true -> Iso.days_in_month y 2 = 29).
Proof.
  unfold Iso.days_in_month.
  split.
  - destruct (m =? 2); [|lia]. change (Iso.is_leap 1) with false.
    destruct (Iso.is_leap y); lia.
  - by intros ->.
Qed.

Lemma civil_ok z :
  -719162 <= z <= 2932896 ->
  exists Y m d,
    Iso.civil_from_days z = (Y, m, d) /\
    1 <= Y <= 9999 /\ 1 <= m <= 12 /\ 1 <= d <= Iso.days_in_month Y m /\
    Iso.days_from_civil Y m d = z.
Proof.
  intros Hz. unfold Iso.civil_from_days.
  set (z' := z + 719468).
  set (era := z' / 146097). set (doe := z' mod 146097).
  assert (Hdoe : 0 <= doe < 146097) by (subst doe; apply Z.mod_pos_bound; lia).
  assert (Hz' : z' = era * 146097 + doe).
  { subst era doe. rewrite Z.mul_comm. apply Z.div_mod. lia. }
  assert (Hera : 0 <= era <= 24) by (subst z'; lia).
  destruct (year_of_era_spec doe Hdoe) as (Hyoe & Hstart).
  unfold Iso.day_of_year.
  set (yoe := Iso.year_of_era doe) in *.
  set (doy := doe - Iso.era_start yoe).
  pose proof (era_start_year yoe) as Hlen.
  assert (Hdoy : 0 <= doy <= 365) by (subst doy; destruct (Iso.is_leap (yoe + 1)); lia).
  destruct (doy_facts doy Hdoy) as (Hm & Hd & Hdim).
  set (m := Iso.month_of doy) in *. set (d := Iso.day_of doy) in *.
  assert (Hmp : (if 2 <? m then m - 3 else m + 9) = (5 * doy + 2) / 153
                /\ (m <= 2 <-> 306 <= doy)).
  { subst m. unfold Iso.month_of.
    destruct (Z.ltb_spec ((5 * doy + 2) / 153) 10);
      [destruct (Z.ltb_spec 2 ((5 * doy + 2) / 153 + 3))
      |destruct (Z.ltb_spec 2 ((5 * doy + 2) / 153 - 9))];
      Z.div_mod_to_equations; lia. }
  destruct Hmp as [Hmp Hjan].
  eexists _, m, d. split; [reflexivity|].
  assert (HY : (if m <=? 2 then yoe + era * 400 + 1 else yoe + era * 400)
               = (if m <=? 2 then yoe + 1 else yoe) + era * 400)
    by (destruct (m <=? 2); lia).
  rewrite HY. rewrite days_in_month_shift.
  split; [|split; [done|split]].
  - destruct (Z.leb_spec m 2); unfold Iso.era_start in *; subst doy z';
      Z.div_mod_to_equations; lia.
  - split; [done|].
    destruct Hdim as [Hdim|(E365 & Em & Ed)].
    + pose proof (days_in_month_common (if m <=? 2 then yoe + 1 else yoe) m). lia.
    + rewrite Em, Ed. change (2 <=? 2) with true.
      destruct (Iso.is_leap (yoe + 1)) eqn:El; [|lia].
      rewrite (proj2 (days_in_month_common (yoe + 1) 2) El). lia.
  - unfold Iso.days_from_civil.
    replace (if m <=? 2 then (if m <=? 2 then yoe + 1 else yoe) + era * 400 - 1
             else (if m <=? 2 then yoe + 1 else yoe) + era * 400)
      with (yoe + era * 400) by (destruct (m <=? 2); lia).
    replace ((yoe + era * 400) / 400) with era by (Z.div_mod_to_equations; lia).
    replace ((yoe + era * 400) mod 400) with yoe by (Z.div_mod_to_equations; lia).
    rewrite Hmp. subst d. unfold Iso.day_of. subst doy z'. lia.
Qed.

Lemma dval_digit k : 0 <= k <= 9 -> Iso.dval (Iso.digit k) = Some k.
Proof.
  intros H.
  assert (k = 0 \/ k = 1 \/ k = 2 \/ k = 3 \/ k = 4 \/ k = 5 \/ k = 6 \/ k = 7
          \/ k = 8 \/ k = 9) as Hk by lia.
  repeat (destruct Hk as [->|Hk]; [reflexivity|]). by subst k.
Qed.

Lemma num2_pad n :
  0 <= n <= 99 ->
  Iso.num2 (Iso.digit (n / 10 mod 10)) (Iso.digit (n mod 10)) = Some n.
Proof.
  intros H. unfold Iso.num2.
  rewrite !dval_digit by (Z.div_mod_to_equations; lia). simpl.
  f_equal. Z.div_mod_to_equations; lia.
Qed.

Lemma num3_pad n :
  0 <= n <= 999 ->
  Iso.num3 (Iso.digit (n / 100 mod 10)) (Iso.digit (n / 10 mod 10))
           (Iso.digit (n mod 10)) = Some n.
Proof.
  intros H. unfold Iso.num3, Iso.num2.
  rewrite !dval_digit by (Z.div_mod_to_equations; lia). simpl.
  f_equal. Z.div_mod_to_equations; lia.
Qed.

Lemma num4_pad n :
  0 <= n <= 9999 ->
  Iso.num4 (Iso.digit (n / 1000 mod 10)) (Iso.digit (n / 100 mod 10))
           (Iso.digit (n / 10 mod 10)) (Iso.digit (n mod 10)) = Some n.
Proof.
  intros H. unfold Iso.num4, Iso.num3, Iso.num2.
  rewrite !dval_digit by (Z.div_mod_to_equations; lia). simpl.
  f_equal. Z.div_mod_to_equations; lia.
Qed.

Lemma days_in_month_le y m : Iso.days_in_month y m <= 31.
Proof.
  unfold Iso.days_in_month.
  destruct (m =? 2); [destruct (Iso.is_leap y); lia|].
  destruct (_ || _); lia.
Qed.

Lemma read_render w : common_era w -> Iso.read (Iso.render w) = Some w.
Proof.
  unfold common_era, CE_MIN, CE_MAX. intros Hw. unfold Iso.render.
  assert (Hday : -719162 <= w / MS_PER_DAY <= 2932896)
    by (unfold MS_PER_DAY; Z.div_mod_to_equations; lia).
  destruct (civil_ok _ Hday) as (Y & m & d & -> & HY & Hm & Hd & Hback).
  pose proof (days_in_month_le Y m) as Hdim.
  set (r := w mod MS_PER_DAY).
  assert (Hr : 0 <= r < 86400000) by (subst r; apply Z.mod_pos_bound; done).
  assert (Hw' : w = w / MS_PER_DAY * MS_PER_DAY + r).
  { subst r. rewrite Z.mul_comm. apply Z.div_mod. done. }
  unfold Iso.pad4, Iso.pad3, Iso.pad2.
  cbv beta iota zeta delta [Iso.read Ascii.eqb Bool.eqb andb].
  rewrite (num4_pad Y) by lia.
  rewrite (num2_pad m), (num2_pad d) by lia.
  rewrite (num2_pad (r / 3600000)) by (Z.div_mod_to_equations; lia).
  rewrite (num2_pad (r / 60000 mod 60)) by (Z.div_mod_to_equations; lia).
  rewrite (num2_pad (r / 1000 mod 60)) by (Z.div_mod_to_equations; lia).
  rewrite (num3_pad (r mod 1000)) by (Z.div_mod_to_equations; lia).
  cbn [mbind option_bind].
  replace (1 <=? m) with true by (symmetry; apply Z.leb_le; lia).
  replace (m <=? 12) with true by (symmetry; apply Z.leb_le; lia).
  replace (1 <=? d) with true by (symmetry; apply Z.leb_le; lia).
  replace (d <=? Iso.days_in_month Y m) with true by (symmetry; apply Z.leb_le; lia).
  replace (r / 3600000 <=? 23) with true
    by (symmetry; apply Z.leb_le; Z.div_mod_to_equations; lia).
  replace (r / 60000 mod 60 <=? 59) with true
    by (symmetry; apply Z.leb_le; Z.div_mod_to_equations; lia).
  replace (r / 1000 mod 60 <=? 59) with true
    by (symmetry; apply Z.leb_le; Z.div_mod_to_equations; lia).
  cbn [andb]. rewrite Hback.
  replace (w / MS_PER_DAY * MS_PER_DAY + r / 3600000 * 3600000
           + r / 60000 mod 60 * 60000 + r / 1000 mod 60 * 1000 + r mod 1000)
    with w.
  2:{ assert (Hsplit : r = r / 3600000 * 3600000 + r / 60000 mod 60 * 60000
                          + r / 1000 mod 60 * 1000 + r mod 1000)
        by (clear -Hr; Z.div_mod_to_equations; lia).
      set (q := w / MS_PER_DAY * MS_PER_DAY) in *. lia. }
  unfold timeClip.
  destruct (Z.leb_spec (Z.abs w) 8640000000000000); [done|lia].
Qed.

Lemma render_nonempty w : Iso.render w <> "".
Proof. unfold Iso.render. by destruct (Iso.civil_from_days _) as [[y m] d]. Qed.

Lemma runtime_laws tz : DateLaws (Iso.runtime tz).
Proof.
  split.
  - intros t. apply render_nonempty.
  - intros t Ht. exact (read_render _ Ht).
Qed.

Lemma with_matcher_laws D : DateLaws D -> DateLaws (with_matcher D).
Proof. intros [H1 H2]. split; [exact H1|exact H2]. Qed.

Lemma utc_laws : DateLaws utc.
Proof. apply with_matcher_laws, runtime_laws. Qed.

(** The later revision of [getValidDate] is the earlier one run with the
    repository's matcher. *)
Lemma Rel_getValidDate D hint ef :
  @Rel.getValidDate D hint ef = @getValidDate (with_matcher D) hint ef.
Proof. reflexivity. Qed.

(** ** The store *)

Lemma kv_call_ok {A} (op : World -> A * World) w :
  w_kv_fault w (w_kv_calls w) = false ->
  kv_call op w = (Val (op w).1, kv_called (op w).2).
Proof. intros H. unfold kv_call. rewrite H. by destruct (op w). Qed.

Lemma kv_call_fault {A} (op : World -> A * World) w :
  w_kv_fault w (w_kv_calls w) = true ->
  kv_call op w = (Exn "kv: request failed", kv_called w).
Proof. intros H. unfold kv_call. by rewrite H. Qed.

Lemma kv_call_eq {A} (op : World -> A * World) w :
  kv_call op w = if fault_now w then (Exn "kv: request failed", kv_called w)
                 else (Val (op w).1, kv_called (op w).2).
Proof. unfold kv_call, fault_now. destruct (w_kv_fault w _); [done|]. by destruct (op w). Qed.

Lemma isValidId_trim id : isValidId id = truthy (trim id).
Proof. unfold isValidId. by destruct id. Qed.

Lemma called_0 w : called 0 w = w.
Proof. by destruct w. Qed.

Lemma kv_called_called w : kv_called w = called 1 w.
Proof. by destruct w. Qed.

Lemma called_called n m w : called n (called m w) = called (n + m) w.
Proof. unfold called. cbn. f_equal. lia. Qed.

(** [getCampaign] makes one call to the store on a valid id and returns
    [null] whatever the store answers: an absent record gives [undefined],
    a stored one makes the call of [json] throw, and so does a failing
    store. *)
Lemma getCampaign_null cid w :
  getCampaign cid w = (Val None, if isValidId cid then kv_called w else w).
Proof.
  unfold getCampaign. destruct (isValidId cid); [|done]. cbn [negb].
  unfold try_catch, bind, kv_get_campaign. rewrite kv_call_eq.
  destruct (fault_now w); [done|]. cbn [fst snd].
  by destruct (w_campaigns w !! cid).
Qed.

(** [getCampaignIndex] returns the empty list whatever the index holds, and
    throws when the store fails. *)
Lemma getCampaignIndex_eq w :
  getCampaignIndex w
  = (if fault_now w then Exn "kv: request failed" else Val [], kv_called w).
Proof.
  unfold getCampaignIndex, bind, kv_get_index. rewrite kv_call_eq.
  by destruct (fault_now w).
Qed.

(** A save under any pattern of failures: three store calls, each of which
    may fail; the index it writes holds the id of the campaign alone. *)
Lemma saveCampaign_eq campaign w :
  saveCampaign campaign w
  = if negb (isValidId (id campaign)) then (Val false, w)
    else if fault_now w then (Val false, kv_called w)
    else
      let w1 := kv_called (with_campaigns (<[id campaign := campaign]> (w_campaigns w)) w) in
      if fault_now w1 then (Val false, kv_called w1)
      else
        let w2 := kv_called w1 in
        if fault_now w2 then (Val false, kv_called w2)
        else (Val true, kv_called (with_index (Some [id campaign]) w2)).
Proof.
  unfold saveCampaign. destruct (isValidId (id campaign)) eqn:Hid; [|done].
  cbn [negb]. unfold try_catch, bind at 1. unfold kv_set_campaign. rewrite kv_call_eq.
  destruct (fault_now w); [done|]. cbn [fst snd].
  set (w1 := kv_called (with_campaigns _ w)). cbn zeta.
  unfold bind, updateCampaignIndex. rewrite Hid. cbn [negb].
  unfold bind. rewrite getCampaignIndex_eq.
  destruct (fault_now w1); [done|]. cbn [includes existsb negb app].
  unfold kv_set_index. rewrite kv_call_eq.
  by destruct (fault_now (kv_called w1)).
Qed.

Lemma fault_now_quiet w : no_faults w -> fault_now w = false.
Proof. intros H. apply H. Qed.

Lemma saveCampaign_run campaign w :
  no_faults w -> isValidId (id campaign) = true ->
  saveCampaign campaign w = (Val true, save_world campaign w).
Proof.
  intros Hnf Hid. rewrite saveCampaign_eq, Hid. cbn [negb].
  rewrite (fault_now_quiet w Hnf). cbn zeta.
  unfold fault_now. cbn [w_kv_fault w_kv_calls kv_called with_campaigns].
  by rewrite !Hnf.
Qed.

Lemma save_world_frame campaign w :
  w_campaigns (save_world campaign w) = <[id campaign := campaign]> (w_campaigns w)
  /\ w_index (save_world campaign w) = Some [id campaign]
  /\ w_clock (save_world campaign w) = w_clock w
  /\ w_ticks (save_world campaign w) = w_ticks w
  /\ w_remote (save_world campaign w) = w_remote w
  /\ w_sent (save_world campaign w) = w_sent w
  /\ w_kv_fault (save_world campaign w) = w_kv_fault w
  /\ w_api_key (save_world campaign w) = w_api_key w.
Proof. done. Qed.

Lemma no_faults_same w w' : w_kv_fault w' = w_kv_fault w -> no_faults w -> no_faults w'.
Proof. intros E H n. by rewrite E. Qed.

Section HandlerFacts.
Context `{D : DateFns}.

(** As [getCampaign] returns [null], a status update returns [null] and
    writes nothing. *)
Lemma updateCampaignStatus_null campaignId st w :
  updateCampaignStatus campaignId st w
  = (Val None, if isValidId campaignId then kv_called w else w).
Proof. unfold updateCampaignStatus, bind. by rewrite getCampaign_null. Qed.

Lemma scheduleContent_frame campaign sdate info apiKey w :
  same_store w (scheduleContent campaign sdate info apiKey w).2 /\
  id (scheduleContent campaign sdate info apiKey w).1.2 = id campaign.
Proof.
  destruct (campaign_content campaign) as [cc|] eqn:Hc.
  - rewrite (scheduleContent_spec campaign cc sdate info apiKey w Hc). cbn [fst snd].
    split; [|done].
    set (day := fun k => incrementDateByDays sdate (Z.of_nat k)).
    set (datesL := map day (seq 0 (length (linkedInPosts cc)))).
    set (datesT := map day _).
    set (rL := scheduleLinkedInPosts (linkedInPosts cc) datesL apiKey w).
    assert (HL : same_store w rL.2).
    { destruct datesL as [|d0 ds] eqn:E; [apply same_store_refl|].
      by destruct (scheduleLinkedInPosts_spec (linkedInPosts cc) (d0 :: ds) apiKey w)
        as (rqs & _ & _ & ? & _). }
    eapply same_store_trans; [exact HL|].
    destruct datesT as [|d0 ds] eqn:E; [apply same_store_refl|].
    by destruct (scheduleTwitterThreads_spec (twitterThreads cc) (d0 :: ds) apiKey rL.2)
      as (rqs & _ & _ & ? & _).
  - unfold scheduleContent. rewrite Hc. split; [apply same_store_refl|done].
Qed.

(** Every run of the scheduler agent: with a blank id it answers at once,
    and otherwise it asks [getCampaign] for the campaign, is given [null],
    and answers that the campaign was not found. *)
Lemma handler_eq input w :
  handler input w
  = if truthy (trim (rq_campaignId input))
    then (Val (OutError ("Campaign not found with ID: " +:+ rq_campaignId input)),
          kv_called w)
    else (Val (OutError "Campaign ID is required"), w).
Proof.
  unfold handler, try_catch. cbn zeta.
  destruct (truthy (trim (rq_campaignId input))) eqn:Hid; [|done]. cbn [negb].
  unfold bind. rewrite getCampaign_null, isValidId_trim, Hid. done.
Qed.

End HandlerFacts.

(** ** End to end *)

(** C1. The campaign "c1" is stored with one LinkedIn post "A" as its
    content, the hint is "tomorrow", an API key is set and the service
    accepts every draft under the id "d1".  The route [GET /:id] replies
    with the stored campaign, but [getCampaign] returns [null] for it, so
    the agent answers that the campaign was not found, after one call to
    the store: no request is sent and the campaign stays as it was, without
    scheduling information and with the status it had. *)
Theorem end_to_end_not_found `{D : DateFns} :
  let w := sample_world d1_service in
  w_campaigns w !! "c1" = Some sample_campaign /\
  (router_get "c1" w).1 = Val (ItemOk sample_campaign) /\
  (getCampaign "c1" w).1 = Val None /\
  handler sample_request w
  = (Val (OutError "Campaign not found with ID: c1"), kv_called w) /\
  w_sent (handler sample_request w).2 = [] /\
  w_campaigns (handler sample_request w).2 !! "c1" = Some sample_campaign /\
  schedulingInfo sample_campaign = None /\ campaign_status sample_campaign = writing.
Proof.
  cbn zeta. split; [reflexivity|]. split; [reflexivity|].
  split; [by rewrite getCampaign_null|].
  rewrite handler_eq. by repeat split.
Qed.

(** Two posts and a thread scheduled from 2026-11-03 08:13 UTC. *)
Lemma shared_day_counter_witness :
  map (fun o => (postId o, scheduledDate o))
    (scheduledPosts
       (@scheduleContent utc mixed_campaign (@format utc (sample_now + MS_PER_DAY))
          (mkInfo None []) "key" (quiet_world always_accepts ∅ None (Some "key"))).1.1)
  = [("linkedin-post-0", "2026-11-03T08:13:00.000Z");
     ("linkedin-post-1", "2026-11-04T08:13:00.000Z");
     ("twitter-thread-0", "2026-11-05T08:13:00.000Z")].
Proof.
  assert (Hera : forall k, common_era (sample_now + MS_PER_DAY + k)
                           \/ ~ (0 <= k <= 10 * MS_PER_DAY)).
  { intros k. unfold common_era, CE_MIN, CE_MAX, sample_now, MS_PER_DAY. lia. }
  destruct (@shared_day_counter utc utc_laws mixed_campaign mixed_content
              (sample_now + MS_PER_DAY) (mkInfo None []) "key"
              (quiet_world always_accepts ∅ None (Some "key")))
    as (Hrun & _ & _ & _ & _ & Hex).
  - reflexivity.
  - discriminate.
  - discriminate.
  - destruct (Hera 0) as [H|H]; [exact H|]. exfalso. apply H. unfold MS_PER_DAY. lia.
  - destruct (Hera 0) as [H|H]; [exact H|]. exfalso. apply H. unfold MS_PER_DAY. lia.
  - destruct (Hera (3 * MS_PER_DAY)) as [H|H]; [exact H|].
    exfalso. apply H. unfold MS_PER_DAY. lia.
  - rewrite Hrun. cbn [fst snd scheduledPosts app].
    rewrite (Hex (post_of "first") (post_of "second") (thread_of ["one"; "two"]));
      try reflexivity.
    by eexists _, _.
Defined.

(** ** A run against a service that refuses *)

(** C4. On the stored campaign "c1" with the single post "A" and a service
    that refuses every draft, the agent sends no request at all: it answers
    that the campaign was not found, after one call to the store, and the
    stored campaign is left without scheduling information.  The count of
    scheduled posts is never computed. *)
Theorem failing_run_not_found `{D : DateFns} :
  let w := sample_world always_refuses in
  w_campaigns w !! "c1" = Some sample_campaign /\
  w_api_key w = Some "key" /\
  handler sample_request w
  = (Val (OutError "Campaign not found with ID: c1"), kv_called w) /\
  w_sent (handler sample_request w).2 = [] /\
  (w_campaigns (handler sample_request w).2 !! "c1" ≫= schedulingInfo) = None.
Proof.
  cbn zeta. split; [reflexivity|]. split; [reflexivity|].
  rewrite handler_eq. by repeat split.
Qed.

(** ** Rejection of past dates *)

(** C6, as amended.  [getValidDate] reads the clock three times: [t0] for the
    default, [t1] for the parser, [t2] for [isPast].  A hint that is absent
    or empty, that resolves to no valid date, or that resolves to a date
    strictly before [t2], yields the default [t0] + 7 days, which is also the
    result without a hint; a hint that resolves to [t2] itself or to a later
    date is kept. *)
Theorem past_date_rejection `{D : DateFns} (hint : option string) w :
  let t0 := w_clock w (w_ticks w) in
  let t1 := w_clock w (w_ticks w + 1) in
  let t2 := w_clock w (w_ticks w + 2) in
  let resolved s :=
    match parseHumanRelative s t1 with
    | Some d => d
    | None => Date_parse s
    end in
  (hint = None \/ hint = Some "" \/
   exists s, hint = Some s /\
             (resolved s = None \/ exists d, resolved s = Some d /\ d < t2)) ->
  (getValidDate hint true w).1 = Val (format (t0 + 7 * MS_PER_DAY)) /\
  (getValidDate hint true w).1 = (getValidDate None true w).1 /\
  (forall s d, s <> "" -> resolved s = Some d -> t2 <= d ->
     (getValidDate (Some s) true w).1 = Val (format d)).
Proof.
  intros t0 t1 t2 resolved Hhint.
  assert (Hnone : (getValidDate None true w).1 = Val (format (t0 + 7 * MS_PER_DAY)))
    by reflexivity.
  assert (Hrun : forall a s,
    (getValidDate (Some (String a s)) true w).1
    = match resolved (String a s) with
      | None => Val (format (t0 + 7 * MS_PER_DAY))
      | Some d => if isPast d t2 then Val (format (t0 + 7 * MS_PER_DAY))
                  else Val (format d)
      end).
  { intros a s. unfold getValidDate, bind, newDate. cbn [w_clock w_ticks tick fst].
    subst resolved t1 t2. cbn beta.
    replace (w_ticks w + 1)%nat with (S (w_ticks w)) by lia.
    replace (w_ticks w + 2)%nat with (S (S (w_ticks w))) by lia.
    destruct (match parseHumanRelative (String a s) _ with
              | Some d => d | None => Date_parse (String a s) end) as [d|]; [|done].
    cbn [w_clock w_ticks tick].
    by destruct (isPast d _). }
  split; [|split].
  - destruct Hhint as [->|[->|(s & -> & Hs)]]; try done.
    destruct s as [|a s]; [done|]. rewrite Hrun.
    destruct Hs as [->|(d & -> & Hd)]; [done|].
    unfold isPast. by destruct (Z.ltb_spec d t2); [|lia].
  - rewrite Hnone.
    destruct Hhint as [->|[->|(s & -> & Hs)]]; try done.
    destruct s as [|a s]; [done|]. rewrite Hrun.
    destruct Hs as [->|(d & -> & Hd)]; [done|].
    unfold isPast. by destruct (Z.ltb_spec d t2); [|lia].
  - intros s d Hs Hres Hd. destruct s as [|a s]; [done|].
    rewrite Hrun, Hres. unfold isPast. by destruct (Z.ltb_spec d t2); [lia|].
Qed.

(** A timestamp one millisecond before the clock is replaced by the default. *)
Lemma past_date_rejection_witness :
  (@getValidDate utc (Some "2026-11-02T08:12:59.999Z") true
     (quiet_world always_accepts ∅ None None)).1
  = Val "2026-11-09T08:13:00.000Z".
Proof.
  destruct (@past_date_rejection utc (Some "2026-11-02T08:12:59.999Z")
              (quiet_world always_accepts ∅ None None)) as (-> & _).
  - right; right. eexists. split; [reflexivity|]. right.
    exists (sample_now - 1). split; [reflexivity|].
    cbn [w_clock quiet_world]. lia.
  - reflexivity.
Defined.

(** C6 as stated fails for a hint that resolves to the very instant of the
    check: that date is not strictly in the future, yet it is kept, and the
    result differs from the one without a hint.  In the later revision the
    hint "today" is such a hint whenever the clock does not advance between
    the resolution and the check. *)
Lemma past_date_rejection_counterexample :
  @parseHumanRelative utc "2026-11-02T08:13:00.000Z" sample_now = None /\
  @Date_parse utc "2026-11-02T08:13:00.000Z" = Some sample_now /\
  ~ (w_clock (quiet_world always_accepts ∅ None None) 2 < sample_now) /\
  (@getValidDate utc (Some "2026-11-02T08:13:00.000Z") true
     (quiet_world always_accepts ∅ None None)).1
  = Val "2026-11-02T08:13:00.000Z" /\
  (@getValidDate utc None true (quiet_world always_accepts ∅ None None)).1
  = Val "2026-11-09T08:13:00.000Z" /\
  (@getValidDate utc (Some "2026-11-02T08:13:00.000Z") true
     (quiet_world always_accepts ∅ None None)).1
  <> (@getValidDate utc None true (quiet_world always_accepts ∅ None None)).1 /\
  (@Rel.getValidDate (Iso.runtime 0) (Some "today") true
     (quiet_world always_accepts ∅ None None)).1
  = Val "2026-11-02T08:13:00.000Z".
Proof.
  split; [reflexivity|]. split; [reflexivity|].
  split; [cbn [w_clock quiet_world]; lia|].
  split; [reflexivity|]. split; [reflexivity|].
  split; [vm_compute; discriminate|reflexivity].
Qed.

(** ** Deletion *)

(** One pass of the retry loop: it fails at its read or at its write and
    leaves the store as it was, or it writes the index without the id. *)
Lemma indexAttempt_eq id w :
  indexAttempt id w
  = if pass_fails (w_kv_fault w) (w_kv_calls w)
    then (Val false, called (pass_calls (w_kv_fault w) (w_kv_calls w)) w)
    else (Val true, called 2 (with_index (Some (without id (index_ids w))) w)).
Proof.
  unfold indexAttempt, try_catch, bind, kv_get_index, kv_set_index, pass_fails, pass_calls.
  rewrite kv_call_eq. unfold fault_now at 1.
  destruct (w_kv_fault w (w_kv_calls w)) eqn:F1; [by destruct w|].
  cbn [fst snd orb]. rewrite kv_call_eq. unfold fault_now.
  cbn [w_kv_fault w_kv_calls kv_called].
  destruct (w_kv_fault w (S (w_kv_calls w))) eqn:F2; [by destruct w|].
  cbn [fst snd]. unfold ret, index_ids, without. by destruct (w_index w).
Qed.

Lemma indexRetryLoop_failed id n : forall w,
  failed_passes (w_kv_fault w) (w_kv_calls w) n = true ->
  indexRetryLoop id n w
  = (Val false, called (passes_calls (w_kv_fault w) (w_kv_calls w) n) w).
Proof.
  induction n as [|n IH]; intros w Hf; [by rewrite called_0|].
  cbn [failed_passes] in Hf. apply andb_true_iff in Hf as [Hp Hrest].
  cbn [indexRetryLoop passes_calls]. unfold bind. rewrite indexAttempt_eq, Hp.
  set (pc := pass_calls (w_kv_fault w) (w_kv_calls w)) in *.
  rewrite IH.
  - cbn [w_kv_fault w_kv_calls called]. rewrite called_called.
    by rewrite (Nat.add_comm pc (w_kv_calls w)), (Nat.add_comm pc (passes_calls _ _ _)).
  - cbn [w_kv_fault w_kv_calls called]. by rewrite (Nat.add_comm pc (w_kv_calls w)).
Qed.

Lemma indexRetryLoop_rescued id j : forall n w,
  (j < n)%nat ->
  failed_passes (w_kv_fault w) (w_kv_calls w) j = true ->
  pass_fails (w_kv_fault w)
    (w_kv_calls w + passes_calls (w_kv_fault w) (w_kv_calls w) j) = false ->
  indexRetryLoop id n w
  = (Val true,
     called (passes_calls (w_kv_fault w) (w_kv_calls w) j + 2)
       (with_index (Some (without id (index_ids w))) w)).
Proof.
  induction j as [|j IH]; intros n w Hlt Hf Hok.
  - destruct n as [|n]; [lia|]. cbn [passes_calls] in Hok |- *.
    rewrite Nat.add_0_r in Hok.
    cbn [indexRetryLoop]. unfold bind. by rewrite indexAttempt_eq, Hok.
  - destruct n as [|n]; [lia|].
    cbn [failed_passes] in Hf. apply andb_true_iff in Hf as [Hp Hrest].
    cbn [passes_calls] in Hok |- *.
    cbn [indexRetryLoop]. unfold bind. rewrite indexAttempt_eq, Hp.
    set (pc := pass_calls (w_kv_fault w) (w_kv_calls w)) in *.
    rewrite (IH n (called pc w)).
    + cbn [w_kv_fault w_kv_calls called]. unfold called, with_index, index_ids.
      cbn. rewrite (Nat.add_comm pc (w_kv_calls w)). f_equal. f_equal. lia.
    + lia.
    + cbn [w_kv_fault w_kv_calls called]. by rewrite (Nat.add_comm pc (w_kv_calls w)).
    + cbn [w_kv_fault w_kv_calls called]. rewrite (Nat.add_comm pc (w_kv_calls w)).
      by rewrite <- Nat.add_assoc.
Qed.

(** One pass of the retry loop either rewrites the index without the id, or
    fails at one of its two store calls and leaves the store as it was. *)
Lemma indexAttempt_cases id w :
  w_campaigns (indexAttempt id w).2 = w_campaigns w /\
  w_kv_fault (indexAttempt id w).2 = w_kv_fault w /\
  (w_kv_calls w < w_kv_calls (indexAttempt id w).2 <= w_kv_calls w + 2)%nat /\
  (((indexAttempt id w).1 = Val true /\
    w_index (indexAttempt id w).2 = Some (without id (index_ids w)))
   \/ ((indexAttempt id w).1 = Val false /\
       w_index (indexAttempt id w).2 = w_index w)).
Proof.
  unfold indexAttempt, try_catch, bind, kv_get_index, kv_set_index.
  destruct (w_kv_fault w (w_kv_calls w)) eqn:F1.
  - rewrite kv_call_fault by done. cbn. repeat split; try lia. by right.
  - rewrite kv_call_ok by done. cbn [fst snd].
    destruct (w_kv_fault w (S (w_kv_calls w))) eqn:F2.
    + rewrite kv_call_fault by done. cbn. repeat split; try lia. by right.
    + rewrite kv_call_ok by done. cbn. repeat split; try lia. left.
      split; [done|]. unfold index_ids, without. by destruct (w_index w).
Qed.

Lemma indexRetryLoop_cases id n : forall w,
  w_campaigns (indexRetryLoop id n w).2 = w_campaigns w /\
  w_kv_fault (indexRetryLoop id n w).2 = w_kv_fault w /\
  (w_kv_calls w <= w_kv_calls (indexRetryLoop id n w).2 <= w_kv_calls w + 2 * n)%nat /\
  (((indexRetryLoop id n w).1 = Val true /\
    w_index (indexRetryLoop id n w).2 = Some (without id (index_ids w)))
   \/ ((indexRetryLoop id n w).1 = Val false /\
       w_index (indexRetryLoop id n w).2 = w_index w)).
Proof.
  induction n as [|n IH]; intros w.
  - cbn. repeat split; try lia. by right.
  - cbn [indexRetryLoop]. unfold bind.
    destruct (indexAttempt_cases id w) as (Hc & Hf & Hk & Hcase).
    destruct (indexAttempt id w) as [r w1]. cbn [fst snd] in *.
    destruct Hcase as [[-> Hi]|[-> Hi]].
    + cbn. repeat split; try lia; try done. by left.
    + destruct (IH w1) as (Hc' & Hf' & Hk' & Hcase').
      rewrite Hc', Hf', Hc, Hf. repeat split; try lia.
      unfold index_ids in *. rewrite Hi in Hcase'. exact Hcase'.
Qed.

(** Of [n] passes either all fail or one is the first to complete. *)
Lemma passes_cases fault n : forall k,
  failed_passes fault k n = true
  \/ exists j, (j < n)%nat /\ failed_passes fault k j = true
               /\ pass_fails fault (k + passes_calls fault k j) = false.
Proof.
  induction n as [|n IH]; intros k; [by left|].
  destruct (pass_fails fault k) eqn:Hp.
  - destruct (IH (k + pass_calls fault k)%nat) as [Hall|(j & Hj & Hf & Hok)].
    + left. cbn [failed_passes]. by rewrite Hp, Hall.
    + right. exists (S j). split; [lia|]. cbn [failed_passes passes_calls].
      rewrite Hp, Hf. split; [done|]. by rewrite Nat.add_assoc.
  - right. exists 0%nat. split; [lia|]. split; [done|].
    cbn [passes_calls]. by rewrite Nat.add_0_r.
Qed.

Lemma passes_calls_le fault n : forall k, (passes_calls fault k n <= 2 * n)%nat.
Proof.
  induction n as [|n IH]; intros k; [done|]. cbn [passes_calls].
  specialize (IH (k + pass_calls fault k)%nat).
  unfold pass_calls at 1. destruct (fault k); lia.
Qed.

(** The deletion of a stored campaign, once its record was read: the world
    after the retry loop decides the rest. *)
Lemma router_delete_found id w record :
  truthy (trim id) = true -> fault_now w = false -> w_campaigns w !! id = Some record ->
  router_delete id w
  = match indexRetryLoop id maxRetries (kv_called w) with
    | (Val true, w1) =>
        if fault_now w1
        then (Val (JsonError 500 "Failed to delete campaign"), kv_called w1)
        else (Val (JsonSuccess ("Campaign " +:+ id +:+ " deleted")),
              kv_called (with_campaigns (delete id (w_campaigns w1)) w1))
    | (Val false, w1) => (Val (JsonError 500 "Failed to update campaign index"), w1)
    | (Exn e, w1) => (Val (JsonError 500 "Failed to delete campaign"), w1)
    end.
Proof.
  intros Hid Hf Hrec. unfold router_delete, try_catch, bind at 1, kv_get_campaign.
  rewrite Hid. cbn [negb]. rewrite kv_call_eq, Hf. cbn [fst snd]. rewrite Hrec.
  unfold bind at 1.
  destruct (indexRetryLoop id maxRetries (kv_called w)) as [[[]|e] w1]; cbn [negb]; try done.
  unfold bind, kv_delete_campaign. rewrite kv_call_eq.
  by destruct (fault_now w1).
Qed.

(** C9. The deletion of a stored campaign, under any pattern of failures of
    the store.  The index update (read the index, filter the id out, write
    the index) is tried up to three times: when the first [j < 3] passes
    fail and the next one completes, the index is written without the id
    and only then the record is deleted, the reply being the success, or
    the status 500 of the deletion when that last call fails; when three
    passes in a row fail, no fourth one is made, the reply is the status
    500 of the index update, and record and index are as they were.  So the
    record is gone only in runs that have rewritten the index. *)
Theorem delete_index_retry id w record :
  truthy (trim id) = true -> fault_now w = false -> w_campaigns w !! id = Some record ->
  let fault := w_kv_fault w in
  let k1 := S (w_kv_calls w) in
  let run := router_delete id w in
  (forall j, (j < 3)%nat ->
     failed_passes fault k1 j = true ->
     pass_fails fault (k1 + passes_calls fault k1 j) = false ->
     let kd := (k1 + passes_calls fault k1 j + 2)%nat in
     w_index run.2 = Some (without id (index_ids w)) /\
     w_kv_calls run.2 = S kd /\
     (fault kd = false ->
      run.1 = Val (JsonSuccess ("Campaign " +:+ id +:+ " deleted")) /\
      w_campaigns run.2 = delete id (w_campaigns w)) /\
     (fault kd = true ->
      run.1 = Val (JsonError 500 "Failed to delete campaign") /\
      w_campaigns run.2 = w_campaigns w)) /\
  (failed_passes fault k1 3 = true ->
   run.1 = Val (JsonError 500 "Failed to update campaign index") /\
   store_of run.2 = store_of w /\
   w_kv_calls run.2 = (k1 + passes_calls fault k1 3)%nat /\
   (w_kv_calls run.2 <= w_kv_calls w + 7)%nat) /\
  (w_campaigns run.2 !! id = None -> w_index run.2 = Some (without id (index_ids w))).
Proof.
  intros Hid Hf Hrec fault k1 run.
  assert (Hresc : forall j, (j < 3)%nat ->
     failed_passes fault k1 j = true ->
     pass_fails fault (k1 + passes_calls fault k1 j) = false ->
     run = if fault (k1 + passes_calls fault k1 j + 2)%nat
           then (Val (JsonError 500 "Failed to delete campaign"),
                 called (passes_calls fault k1 j + 3)
                   (with_index (Some (without id (index_ids w))) (kv_called w)))
           else (Val (JsonSuccess ("Campaign " +:+ id +:+ " deleted")),
                 called (passes_calls fault k1 j + 3)
                   (with_campaigns (delete id (w_campaigns w))
                      (with_index (Some (without id (index_ids w))) (kv_called w))))).
  { intros j Hj Hfail Hok. subst run.
    rewrite (router_delete_found id w record Hid Hf Hrec).
    rewrite (indexRetryLoop_rescued id j maxRetries (kv_called w) Hj Hfail Hok).
    unfold fault_now. cbn [w_kv_fault w_kv_calls called with_index kv_called].
    change (w_kv_fault w) with fault. change (S (w_kv_calls w)) with k1.
    rewrite (Nat.add_comm (passes_calls fault k1 j + 2) k1), Nat.add_assoc.
    destruct (fault (k1 + passes_calls fault k1 j + 2)%nat).
    - f_equal. unfold called, kv_called, with_index. cbn. f_equal. lia.
    - f_equal. unfold called, kv_called, with_index, with_campaigns, index_ids. cbn.
      f_equal. lia. }
  assert (Hall : failed_passes fault k1 3 = true ->
     run = (Val (JsonError 500 "Failed to update campaign index"),
            called (passes_calls fault k1 3) (kv_called w))).
  { intros Hfail. subst run.
    rewrite (router_delete_found id w record Hid Hf Hrec).
    by rewrite (indexRetryLoop_failed id maxRetries (kv_called w) Hfail). }
  split; [|split].
  - intros j Hj Hfail Hok kd. rewrite (Hresc j Hj Hfail Hok). fold kd.
    destruct (fault kd); cbn [fst snd w_index w_kv_calls w_campaigns called with_index
                               with_campaigns kv_called].
    + split; [done|]. split; [subst kd k1; lia|]. split; [done|]. by intros _.
    + split; [done|]. split; [subst kd k1; lia|]. split; [by intros _|done].
  - intros Hfail. rewrite (Hall Hfail).
    cbn [fst snd w_kv_calls called kv_called]. split; [done|]. split; [done|].
    pose proof (passes_calls_le fault 3 k1). subst k1. split; lia.
  - intros Hgone.
    destruct (passes_cases fault 3 k1) as [Hfail|(j & Hj & Hfail & Hok)].
    + rewrite (Hall Hfail) in Hgone. cbn in Hgone. congruence.
    + rewrite (Hresc j Hj Hfail Hok).
      by destruct (fault _).
Qed.

(** With a campaign stored and a store whose second call fails, the first
    pass fails at its read, the second pass rewrites the index, and the
    record is deleted. *)
Lemma delete_index_retry_witness :
  let w := faulty_world (fault_at 1) {["c1" := sample_campaign]} (Some ["c1"; "c2"]) in
  (indexAttempt "c1" (kv_called w)).1 = Val false /\
  (router_delete "c1" w).1 = Val (JsonSuccess "Campaign c1 deleted") /\
  w_index (router_delete "c1" w).2 = Some ["c2"] /\
  w_campaigns (router_delete "c1" w).2 = delete "c1" {["c1" := sample_campaign]}.
Proof.
  cbn zeta.
  destruct (delete_index_retry "c1"
              (faulty_world (fault_at 1) {["c1" := sample_campaign]} (Some ["c1"; "c2"]))
              sample_campaign eq_refl eq_refl (lookup_singleton_eq _ _))
    as (Hresc & _ & _).
  destruct (Hresc 1%nat) as (Hi & _ & Hok & _); [lia|reflexivity|reflexivity|].
  destruct (Hok eq_refl) as [Hr Hc].
  split; [reflexivity|]. split; [exact Hr|]. split; [exact Hi|exact Hc].
Defined.

(** ** The index under saves and deletes *)

Lemma includes_elem (l : list string) x : includes l x = true <-> x ∈ l.
Proof.
  unfold includes. rewrite existsb_exists. split.
  - intros (y & Hy & E). apply String.eqb_eq in E. subst. by apply list_elem_of_In.
  - intros H. exists x. split; [by apply list_elem_of_In|apply String.eqb_refl].
Qed.

Lemma elem_without x y l : x ∈ without y l <-> x ∈ l /\ x <> y.
Proof.
  unfold without. rewrite !list_elem_of_In, filter_In, negb_true_iff, String.eqb_neq.
  done.
Qed.

Lemma NoDup_without y l : NoDup l -> NoDup (without y l).
Proof.
  intros H. unfold without. apply NoDup_ListNoDup.
  apply List.NoDup_filter. by apply NoDup_ListNoDup.
Qed.

Lemma NoDup_valid l : NoDup l -> NoDup (List.filter isValidId l).
Proof.
  intros H. apply NoDup_ListNoDup. apply List.NoDup_filter. by apply NoDup_ListNoDup.
Qed.

(** What a save does to the index, whatever the store's faults: nothing, or
    it writes the index that holds the id alone, which it does whenever it
    returns [true]. *)
Lemma saveCampaign_index campaign w :
  (w_index (saveCampaign campaign w).2 = w_index w
   \/ w_index (saveCampaign campaign w).2 = Some [id campaign])
  /\ ((saveCampaign campaign w).1 = Val true ->
      isValidId (id campaign) = true /\
      w_index (saveCampaign campaign w).2 = Some [id campaign] /\
      w_campaigns (saveCampaign campaign w).2 !! id campaign = Some campaign).
Proof.
  rewrite saveCampaign_eq.
  destruct (isValidId (id campaign)); cbn [negb]; [|by split; [left|]].
  destruct (fault_now w); [by split; [left|]|]. cbn zeta.
  destruct (fault_now _); [by split; [left|]|].
  destruct (fault_now _); [by split; [left|]|].
  cbn [fst snd w_index w_campaigns kv_called with_index with_campaigns].
  split; [by right|]. intros _. split; [done|]. split; [done|]. apply lookup_insert_eq.
Qed.

(** What a deletion does to the index and to the records. *)
Lemma router_delete_index x w :
  (w_index (router_delete x w).2 = w_index w
   \/ w_index (router_delete x w).2 = Some (without x (index_ids w)))
  /\ (forall msg, (router_delete x w).1 = Val (JsonSuccess msg) ->
        w_index (router_delete x w).2 = Some (without x (index_ids w))
        /\ w_campaigns (router_delete x w).2 = delete x (w_campaigns w)).
Proof.
  destruct (router_delete x w) as [res w'] eqn:Erun. cbn [fst snd].
  unfold router_delete in Erun.
  destruct (truthy (trim x)); cbn [negb] in Erun.
  2:{ injection Erun as <- <-. by split; [left|]. }
  unfold try_catch, bind, kv_get_campaign in Erun.
  destruct (w_kv_fault w (w_kv_calls w)) eqn:F0.
  { rewrite kv_call_fault in Erun by done. injection Erun as <- <-. by split; [left|]. }
  rewrite kv_call_ok in Erun by done. cbn [fst snd] in Erun.
  destruct (w_campaigns w !! x) as [record|].
  2:{ injection Erun as <- <-. by split; [left|]. }
  destruct (indexRetryLoop_cases x maxRetries (kv_called w)) as (Hc & Hf & Hk & Hcase).
  destruct (indexRetryLoop x maxRetries (kv_called w)) as [r w1].
  cbn [fst snd] in *.
  destruct Hcase as [[-> Hi]|[-> Hi]]; cbn [negb] in Erun.
  - unfold kv_delete_campaign in Erun.
    destruct (w_kv_fault w1 (w_kv_calls w1)) eqn:F1.
    + rewrite kv_call_fault in Erun by done. injection Erun as <- <-.
      by split; [right|].
    + rewrite kv_call_ok in Erun by done. injection Erun as <- <-.
      cbn. rewrite Hc. split; [by right|done].
  - injection Erun as <- <-. by split; [left|].
Qed.

Lemma op_next_delete x w : op_next (OpDelete x) w = (router_delete x w).2.
Proof.
  unfold op_next, op_run, bind. by destruct (router_delete x w) as [[r|e] w1].
Qed.

Lemma op_next_NoDup o w : NoDup (index_ids w) -> NoDup (index_ids (op_next o w)).
Proof.
  intros H. destruct o as [campaign|x].
  - unfold op_next, op_run.
    destruct (saveCampaign_index campaign w) as [[E|E] _];
      unfold index_ids at 1; rewrite E; [done|]. apply NoDup_singleton.
  - rewrite op_next_delete.
    destruct (router_delete_index x w) as [[E|E] _];
      unfold index_ids at 1; rewrite E; [done|]. by apply NoDup_without.
Qed.

Lemma run_ops_NoDup ops : forall w,
  NoDup (index_ids w) -> NoDup (index_ids (run_ops ops w)).
Proof.
  induction ops as [|o ops IH]; intros w H; [done|].
  cbn. apply IH. by apply op_next_NoDup.
Qed.

Lemma run_ops_app ops1 ops2 w : run_ops (ops1 ++ ops2) w = run_ops ops2 (run_ops ops1 w).
Proof. revert w. induction ops1 as [|o ops IH]; intros w; [done|]. cbn. apply IH. Qed.

Lemma NoDup_count (l : list string) x :
  NoDup l -> x ∈ l -> count_occ string_dec l x = 1%nat.
Proof.
  intros Hnd Hin. apply NoDup_ListNoDup in Hnd.
  apply (proj1 (List.NoDup_count_occ' string_dec l) Hnd). by apply list_elem_of_In.
Qed.

(** C8, as amended.  From an index without duplicates, under any sequence
    of saves and deletes and any pattern of store failures: the index never
    holds an id twice; when a save returns [true], its id occurs exactly
    once in the index and its record is stored; and after a successful
    deletion the id does not occur and its record is gone. *)
Theorem index_exactly_once (w : World) (pre : list Op) :
  NoDup (index_ids w) ->
  NoDup (index_ids (run_ops pre w)) /\
  (forall campaign,
     op_ok (OpSave campaign) (run_ops pre w) = true ->
     count_occ string_dec
       (index_ids (run_ops (pre ++ [OpSave campaign]) w)) (id campaign) = 1%nat /\
     w_campaigns (run_ops (pre ++ [OpSave campaign]) w) !! id campaign = Some campaign) /\
  (forall x,
     op_ok (OpDelete x) (run_ops pre w) = true ->
     count_occ string_dec (index_ids (run_ops (pre ++ [OpDelete x]) w)) x = 0%nat /\
     w_campaigns (run_ops (pre ++ [OpDelete x]) w) !! x = None).
Proof.
  intros Hnd. split; [by apply run_ops_NoDup|]. split.
  - intros campaign Hok.
    rewrite run_ops_app. cbn [run_ops].
    set (w1 := run_ops pre w) in *.
    unfold op_ok, op_run in Hok. unfold op_next, op_run.
    destruct (saveCampaign_index campaign w1) as [_ Hsaved].
    destruct ((saveCampaign campaign w1).1) as [[|]|e] eqn:Eres; try done.
    destruct (Hsaved eq_refl) as (Hvalid & Hix & Hrec).
    split; [|exact Hrec].
    unfold index_ids. rewrite Hix.
    change (default [] (Some [id campaign])) with [id campaign].
    apply NoDup_count; [apply NoDup_singleton|by apply list_elem_of_singleton].
  - intros x Hok. rewrite run_ops_app. cbn [run_ops].
    set (w1 := run_ops pre w) in *.
    rewrite op_next_delete.
    destruct (router_delete_index x w1) as [_ Hdel].
    assert (exists msg, (router_delete x w1).1 = Val (JsonSuccess msg)) as [msg Hmsg].
    { unfold op_ok, op_run, bind in Hok.
      destruct (router_delete x w1) as [[[code msg|msg]|e] w2]; cbn in Hok; try done.
      by exists msg. }
    destruct (Hdel msg Hmsg) as [Hi Hc]. split.
    + apply count_occ_not_In. unfold index_ids. rewrite Hi. cbn.
      intros Hin. apply list_elem_of_In, elem_without in Hin. by destruct Hin.
    + rewrite Hc. apply lookup_delete_eq.
Qed.

(** Campaigns "a" and "b" saved and "b" deleted on a store whose sixth call
    fails, then "a" saved again: "a" is listed once. *)
Lemma index_exactly_once_witness :
  NoDup (index_ids (faulty_world (fault_at 5) ∅ None)) /\
  op_ok (OpSave campaign_a)
    (run_ops [OpSave campaign_a; OpSave campaign_b; OpDelete "b"]
       (faulty_world (fault_at 5) ∅ None)) = true /\
  count_occ string_dec
    (index_ids (run_ops ([OpSave campaign_a; OpSave campaign_b; OpDelete "b"]
                           ++ [OpSave campaign_a])
                  (faulty_world (fault_at 5) ∅ None))) "a" = 1%nat.
Proof.
  assert (Hnd : NoDup (index_ids (faulty_world (fault_at 5) ∅ None))) by constructor.
  assert (Hok : op_ok (OpSave campaign_a)
                  (run_ops [OpSave campaign_a; OpSave campaign_b; OpDelete "b"]
                     (faulty_world (fault_at 5) ∅ None)) = true)
    by (vm_compute; reflexivity).
  split; [exact Hnd|]. split; [exact Hok|].
  destruct (index_exactly_once (faulty_world (fault_at 5) ∅ None)
              [OpSave campaign_a; OpSave campaign_b; OpDelete "b"] Hnd)
    as (_ & Hsave & _).
  exact (proj1 (Hsave campaign_a Hok)).
Defined.

(** C8 as stated fails when a deletion fails at its last store call: the
    save of "a" succeeded, no deletion of "a" succeeded, the record of "a"
    is still stored, and the index does not list "a". *)
Lemma index_exactly_once_counterexample :
  op_ok (OpSave campaign_a) (faulty_world (fault_at 6) ∅ None) = true /\
  op_ok (OpDelete "a") (run_ops [OpSave campaign_a] (faulty_world (fault_at 6) ∅ None))
  = false /\
  w_campaigns (run_ops [OpSave campaign_a; OpDelete "a"]
                 (faulty_world (fault_at 6) ∅ None)) !! "a" = Some campaign_a /\
  (router_delete "a" (run_ops [OpSave campaign_a] (faulty_world (fault_at 6) ∅ None))).1
  = Val (JsonError 500 "Failed to delete campaign") /\
  count_occ string_dec
    (index_ids (run_ops [OpSave campaign_a; OpDelete "a"]
                  (faulty_world (fault_at 6) ∅ None))) "a" = 0%nat.
Proof. vm_compute. repeat split. Qed.

(** ** Interleaved saves *)

(** On a store that answers, [saveCampaign] is its task run without
    interruption. *)
Lemma saveCampaign_task_run campaign w :
  no_faults w ->
  (saveCampaign campaign w).1 = Val (run (saveCampaign_task campaign) (store_of w)).1 /\
  store_of (saveCampaign campaign w).2 = (run (saveCampaign_task campaign) (store_of w)).2.
Proof.
  intros Hnf. unfold saveCampaign_task.
  destruct (isValidId (id campaign)) eqn:Hid.
  - by rewrite saveCampaign_run.
  - unfold saveCampaign. rewrite Hid. by cbn.
Qed.

(** C10, as amended.  Two campaigns with distinct valid ids saved one after
    the other, on a store that answers and whose index is empty: both saves
    succeed, both records are stored and the index lists the second id;
    deleting the first one then succeeds, removes its record and leaves
    exactly the second id. *)
Theorem sequential_saves_indexed (A B : Campaign) (w : World) :
  no_faults w -> index_ids w = [] ->
  isValidId (id A) = true -> isValidId (id B) = true -> id A <> id B ->
  let w1 := (saveCampaign A w).2 in
  let w2 := (saveCampaign B w1).2 in
  let w3 := (router_delete (id A) w2).2 in
  (saveCampaign A w).1 = Val true /\
  (saveCampaign B w1).1 = Val true /\
  w_campaigns w2 !! id A = Some A /\
  w_campaigns w2 !! id B = Some B /\
  id B ∈ index_ids w2 /\
  (router_delete (id A) w2).1 = Val (JsonSuccess ("Campaign " +:+ id A +:+ " deleted")) /\
  index_ids w3 = [id B] /\
  w_campaigns w3 !! id A = None /\
  w_campaigns w3 !! id B = Some B.
Proof.
  intros Hnf Hempty HA HB Hne w1 w2 w3.
  assert (E1 : saveCampaign A w = (Val true, save_world A w)) by (by apply saveCampaign_run).
  destruct (save_world_frame A w) as (Hc1 & Hi1 & _ & _ & _ & _ & Hf1 & _).
  assert (Hnf1 : no_faults (save_world A w)) by (by apply (no_faults_same w)).
  assert (E2 : saveCampaign B (save_world A w) = (Val true, save_world B (save_world A w)))
    by (by apply saveCampaign_run).
  destruct (save_world_frame B (save_world A w)) as (Hc2 & Hi2 & _ & _ & _ & _ & Hf2 & _).
  assert (Hnf2 : no_faults (save_world B (save_world A w)))
    by (by apply (no_faults_same (save_world A w))).
  subst w3 w2 w1. rewrite E1. cbn [fst snd]. rewrite E2. cbn [fst snd].
  set (w2 := save_world B (save_world A w)) in *.
  assert (HrecA : w_campaigns w2 !! id A = Some A).
  { rewrite Hc2, Hc1. rewrite lookup_insert_ne by congruence. apply lookup_insert_eq. }
  assert (HrecB : w_campaigns w2 !! id B = Some B).
  { rewrite Hc2. apply lookup_insert_eq. }
  split; [done|]. split; [done|]. split; [exact HrecA|]. split; [exact HrecB|].
  split; [unfold index_ids; rewrite Hi2; by apply list_elem_of_singleton|].
  rewrite (router_delete_found (id A) w2 A);
    [|by rewrite <- isValidId_trim|by apply fault_now_quiet|exact HrecA].
  rewrite (indexRetryLoop_rescued (id A) 0 maxRetries (kv_called w2));
    [|unfold maxRetries; lia|done|].
  2:{ unfold pass_fails. cbn [w_kv_fault kv_called]. by rewrite !Hnf2. }
  cbn [passes_calls Nat.add]. unfold fault_now.
  cbn [w_kv_fault w_kv_calls called with_index kv_called]. rewrite Hnf2.
  cbn [fst snd w_index w_campaigns called kv_called with_index with_campaigns index_ids
       default].
  rewrite Hi2. cbn [default]. unfold Datatypes.id, without. cbn [List.filter].
  destruct (String.eqb_spec (id B) (id A)) as [E|_]; [congruence|]. cbn [negb].
  split; [done|]. split; [done|]. split; [apply lookup_delete_eq|].
  by rewrite lookup_delete_ne.
Qed.

(** Campaigns "a" and "b" saved in turn on an empty store; "a" deleted. *)
Lemma sequential_saves_indexed_witness :
  no_faults (quiet_world always_accepts ∅ None None) /\
  index_ids (router_delete "a"
     (saveCampaign campaign_b
        (saveCampaign campaign_a (quiet_world always_accepts ∅ None None)).2).2).2
  = ["b"].
Proof.
  assert (Hnf : no_faults (quiet_world always_accepts ∅ None None))
    by (intros n; reflexivity).
  split; [exact Hnf|].
  destruct (sequential_saves_indexed campaign_a campaign_b
              (quiet_world always_accepts ∅ None None) Hnf eq_refl eq_refl eq_refl)
    as (_ & _ & _ & _ & _ & _ & H & _); [discriminate|exact H].
Defined.

(** C10 as stated fails when the two saves interleave so that both read the
    index before either writes it: both saves complete and report success,
    and the index lists only "b". *)
Lemma concurrent_saves_counterexample :
  racing_saves.1.1 = Done true /\
  racing_saves.1.2 = Done true /\
  s_index racing_saves.2 = Some ["b"] /\
  ~ In "a" (default [] (s_index racing_saves.2)).
Proof.
  split; [reflexivity|]. split; [reflexivity|]. split; [reflexivity|].
  cbn. intros [H|[]]. discriminate.
Qed.

(* ================================================================== *)
(** ** Strings *)
(* ================================================================== *)

Lemma lower_ascii_idem a : lower_ascii (lower_ascii a) = lower_ascii a.
Proof. by destruct a as [[] [] [] [] [] [] [] []]. Qed.

Lemma is_space_lower a : is_space (lower_ascii a) = is_space a.
Proof. by destruct a as [[] [] [] [] [] [] [] []]. Qed.

Lemma toLowerCase_idem s : toLowerCase (toLowerCase s) = toLowerCase s.
Proof. induction s as [|a s IH]; [done|]. cbn. by rewrite lower_ascii_idem, IH. Qed.

Lemma trimStart_lower s : trimStart (toLowerCase s) = toLowerCase (trimStart s).
Proof.
  induction s as [|a s IH]; [done|]. cbn. rewrite is_space_lower.
  by destruct (is_space a).
Qed.

Lemma trimEnd_lower s : trimEnd (toLowerCase s) = toLowerCase (trimEnd s).
Proof.
  induction s as [|a s IH]; [done|]. cbn. rewrite IH, is_space_lower.
  destruct (trimEnd s); cbn; [by destruct (is_space a)|done].
Qed.

Lemma trim_lower s : trim (toLowerCase s) = toLowerCase (trim s).
Proof. unfold trim. by rewrite trimStart_lower, trimEnd_lower. Qed.

Lemma trimStart_head s :
  trimStart s = "" \/ exists a r, trimStart s = String a r /\ is_space a = false.
Proof.
  induction s as [|a s IH]; [by left|]. cbn.
  destruct (is_space a) eqn:E; [exact IH|]. right. by exists a, s.
Qed.

Lemma trimEnd_cons a s :
  is_space a = false -> trimEnd (String a s) = String a (trimEnd s).
Proof. intros E. cbn. destruct (trimEnd s); [by rewrite E|done]. Qed.

Lemma trimEnd_idem s : trimEnd (trimEnd s) = trimEnd s.
Proof.
  induction s as [|a s IH]; [done|]. cbn.
  destruct (trimEnd s) as [|b t] eqn:E.
  - destruct (is_space a) eqn:Ea; [done|]. cbn. by rewrite Ea.
  - change (trimEnd (String a (String b t)))
      with (match trimEnd (String b t) with
            | EmptyString => if is_space a then EmptyString else String a EmptyString
            | u => String a u
            end).
    by rewrite IH.
Qed.

Lemma trim_idem s : trim (trim s) = trim s.
Proof.
  unfold trim. destruct (trimStart_head s) as [E|(a & r & E & Ha)]; rewrite E; [done|].
  rewrite (trimEnd_cons _ _ Ha). cbn [trimStart]. rewrite Ha.
  rewrite <- (trimEnd_cons _ _ Ha). apply trimEnd_idem.
Qed.

(** The string a hint is compared under is already in that form. *)
Lemma normal_form_idem s :
  toLowerCase (trim (toLowerCase (trim s))) = toLowerCase (trim s).
Proof. by rewrite trim_lower, trim_idem, toLowerCase_idem. Qed.







(* ================================================================== *)
(** ** Phrases *)
(* ================================================================== *)

Lemma all_chars_app p s t : all_chars p (s +:+ t) = all_chars p s && all_chars p t.
Proof.
  induction s as [|a s IH]; [done|].
  change (all_chars p (String a (s +:+ t)) = p a && all_chars p s && all_chars p t).
  cbn [all_chars]. by rewrite IH, andb_assoc.
Qed.

Lemma trimStart_pad pad s : all_chars is_space pad = true -> trimStart (pad +:+ s) = trimStart s.
Proof.
  induction pad as [|a pad IH]; [done|]. cbn [all_chars]. intros [Ha Hp]%andb_true_iff.
  change (trimStart (String a (pad +:+ s)) = trimStart s). cbn [trimStart]. rewrite Ha. auto.
Qed.

Lemma trimEnd_pad pad : all_chars is_space pad = true -> trimEnd pad = "".
Proof.
  induction pad as [|a pad IH]; [done|]. cbn [all_chars]. intros [Ha Hp]%andb_true_iff.
  cbn [trimEnd]. by rewrite (IH Hp), Ha.
Qed.

Lemma trimEnd_app_pad s pad : all_chars is_space pad = true -> trimEnd (s +:+ pad) = trimEnd s.
Proof.
  intros Hp. induction s as [|a s IH]; [by apply trimEnd_pad|].
  change (trimEnd (String a (s +:+ pad)) = trimEnd (String a s)).
  cbn [trimEnd]. by rewrite IH.
Qed.

Lemma trimStart_app s t :
  trimStart s <> "" -> trimStart (s +:+ t) = trimStart s +:+ t.
Proof.
  induction s as [|a s IH]; [done|].
  change (String a s +:+ t) with (String a (s +:+ t)). cbn [trimStart].
  destruct (is_space a); [exact IH|done].
Qed.

Lemma trim_pad pad pad' s :
  all_chars is_space pad = true -> all_chars is_space pad' = true ->
  trim (pad +:+ s +:+ pad') = trim s.
Proof.
  intros H1 H2. unfold trim. rewrite (trimStart_pad _ _ H1).
  destruct (trimStart s) as [|a r] eqn:E.
  - assert (all_chars is_space s = true) as Hs.
    { clear -E. induction s as [|c s IH]; [done|]. cbn in *.
      destruct (is_space c); [auto|done]. }
    assert (all_chars is_space (s +:+ pad') = true) as Hs'.
    { by rewrite all_chars_app, Hs, H2. }
    assert (trimStart (s +:+ pad') = "") as ->; [|done].
    clear -Hs'. induction (s +:+ pad') as [|c u IH]; [done|]. cbn in *.
    destruct (is_space c); [auto|done].
  - rewrite trimStart_app by (by rewrite E). rewrite E. by apply trimEnd_app_pad.
Qed.

(* ================================================================== *)
(** ** Printed numbers *)
(* ================================================================== *)

Lemma pretty_N_char_digit x :
  (x < 10)%N ->
  is_digit (pretty_N_char x) = true /\
  Z.of_nat (nat_of_ascii (pretty_N_char x)) - 48 = Z.of_N x.
Proof.
  intros Hx.
  assert (x = 0 \/ x = 1 \/ x = 2 \/ x = 3 \/ x = 4 \/ x = 5 \/ x = 6 \/ x = 7
          \/ x = 8 \/ x = 9)%N as Hc by lia.
  repeat destruct Hc as [->|Hc]; try subst x; by split.
Qed.

Lemma parseInt_go_pretty x : forall s,
  Rel.parseInt_go 0 (pretty_N_go x s) = Rel.parseInt_go (Z.of_N x) s.
Proof.
  induction (N.lt_wf_0 x) as [x _ IH]. intros s.
  destruct (decide (x = 0)%N) as [->|Hx]; [by rewrite pretty_N_go_0|].
  rewrite pretty_N_go_step by lia.
  rewrite IH by (apply N.div_lt; lia). cbn [Rel.parseInt_go].
  destruct (pretty_N_char_digit (x mod 10)%N) as [_ ->]; [apply N.mod_lt; lia|].
  f_equal. pose proof (N.div_mod' x 10). lia.
Qed.

Lemma parseInt_pretty (n : nat) : Rel.parseInt (pretty n) = Z.of_nat n.
Proof.
  unfold pretty, pretty_nat, pretty, pretty_N, Rel.parseInt.
  destruct (decide (N.of_nat n = 0)%N) as [E|E].
  - change (Rel.parseInt_go 0 "0") with 0. lia.
  - rewrite parseInt_go_pretty. cbn [Rel.parseInt_go]. lia.
Qed.

Lemma all_digits_pretty_go x : forall s,
  all_chars is_digit (pretty_N_go x s) = all_chars is_digit s.
Proof.
  induction (N.lt_wf_0 x) as [x _ IH]. intros s.
  destruct (decide (x = 0)%N) as [->|Hx]; [by rewrite pretty_N_go_0|].
  rewrite pretty_N_go_step by lia.
  rewrite IH by (apply N.div_lt; lia). cbn [all_chars].
  by destruct (pretty_N_char_digit (x mod 10)%N) as [-> _]; [apply N.mod_lt; lia|].
Qed.

Lemma pretty_go_head x : forall c s,
  exists d r, pretty_N_go x (String c s) = String d r.
Proof.
  induction (N.lt_wf_0 x) as [x _ IH]. intros c s.
  destruct (decide (x = 0)%N) as [->|Hx]; [rewrite pretty_N_go_0; by eexists _, _|].
  rewrite pretty_N_go_step by lia. apply IH. apply N.div_lt; lia.
Qed.

(** A printed natural number is a nonempty string of digits. *)
Lemma pretty_nat_digits (n : nat) :
  all_chars is_digit (pretty n) = true /\ exists d r, pretty n = String d r.
Proof.
  unfold pretty, pretty_nat, pretty, pretty_N.
  destruct (decide (N.of_nat n = 0)%N) as [E|E].
  - split; [done|by eexists _, _].
  - split; [by rewrite all_digits_pretty_go|].
    rewrite pretty_N_go_step by lia. apply pretty_go_head.
Qed.

Lemma span_all p s t :
  all_chars p s = true ->
  Rel.span p (s +:+ t) = (s +:+ (Rel.span p t).1, (Rel.span p t).2).
Proof.
  induction s as [|a s IH].
  { intros _. change ("" +:+ t) with t. by destruct (Rel.span p t). }
  cbn [all_chars]. intros [Ha Hs]%andb_true_iff.
  change (Rel.span p (String a (s +:+ t))
          = (String a (s +:+ (Rel.span p t).1), (Rel.span p t).2)).
  cbn [Rel.span]. rewrite Ha, (IH Hs). done.
Qed.

Lemma append_nil_r (s : string) : s +:+ "" = s.
Proof. induction s as [|a s IH]; [done|]. change (String a (s +:+ "") = String a s). by f_equal. Qed.

Lemma append_assoc (s t u : string) : (s +:+ t) +:+ u = s +:+ t +:+ u.
Proof.
  induction s as [|a s IH]; [done|].
  change (String a ((s +:+ t) +:+ u) = String a (s +:+ t +:+ u)). by f_equal.
Qed.

Lemma digit_not_space a : is_digit a = true -> is_space a = false.
Proof. by destruct a as [[] [] [] [] [] [] [] []]. Qed.

Lemma digit_lower a : is_digit a = true -> lower_ascii a = a.
Proof. by destruct a as [[] [] [] [] [] [] [] []]. Qed.

Lemma toLowerCase_digits s : all_chars is_digit s = true -> toLowerCase s = s.
Proof.
  induction s as [|a s IH]; [done|]. cbn. intros [Ha Hs]%andb_true_iff.
  by rewrite (digit_lower _ Ha), (IH Hs).
Qed.

Lemma toLowerCase_app s t : toLowerCase (s +:+ t) = toLowerCase s +:+ toLowerCase t.
Proof.
  induction s as [|a s IH]; [done|].
  change (toLowerCase (String a (s +:+ t))
          = String (lower_ascii a) (toLowerCase s +:+ toLowerCase t)).
  cbn [toLowerCase]. by rewrite IH.
Qed.

Lemma trimEnd_app_keep s u : trimEnd u = u -> u <> "" -> trimEnd (s +:+ u) = s +:+ u.
Proof.
  intros Hu Hne. induction s as [|c s IH]; [done|].
  change (trimEnd (String c (s +:+ u)) = String c (s +:+ u)).
  cbn [trimEnd]. rewrite IH. destruct (s +:+ u) eqn:E; [|done].
  destruct s; [by subst|done].
Qed.

(** The amount pattern on a printed number followed by one space and a word. *)
Lemma match_in_printed unit (n : nat) word :
  Rel.span is_space word = ("", word) ->
  Rel.match_in unit ("in " +:+ pretty n +:+ " " +:+ word)
  = if String.eqb word unit || String.eqb word (unit +:+ "s")
    then Some (Z.of_nat n) else None.
Proof.
  intros Hw. destruct (pretty_nat_digits n) as (Hd & d & r & E).
  change ("in " +:+ pretty n +:+ " " +:+ word)
    with (String "i" (String "n" (String " " (pretty n +:+ String " " word)))).
  cbn [Rel.match_in].
  assert (Rel.span is_space (String " " (pretty n +:+ String " " word))
          = (" ", pretty n +:+ String " " word)) as ->.
  { cbn [Rel.span]. change (is_space " ") with true. cbn iota.
    rewrite E. change (String d r +:+ String " " word)
      with (String d (r +:+ String " " word)).
    cbn [Rel.span]. rewrite E in Hd. cbn in Hd.
    apply andb_true_iff in Hd as [Hd _]. by rewrite (digit_not_space _ Hd). }
  rewrite (span_all _ _ _ Hd).
  change (Rel.span is_digit (String " " word)) with ("", String " " word).
  cbn [fst snd]. rewrite append_nil_r.
  change (Rel.span is_space (String " " word))
    with (let (h, r) := Rel.span is_space word in (String " " h, r)).
  rewrite Hw. rewrite parseInt_pretty. rewrite E. done.
Qed.

Lemma printed_phrase_normal (n : nat) word :
  trimEnd word = word -> word <> "" -> toLowerCase word = word ->
  toLowerCase (trim ("in " +:+ pretty n +:+ " " +:+ word))
  = "in " +:+ pretty n +:+ " " +:+ word.
Proof.
  intros Hw Hne Hl. destruct (pretty_nat_digits n) as (Hd & _).
  unfold trim.
  change (trimStart ("in " +:+ pretty n +:+ " " +:+ word))
    with ("in " +:+ pretty n +:+ " " +:+ word).
  replace ("in " +:+ pretty n +:+ " " +:+ word)
    with (("in " +:+ pretty n +:+ " ") +:+ word).
  2:{ change (String "i" (String "n" (String " " ((pretty n +:+ " ") +:+ word)))
              = String "i" (String "n" (String " " (pretty n +:+ " " +:+ word)))).
      by rewrite append_assoc. }
  rewrite (trimEnd_app_keep _ _ Hw Hne).
  rewrite toLowerCase_app, Hl. f_equal.
  change (String "i" (String "n" (String " " (toLowerCase (pretty n +:+ " "))))
          = String "i" (String "n" (String " " (pretty n +:+ " ")))).
  do 3 f_equal. rewrite toLowerCase_app. by rewrite (toLowerCase_digits _ Hd).
Qed.

(* ================================================================== *)
(** ** Relative hints *)
(* ================================================================== *)

Lemma parse_printed `{D : DateFns} (n : nat) word now :
  Rel.span is_space word = ("", word) ->
  trimEnd word = word -> word <> "" -> toLowerCase word = word ->
  Rel.parseRelativeDate ("in " +:+ pretty n +:+ " " +:+ word) now
  = match (if String.eqb word "day" || String.eqb word "days"
           then Some (Z.of_nat n) else None) with
    | Some k => Some (addDays now k)
    | None =>
        match (if String.eqb word "week" || String.eqb word "weeks"
               then Some (Z.of_nat n) else None) with
        | Some k => Some (addWeeks now k)
        | None =>
            match (if String.eqb word "month" || String.eqb word "months"
                   then Some (Z.of_nat n) else None) with
            | Some k => Some (addMonths now k)
            | None => None
            end
        end
    end.
Proof.
  intros Hs Ht Hne Hl. unfold Rel.parseRelativeDate.
  rewrite (printed_phrase_normal n word Ht Hne Hl).
  rewrite !(match_in_printed _ n word Hs).
  change ("in " +:+ pretty n +:+ " " +:+ word)
    with (String "i" (String "n" (String " " (pretty n +:+ String " " word)))).
  done.
Qed.

Lemma parse_printed_days `{D : DateFns} (n : nat) (now : Z) :
  Rel.parseRelativeDate ("in " +:+ pretty n +:+ " days") now
  = Some (addDays now (Z.of_nat n)) /\ True.
Proof. split; [|done]. by rewrite (parse_printed n "days"). Qed.

(** X1. For every natural number n up to 2^53 (where Number.parseInt is exact),
    printed in decimal, the phrase matcher of the later date-utils revision
    reads the hints "in n days" and "in n day" as n days after now, "in n
    weeks" and "in n week" as 7 n days after now, and "in n months" and "in
    n month" as n months after now: the amount the pattern captures is the
    number that was printed. *)
Theorem printed_amounts_parse `{D : DateFns} (n : nat) (now : Z) :
  Z.of_nat n <= 9007199254740992 ->
  Rel.parseRelativeDate ("in " +:+ pretty n +:+ " days") now
  = Some (addDays now (Z.of_nat n)) /\
  Rel.parseRelativeDate ("in " +:+ pretty n +:+ " day") now
  = Some (addDays now (Z.of_nat n)) /\
  Rel.parseRelativeDate ("in " +:+ pretty n +:+ " weeks") now
  = Some (addDays now (Z.of_nat n * 7)) /\
  Rel.parseRelativeDate ("in " +:+ pretty n +:+ " week") now
  = Some (addDays now (Z.of_nat n * 7)) /\
  Rel.parseRelativeDate ("in " +:+ pretty n +:+ " months") now
  = Some (addMonths now (Z.of_nat n)) /\
  Rel.parseRelativeDate ("in " +:+ pretty n +:+ " month") now
  = Some (addMonths now (Z.of_nat n)).
Proof.
  intros _. repeat split.
  - by rewrite (parse_printed n "days").
  - by rewrite (parse_printed n "day").
  - by rewrite (parse_printed n "weeks").
  - by rewrite (parse_printed n "week").
  - by rewrite (parse_printed n "months").
  - by rewrite (parse_printed n "month").
Qed.

Lemma printed_amounts_parse_witness :
  @Rel.parseRelativeDate (Iso.runtime 0) "in 3 days" sample_now
  = Some (Some (sample_now + 3 * MS_PER_DAY)) /\
  @Rel.parseRelativeDate (Iso.runtime 0) "in 3 weeks" sample_now
  = Some (Some (sample_now + 21 * MS_PER_DAY)).
Proof.
  destruct (@printed_amounts_parse (Iso.runtime 0) 3 sample_now) as (H1 & _ & H3 & _).
  - cbn. lia.
  - split; [exact H1|exact H3].
Defined.

Lemma digit_start_lower a r :
  is_digit a = true ->
  toLowerCase (trimEnd (String a r)) = String a (toLowerCase (trimEnd r)).
Proof.
  intros Ha. rewrite (trimEnd_cons _ _ (digit_not_space _ Ha)). cbn.
  by rewrite (digit_lower _ Ha).
Qed.

Lemma digit_start_no_phrase `{D : DateFns} s a r now :
  trimStart s = String a r -> is_digit a = true ->
  Rel.parseRelativeDate s now = None.
Proof.
  intros Es Ha. unfold Rel.parseRelativeDate, trim. rewrite Es, (digit_start_lower _ _ Ha).
  generalize (toLowerCase (trimEnd r)). intros u.
  destruct a as [[] [] [] [] [] [] [] []]; vm_compute in Ha; try discriminate Ha;
    reflexivity.
Qed.

(** The value of the later revision of [getValidDate] on a nonempty hint. *)
Lemma Rel_getValidDate_value `{D : DateFns} a s ef w :
  let t0 := w_clock w (w_ticks w) in
  let t1 := w_clock w (w_ticks w + 1) in
  let t2 := w_clock w (w_ticks w + 2) in
  (Rel.getValidDate (Some (String a s)) ef w).1
  = Val (format
           match (match Rel.parseRelativeDate (String a s) t1 with
                  | Some d => d
                  | None => Date_parse (String a s)
                  end) with
           | None => t0 + 7 * MS_PER_DAY
           | Some d => if ef && isPast d t2 then t0 + 7 * MS_PER_DAY else d
           end).
Proof.
  intros t0 t1 t2. subst t0 t1 t2.
  replace (w_ticks w + 1)%nat with (S (w_ticks w)) by lia.
  replace (w_ticks w + 2)%nat with (S (S (w_ticks w))) by lia.
  unfold Rel.getValidDate, bind, newDate. cbn [w_clock w_ticks tick fst].
  destruct (match Rel.parseRelativeDate (String a s) _ with
            | Some d => d | None => Date_parse (String a s) end) as [d|]; [|done].
  destruct ef; [|done]. cbn [w_clock w_ticks tick andb].
  by destruct (isPast d _).
Qed.

(** X2. A hint whose first character after leading white space is a digit is no
    phrase: the matcher rejects it at every instant, and the later revision
    of getValidDate resolves it with the Date constructor alone, giving the
    default (first clock reading plus 7 days) when the result is invalid, or
    is past at the third reading while ensureFuture is set, and the parsed
    date otherwise. *)
Theorem timestamps_bypass_phrases `{D : DateFns} (s : string) a r ef w :
  trimStart s = String a r -> is_digit a = true ->
  let t0 := w_clock w (w_ticks w) in
  let t2 := w_clock w (w_ticks w + 2) in
  (forall now, Rel.parseRelativeDate s now = None) /\
  (Rel.getValidDate (Some s) ef w).1
  = Val (format match Date_parse s with
                | None => t0 + 7 * MS_PER_DAY
                | Some d => if ef && isPast d t2 then t0 + 7 * MS_PER_DAY else d
                end).
Proof.
  intros Es Ha t0 t2.
  assert (Hnone : forall now, Rel.parseRelativeDate s now = None)
    by (intros now; exact (digit_start_no_phrase s a r now Es Ha)).
  split; [exact Hnone|].
  destruct s as [|c s]; [done|].
  rewrite Rel_getValidDate_value, Hnone. done.
Qed.

Lemma timestamps_bypass_phrases_witness :
  (@Rel.getValidDate (Iso.runtime 0) (Some "2030-01-01T00:00:00.000Z") true
     (quiet_world always_accepts ∅ None None)).1
  = Val "2030-01-01T00:00:00.000Z".
Proof.
  destruct (@timestamps_bypass_phrases (Iso.runtime 0) "2030-01-01T00:00:00.000Z"
              "2" "030-01-01T00:00:00.000Z" true
              (quiet_world always_accepts ∅ None None)) as [_ ->];
    [reflexivity|reflexivity|].
  reflexivity.
Defined.

(** X3. In the later revision of getValidDate, with t0, t1, t2 the three clock
    readings of a call and ensureFuture set, the hint "in n days" (n up to
    2^53, the instant within the range of Date) gives t1 plus n days and
    "today" gives t1, each kept unless it is earlier than t2 and replaced by
    t0 plus 7 days otherwise; so "today" gives the same as no hint as soon
    as the clock advances between the second and the third reading. While
    the instant is not before t2, ensureFuture makes no difference. *)
Theorem relative_days_hint `{D : DateFns} (n : nat) w :
  let t0 := w_clock w (w_ticks w) in
  let t1 := w_clock w (w_ticks w + 1) in
  let t2 := w_clock w (w_ticks w + 2) in
  let kept d := if d <? t2 then t0 + 7 * MS_PER_DAY else d in
  Z.of_nat n <= 9007199254740992 ->
  Z.abs (t1 + Z.of_nat n * MS_PER_DAY) <= 8640000000000000 ->
  (Rel.getValidDate (Some ("in " +:+ pretty n +:+ " days")) true w).1
  = Val (format (kept (t1 + Z.of_nat n * MS_PER_DAY))) /\
  (Rel.getValidDate (Some "today") true w).1 = Val (format (kept t1)) /\
  (t1 < t2 -> (Rel.getValidDate (Some "today") true w).1
              = (Rel.getValidDate None true w).1) /\
  (t2 <= t1 + Z.of_nat n * MS_PER_DAY ->
   (Rel.getValidDate (Some ("in " +:+ pretty n +:+ " days")) false w).1
   = (Rel.getValidDate (Some ("in " +:+ pretty n +:+ " days")) true w).1).
Proof.
  intros t0 t1 t2 kept _ Hclip.
  assert (Hdays : forall ef,
    (Rel.getValidDate (Some ("in " +:+ pretty n +:+ " days")) ef w).1
    = Val (format (if ef && isPast (t1 + Z.of_nat n * MS_PER_DAY) t2
                   then t0 + 7 * MS_PER_DAY else t1 + Z.of_nat n * MS_PER_DAY))).
  { intros ef.
    change ("in " +:+ pretty n +:+ " days")
      with (String "i" (String "n" (String " " (pretty n +:+ " days")))).
    rewrite Rel_getValidDate_value.
    change (String "i" (String "n" (String " " (pretty n +:+ " days"))))
      with ("in " +:+ pretty n +:+ " days").
    destruct (parse_printed_days n (w_clock w (w_ticks w + 1))) as [-> _].
    unfold addDays, timeClip. fold t0 t1 t2.
    by destruct (Z.leb_spec (Z.abs (t1 + Z.of_nat n * MS_PER_DAY)) 8640000000000000);
      [|lia]. }
  assert (Htoday : (Rel.getValidDate (Some "today") true w).1 = Val (format (kept t1))).
  { by rewrite Rel_getValidDate_value. }
  split; [|split; [|split]].
  - by rewrite Hdays.
  - exact Htoday.
  - intros Hlt. rewrite Htoday. unfold kept.
    by destruct (Z.ltb_spec t1 t2); [|lia].
  - intros Hle. rewrite !Hdays. unfold isPast. cbn [andb].
    by destruct (Z.ltb_spec (t1 + Z.of_nat n * MS_PER_DAY) t2); [lia|].
Qed.

Lemma relative_days_hint_witness :
  (@Rel.getValidDate (Iso.runtime 0) (Some "in 3 days") true
     (quiet_world always_accepts ∅ None None)).1
  = Val "2026-11-05T08:13:00.000Z" /\
  (@Rel.getValidDate (Iso.runtime 0) (Some "today") true
     (quiet_world always_accepts ∅ None None)).1
  = Val "2026-11-02T08:13:00.000Z".
Proof.
  destruct (@relative_days_hint (Iso.runtime 0) 3
              (quiet_world always_accepts ∅ None None)) as (H1 & H2 & _).
  - cbn. lia.
  - cbn [w_clock quiet_world]. unfold sample_now, MS_PER_DAY. lia.
  - split; [exact H1|exact H2].
Defined.

(** X4. The phrase matcher ignores white space around a hint and the case of its
    letters: a hint padded with white space on both sides is read like any
    hint with the same lower-case form. *)
Theorem hints_ignore_case_and_padding `{D : DateFns} (pad pad' s s' : string) now :
  all_chars is_space pad = true -> all_chars is_space pad' = true ->
  toLowerCase s = toLowerCase s' ->
  Rel.parseRelativeDate (pad +:+ s +:+ pad') now = Rel.parseRelativeDate s' now.
Proof.
  intros H1 H2 Hs. unfold Rel.parseRelativeDate.
  by rewrite (trim_pad _ _ _ H1 H2), <- !trim_lower, Hs.
Qed.

Lemma hints_ignore_case_and_padding_witness :
  @Rel.parseRelativeDate (Iso.runtime 0) "  Next WEEK " sample_now
  = Some (Some (sample_now + 7 * MS_PER_DAY)).
Proof.
  exact (eq_trans
           (@hints_ignore_case_and_padding (Iso.runtime 0) "  " " " "Next WEEK"
              "next week" sample_now eq_refl eq_refl eq_refl)
           eq_refl).
Defined.

Section DayArithmetic.
Context `{D : DateFns} (laws : DateLaws D).

(** X5. Each pass of a formatted date through incrementDateByDays moves the
    instant by the zone offset besides the days added, because the pattern
    prints local time with a literal Z that is read back as UTC. Two
    increments by a and b give the date at t plus twice the offset plus a +
    b days; in UTC that equals one increment by a + b and an increment by 0
    is the identity; in any other zone an increment by 0 already changes the
    date. *)
Theorem incrementDateByDays_add (t a b : Z) :
  common_era (t + tz_offset) ->
  common_era (t + 2 * tz_offset + a * MS_PER_DAY) ->
  Z.abs (t + tz_offset + a * MS_PER_DAY) <= 8640000000000000 ->
  Z.abs (t + 2 * tz_offset + (a + b) * MS_PER_DAY) <= 8640000000000000 ->
  incrementDateByDays (incrementDateByDays (format t) a) b
  = format (t + 2 * tz_offset + (a + b) * MS_PER_DAY) /\
  (tz_offset = 0 ->
   incrementDateByDays (incrementDateByDays (format t) a) b
   = incrementDateByDays (format t) (a + b) /\
   incrementDateByDays (format t) 0 = format t) /\
  (tz_offset <> 0 -> common_era (t + 2 * tz_offset) ->
   incrementDateByDays (format t) 0 <> format t).
Proof.
  intros H1 H2 H3 H4.
  assert (E : incrementDateByDays (incrementDateByDays (format t) a) b
              = format (t + 2 * tz_offset + (a + b) * MS_PER_DAY)).
  { rewrite (incrementDateByDays_format laws t a H1 H3).
    rewrite (incrementDateByDays_format laws).
    - f_equal. lia.
    - replace (t + tz_offset + a * MS_PER_DAY + tz_offset)
        with (t + 2 * tz_offset + a * MS_PER_DAY) by lia. exact H2.
    - replace (t + tz_offset + a * MS_PER_DAY + tz_offset + b * MS_PER_DAY)
        with (t + 2 * tz_offset + (a + b) * MS_PER_DAY) by lia. exact H4. }
  split; [exact E|]. split.
  - intros Hz. rewrite E. split.
    + rewrite (incrementDateByDays_format laws t (a + b) H1).
      * f_equal. lia.
      * replace (t + tz_offset + (a + b) * MS_PER_DAY)
          with (t + 2 * tz_offset + (a + b) * MS_PER_DAY) by lia. exact H4.
    + rewrite (incrementDateByDays_format laws t 0 H1).
      * f_equal. lia.
      * unfold common_era, CE_MIN, CE_MAX in H1. lia.
  - intros Hz Hc Heq.
    rewrite (incrementDateByDays_format laws) in Heq; [|exact H1|].
    2:{ unfold common_era, CE_MIN, CE_MAX in H1. lia. }
    apply (format_inj laws) in Heq; [lia| |exact H1].
    replace (t + tz_offset + 0 * MS_PER_DAY + tz_offset) with (t + 2 * tz_offset) by lia.
    exact Hc.
Qed.

End DayArithmetic.

Lemma incrementDateByDays_add_witness :
  @incrementDateByDays utc (@incrementDateByDays utc "2026-11-02T08:13:00.000Z" 2) 3
  = "2026-11-07T08:13:00.000Z".
Proof.
  destruct (@incrementDateByDays_add utc utc_laws sample_now 2 3) as [E _].
  - unfold common_era, CE_MIN, CE_MAX, sample_now. cbn. lia.
  - unfold common_era, CE_MIN, CE_MAX, sample_now, MS_PER_DAY. cbn. lia.
  - unfold sample_now, MS_PER_DAY. cbn. lia.
  - unfold sample_now, MS_PER_DAY. cbn. lia.
  - exact E.
Defined.

(* ================================================================== *)
(** ** The store under any pattern of failures *)
(* ================================================================== *)


(** A save that returns [true]. *)
Lemma saveCampaign_true campaign w w' :
  saveCampaign campaign w = (Val true, w') ->
  isValidId (id campaign) = true /\
  w_campaigns w' = <[id campaign := campaign]> (w_campaigns w) /\
  w_index w' = Some [id campaign] /\
  id campaign ∈ index_ids w' /\
  w_clock w' = w_clock w /\ w_ticks w' = w_ticks w /\ w_remote w' = w_remote w /\
  w_sent w' = w_sent w /\ w_kv_fault w' = w_kv_fault w /\ w_api_key w' = w_api_key w.
Proof.
  rewrite saveCampaign_eq.
  destruct (isValidId (id campaign)) eqn:Hid; [|done]. cbn [negb].
  destruct (fault_now w); [done|]. cbn zeta.
  destruct (fault_now _); [done|].
  destruct (fault_now _); [done|]. intros [= <-]. cbn. repeat split; try done.
  unfold index_ids. cbn. by apply list_elem_of_singleton.
Qed.

Lemma saveCampaign_frame campaign w :
  exists b, (saveCampaign campaign w).1 = Val b /\
  w_clock (saveCampaign campaign w).2 = w_clock w /\
  w_ticks (saveCampaign campaign w).2 = w_ticks w /\
  w_remote (saveCampaign campaign w).2 = w_remote w /\
  w_sent (saveCampaign campaign w).2 = w_sent w /\
  w_kv_fault (saveCampaign campaign w).2 = w_kv_fault w /\
  w_api_key (saveCampaign campaign w).2 = w_api_key w /\
  (w_campaigns (saveCampaign campaign w).2 = w_campaigns w
   \/ w_campaigns (saveCampaign campaign w).2 = <[id campaign := campaign]> (w_campaigns w)) /\
  (b = false -> w_index (saveCampaign campaign w).2 = w_index w).
Proof.
  rewrite saveCampaign_eq.
  destruct (isValidId (id campaign)); cbn [negb]; [|exists false; by repeat split; auto].
  destruct (fault_now w); [exists false; by repeat split; auto|]. cbn zeta.
  destruct (fault_now _); [exists false; repeat split; auto|].
  destruct (fault_now _); [exists false; repeat split; auto|].
  exists true; repeat split; auto; done.
Qed.

(* ================================================================== *)
(** ** Listing *)
(* ================================================================== *)

(** The index read by [getCampaignIndex] is always empty, so [listCampaigns]
    starts no read of a record. *)
Lemma listCampaigns_eq w : listCampaigns w = (Val [], kv_called w).
Proof.
  unfold listCampaigns, try_catch, bind. rewrite getCampaignIndex_eq.
  by destruct (fault_now w).
Qed.

Lemma listed_nil w : listed w = [].
Proof. unfold listed. by rewrite listCampaigns_eq. Qed.

Lemma listCampaigns_listed w :
  listCampaigns w = (Val (listed w), (listCampaigns w).2) /\
  store_of (listCampaigns w).2 = store_of w /\
  listed w = [].
Proof. by rewrite listed_nil, listCampaigns_eq. Qed.

Lemma findCampaignsByTopic_nil wanted w :
  findCampaignsByTopic wanted w
  = (Val [], if truthy (trim wanted) then kv_called w else w).
Proof.
  unfold findCampaignsByTopic. destruct (truthy (trim wanted)); [|done]. cbn [negb].
  unfold try_catch, bind. by rewrite listCampaigns_eq.
Qed.

(** X6. listCampaigns returns the empty list in every world, whatever the
    index and the records hold, after exactly one call to the store, and
    findCampaignsByTopic returns the empty list for every topic, after one
    call to the store or, for a blank topic, none. Neither throws, and
    neither changes the store, the clock or what was sent. *)
Theorem listing_and_search_are_empty wanted w :
  listCampaigns w = (Val [], kv_called w) /\
  findCampaignsByTopic wanted w
  = (Val [], if truthy (trim wanted) then kv_called w else w).
Proof. split; [apply listCampaigns_eq|apply findCampaignsByTopic_nil]. Qed.

(** X7. After a saveCampaign that returned true, whatever failed during it,
    the record is stored under its id and the index holds this id. The
    route GET /:id then replies with the record (status 500 when its read
    fails), while getCampaign returns null for it and listCampaigns returns
    the empty list. *)
Theorem saved_campaign_is_stored campaign w w' :
  saveCampaign campaign w = (Val true, w') ->
  w_campaigns w' !! id campaign = Some campaign /\
  id campaign ∈ index_ids w' /\
  (router_get (id campaign) w').1
  = Val (if fault_now w' then ItemError 500 "Failed to get campaign"
         else ItemOk campaign) /\
  (getCampaign (id campaign) w').1 = Val None /\
  (listCampaigns w').1 = Val [].
Proof.
  intros Hsave. apply saveCampaign_true in Hsave as (Hid & Hc & _ & Hin & _).
  assert (Hlook : w_campaigns w' !! id campaign = Some campaign)
    by (by rewrite Hc, lookup_insert_eq).
  split; [exact Hlook|]. split; [exact Hin|]. split; [|split].
  - unfold router_get. rewrite isValidId_trim in Hid. rewrite Hid. cbn [negb].
    unfold try_catch, bind, kv_get_campaign. rewrite kv_call_eq.
    destruct (fault_now w'); [done|]. cbn [fst snd]. by rewrite Hlook.
  - by rewrite getCampaign_null.
  - by rewrite listCampaigns_eq.
Qed.

Lemma saved_campaign_is_stored_witness :
  let w' := (saveCampaign campaign_a (quiet_world always_accepts ∅ None None)).2 in
  (router_get "a" w').1 = Val (ItemOk campaign_a) /\
  (getCampaign "a" w').1 = Val None.
Proof.
  cbn zeta.
  destruct (saved_campaign_is_stored campaign_a
              (quiet_world always_accepts ∅ None None)
              (saveCampaign campaign_a (quiet_world always_accepts ∅ None None)).2)
    as (_ & _ & E1 & E2 & _); [reflexivity|].
  split; [exact E1|exact E2].
Defined.

(** X8. When the write of the record succeeds and the read of the index after it
    fails, saveCampaign returns false although the record is now stored; the
    index is unchanged. In general saveCampaign never throws, and a save
    that returns false leaves the index as it was. *)
Theorem failed_save_can_leave_record campaign w :
  isValidId (id campaign) = true ->
  fault_now w = false ->
  w_kv_fault w (S (w_kv_calls w)) = true ->
  (saveCampaign campaign w).1 = Val false /\
  w_campaigns (saveCampaign campaign w).2 !! id campaign = Some campaign /\
  w_index (saveCampaign campaign w).2 = w_index w /\
  (forall c0 w0, exists b,
      (saveCampaign c0 w0).1 = Val b /\
      (b = false -> w_index (saveCampaign c0 w0).2 = w_index w0)).
Proof.
  intros Hid H0 H1. split; [|split; [|split]].
  - rewrite saveCampaign_eq, Hid, H0. cbn [negb]. cbn zeta.
    unfold fault_now at 1. cbn [w_kv_fault w_kv_calls kv_called with_campaigns].
    by rewrite H1.
  - rewrite saveCampaign_eq, Hid, H0. cbn [negb]. cbn zeta.
    unfold fault_now at 1. cbn [w_kv_fault w_kv_calls kv_called with_campaigns].
    rewrite H1. cbn. apply lookup_insert_eq.
  - rewrite saveCampaign_eq, Hid, H0. cbn [negb]. cbn zeta.
    unfold fault_now at 1. cbn [w_kv_fault w_kv_calls kv_called with_campaigns].
    by rewrite H1.
  - intros c0 w0. destruct (saveCampaign_frame c0 w0) as (b & E & _ & _ & _ & _ & _ & _ & _ & Hb).
    by exists b.
Qed.

Lemma failed_save_can_leave_record_witness :
  (saveCampaign campaign_a (faulty_world (fault_at 1) ∅ None)).1 = Val false /\
  w_campaigns (saveCampaign campaign_a (faulty_world (fault_at 1) ∅ None)).2 !! "a"
  = Some campaign_a /\
  w_index (saveCampaign campaign_a (faulty_world (fault_at 1) ∅ None)).2 = None.
Proof.
  destruct (failed_save_can_leave_record campaign_a (faulty_world (fault_at 1) ∅ None))
    as (H1 & H2 & H3 & _); [reflexivity..|].
  split; [exact H1|]. split; [exact H2|exact H3].
Defined.

(** X9. On a store that answers every call, saving a campaign with a valid id
    twice leaves the store as after saving it once, and both saves return
    true. *)
Theorem save_is_idempotent campaign w :
  no_faults w -> isValidId (id campaign) = true ->
  let w1 := (saveCampaign campaign w).2 in
  let w2 := (saveCampaign campaign w1).2 in
  (saveCampaign campaign w).1 = Val true /\
  (saveCampaign campaign w1).1 = Val true /\
  store_of w2 = store_of w1.
Proof.
  intros Hq Hid w1 w2. subst w1 w2.
  rewrite (saveCampaign_run campaign w Hq Hid). cbn [fst snd].
  destruct (save_world_frame campaign w) as (Hc & Hi & _ & _ & _ & _ & Hf & _).
  assert (Hq' : no_faults (save_world campaign w)) by (by apply (no_faults_same w)).
  rewrite (saveCampaign_run campaign _ Hq' Hid). cbn [fst snd].
  split; [done|]. split; [done|].
  destruct (save_world_frame campaign (save_world campaign w)) as (Hc' & Hi' & _).
  unfold store_of. by rewrite Hc', Hi', Hc, Hi, insert_insert_eq.
Qed.

Lemma save_is_idempotent_witness :
  store_of (saveCampaign campaign_a
              (saveCampaign campaign_a (quiet_world always_accepts ∅ None None)).2).2
  = store_of (saveCampaign campaign_a (quiet_world always_accepts ∅ None None)).2.
Proof.
  destruct (save_is_idempotent campaign_a (quiet_world always_accepts ∅ None None))
    as (_ & _ & E); [by intros n|reflexivity|].
  exact E.
Defined.

(* ================================================================== *)
(** ** Searching by topic *)
(* ================================================================== *)

Lemma findCampaignsByTopic_eq wanted w :
  findCampaignsByTopic wanted w
  = if truthy (trim wanted)
    then (Val (topic_matches (trim (toLowerCase wanted)) (listed w)), (listCampaigns w).2)
    else (Val [], w).
Proof.
  unfold findCampaignsByTopic. destruct (truthy (trim wanted)); [|done]. cbn [negb].
  unfold try_catch, bind. destruct (listCampaigns_listed w) as (-> & _).
  cbn zeta. unfold topic_matches.
  fold (exact_match (trim (toLowerCase wanted))).
  fold (partial_match (trim (toLowerCase wanted))).
  by destruct (List.filter (exact_match _) (listed w)).
Qed.





(* ================================================================== *)
(** ** Creating campaigns and updating their status *)
(* ================================================================== *)

Lemma saveCampaign_val campaign w :
  exists b, saveCampaign campaign w = (Val b, (saveCampaign campaign w).2).
Proof.
  destruct (saveCampaign_frame campaign w) as (b & E & _). exists b.
  destruct (saveCampaign campaign w) as [r w']. cbn in *. by subst.
Qed.

Lemma append_inj_l (p a b : string) : p +:+ a = p +:+ b -> a = b.
Proof.
  induction p as [|c p IH]; [done|].
  change (String c (p +:+ a) = String c (p +:+ b) -> a = b). intros [= E]. auto.
Qed.

Lemma campaign_id_valid (x : string) : isValidId ("campaign-" +:+ x) = true.
Proof.
  rewrite isValidId_trim. unfold trim.
  change (trimStart ("campaign-" +:+ x)) with (String "c" ("ampaign-" +:+ x)).
  by rewrite trimEnd_cons.
Qed.

Section Creation.
Context `{D : DateFns}.

Lemma createCampaign_eq wanted about publish w :
  createCampaign wanted about publish w
  = if truthy (trim wanted)
    then
      let campaign := created wanted about publish w in
      (match (saveCampaign campaign (tick (tick w))).1 with
       | Val true => Val campaign
       | _ => Exn "Failed to save campaign"
       end, (saveCampaign campaign (tick (tick w))).2)
    else (Exn "Invalid topic provided", w).
Proof.
  unfold createCampaign. destruct (truthy (trim wanted)); [|done]. cbn [negb].
  unfold bind at 1, newDate at 1. unfold bind at 1, newDate at 1.
  cbn [w_clock w_ticks tick]. fold (created wanted about publish w). cbn zeta.
  unfold bind. destruct (saveCampaign_val (created wanted about publish w) (tick (tick w)))
    as (b & ->). cbn [fst snd]. by destruct b.
Qed.

(** What a creation with a topic that is not blank leaves behind. *)
Lemma createCampaign_outcome wanted about publish w :
  truthy (trim wanted) = true ->
  match (createCampaign wanted about publish w).1 with
  | Val campaign' =>
      campaign' = created wanted about publish w /\
      w_campaigns (createCampaign wanted about publish w).2
        !! id (created wanted about publish w)
      = Some (created wanted about publish w) /\
      id (created wanted about publish w)
        ∈ index_ids (createCampaign wanted about publish w).2
  | Exn msg =>
      msg = "Failed to save campaign" /\
      w_index (createCampaign wanted about publish w).2 = w_index w
  end.
Proof.
  rewrite createCampaign_eq. set (campaign := created wanted about publish w).
  intros ->. cbn zeta. cbn [fst snd].
  destruct (saveCampaign campaign (tick (tick w))) as [[[]|e] w'] eqn:E; cbn [fst snd].
  - apply saveCampaign_true in E as (_ & Hc & _ & Hin & _).
    split; [done|]. split; [by rewrite Hc, lookup_insert_eq|done].
  - split; [done|].
    destruct (saveCampaign_frame campaign (tick (tick w)))
      as (b & Eb & _ & _ & _ & _ & _ & _ & _ & Hix).
    rewrite E in Eb, Hix. cbn in Eb, Hix. injection Eb as <-. by apply Hix.
  - destruct (saveCampaign_val campaign (tick (tick w))) as (b & Eb).
    by rewrite E in Eb.
Qed.

(** X11. createCampaign throws "Invalid topic provided" on a blank topic and
    touches nothing. Otherwise it either returns the campaign it built,
    which is then stored under its id and indexed, or throws "Failed to save
    campaign", and then the index is as before. The campaign built has the
    id "campaign-" followed by the first clock reading, the topic as given,
    status planning, no content, no scheduling information and equal time
    stamps. *)
Theorem createCampaign_spec wanted about publish w :
  let campaign := created wanted about publish w in
  let result := createCampaign wanted about publish w in
  (truthy (trim wanted) = false -> result = (Exn "Invalid topic provided", w)) /\
  (truthy (trim wanted) = true ->
   match result.1 with
   | Val campaign' =>
       campaign' = campaign /\
       w_campaigns result.2 !! id campaign = Some campaign /\
       id campaign ∈ index_ids result.2
   | Exn msg =>
       msg = "Failed to save campaign" /\ w_index result.2 = w_index w
   end) /\
  topic campaign = wanted /\ campaign_status campaign = planning /\
  campaign_content campaign = None /\ schedulingInfo campaign = None /\
  createdAt campaign = updatedAt campaign /\ isValidId (id campaign) = true.
Proof.
  intros campaign result. subst campaign result. split.
  - intros Hblank. by rewrite createCampaign_eq, Hblank.
  - split; [apply createCampaign_outcome|].
    repeat split. apply campaign_id_valid.
Qed.

Lemma createCampaign_ok wanted about publish w campaign w' :
  createCampaign wanted about publish w = (Val campaign, w') ->
  campaign = created wanted about publish w /\
  saveCampaign campaign (tick (tick w)) = (Val true, w').
Proof.
  rewrite createCampaign_eq. destruct (truthy (trim wanted)); [|done]. cbn zeta.
  destruct (saveCampaign _ (tick (tick w))) as [[[]|e] w''] eqn:E; cbn [fst snd]; try done.
  intros [= <- <-]. done.
Qed.

(** X12. Two campaigns created one after the other have the same id exactly when
    the two clock readings their ids are made of are equal, and then the
    record of the second has replaced that of the first. With different
    readings both records are stored. *)
Theorem campaign_ids_follow_the_clock
    wanted1 about1 publish1 wanted2 about2 publish2 w c1 w1 c2 w2 :
  createCampaign wanted1 about1 publish1 w = (Val c1, w1) ->
  createCampaign wanted2 about2 publish2 w1 = (Val c2, w2) ->
  (id c1 = id c2 <-> w_clock w (w_ticks w) = w_clock w (w_ticks w + 2)) /\
  (id c1 = id c2 -> w_campaigns w2 !! id c1 = Some c2) /\
  (id c1 <> id c2 ->
   w_campaigns w2 !! id c1 = Some c1 /\ w_campaigns w2 !! id c2 = Some c2).
Proof.
  intros H1 H2.
  apply createCampaign_ok in H1 as (-> & S1). apply createCampaign_ok in H2 as (-> & S2).
  apply saveCampaign_true in S1 as (_ & Hc1 & _ & _ & Hk1 & Ht1 & _).
  apply saveCampaign_true in S2 as (_ & Hc2 & _).
  cbn [tick w_clock w_ticks] in Hk1, Ht1.
  assert (Eid2 : id (created wanted2 about2 publish2 w1)
                 = "campaign-" +:+ pretty (w_clock w (w_ticks w + 2))).
  { unfold created. cbn [id]. rewrite Hk1, Ht1. do 3 f_equal. lia. }
  assert (Eid1 : id (created wanted1 about1 publish1 w)
                 = "campaign-" +:+ pretty (w_clock w (w_ticks w))) by done.
  split; [|split].
  - rewrite Eid1, Eid2. split.
    + intros E%append_inj_l. by apply (inj pretty) in E.
    + by intros ->.
  - intros E. rewrite Hc2, <- E. apply lookup_insert_eq.
  - intros Hne. rewrite Hc2. split.
    + rewrite lookup_insert_ne by done. cbn [tick w_campaigns].
      rewrite Hc1. apply lookup_insert_eq.
    + apply lookup_insert_eq.
Qed.

(** X13. updateCampaignStatus returns null for every id and every status and
    writes nothing, also when the campaign is stored under the id: it makes
    one call to the store for a valid id and none otherwise, does not read
    the clock, and leaves every record, with its status, as it was. *)
Theorem updateCampaignStatus_returns_null cid st w :
  updateCampaignStatus cid st w
  = (Val None, if isValidId cid then kv_called w else w) /\
  store_of (updateCampaignStatus cid st w).2 = store_of w /\
  w_ticks (updateCampaignStatus cid st w).2 = w_ticks w /\
  (forall campaign, w_campaigns w !! cid = Some campaign ->
     (w_campaigns (updateCampaignStatus cid st w).2 !! cid ≫= Some ∘ campaign_status)
     = Some (campaign_status campaign)).
Proof.
  rewrite updateCampaignStatus_null. split; [done|].
  destruct (isValidId cid); cbn [fst snd]; (split; [done|]); (split; [done|]);
    intros campaign Hc; cbn [w_campaigns kv_called]; by rewrite Hc.
Qed.

End Creation.

Lemma campaign_ids_follow_the_clock_witness :
  let w := quiet_world always_accepts ∅ None None in
  let c1 := @created utc "first" None None w in
  let w1 := (@createCampaign utc "first" None None w).2 in
  let c2 := @created utc "second" None None w1 in
  let w2 := (@createCampaign utc "second" None None w1).2 in
  id c1 = id c2 /\ w_campaigns w2 !! id c1 = Some c2 /\ topic c2 = "second".
Proof.
  intros w c1 w1 c2 w2.
  destruct (@campaign_ids_follow_the_clock utc "first" None None "second" None None
              w c1 w1 c2 w2) as (Hiff & H & _).
  - vm_compute. reflexivity.
  - vm_compute. reflexivity.
  - assert (E : id c1 = id c2) by (apply Hiff; reflexivity).
    split; [exact E|]. split; [exact (H E)|reflexivity].
Defined.

(* ================================================================== *)
(** ** Properties that runs keep *)
(* ================================================================== *)

Lemma preserves_ret {A} P (a : A) : preserves P (ret a).
Proof. by intros w Hw. Qed.

Lemma preserves_throw {A} P msg : preserves P (@throw A msg).
Proof. by intros w Hw. Qed.

Lemma preserves_bind {A B} P (m : M A) (k : A -> M B) :
  preserves P m -> (forall a, preserves P (k a)) -> preserves P (bind m k).
Proof.
  intros Hm Hk w Hw. unfold bind. specialize (Hm w Hw).
  destruct (m w) as [[a|e] w']; cbn in *; [by apply Hk|done].
Qed.

Lemma preserves_try_catch {A} P (m : M A) (h : string -> M A) :
  preserves P m -> (forall e, preserves P (h e)) -> preserves P (try_catch m h).
Proof.
  intros Hm Hh w Hw. unfold try_catch. specialize (Hm w Hw).
  destruct (m w) as [[a|e] w']; cbn in *; [done|by apply Hh].
Qed.

Lemma preserves_lift {A} P (f : World -> A * World) :
  (forall w, P w -> P (f w).2) -> preserves P (lift f).
Proof. intros Hf w Hw. unfold lift. specialize (Hf w Hw). by destruct (f w). Qed.

Lemma preserves_settle {A} P (m : M A) : preserves P m -> preserves P (settle m).
Proof.
  intros Hm w Hw. unfold settle. specialize (Hm w Hw). by destruct (m w) as [[a|e] w'].
Qed.

Lemma preserves_kv_call {A} Q (op : World -> A * World) :
  (forall w, Q (store_of w) -> Q (store_of (op w).2)) ->
  preserves (on_store Q) (kv_call op).
Proof.
  intros Hop w Hw. rewrite kv_call_eq. destruct (fault_now w); [done|]. by apply Hop.
Qed.

Section Kept.
Context (Q : Store -> Prop).

Lemma keeps_newDate : preserves (on_store Q) newDate.
Proof. by intros w Hw. Qed.

Lemma keeps_fetch rq : preserves (on_store Q) (fetch rq).
Proof. by intros w Hw. Qed.

Lemma keeps_env_api_key : preserves (on_store Q) env_api_key.
Proof. by intros w Hw. Qed.

Lemma keeps_kv_get_campaign key : preserves (on_store Q) (kv_get_campaign key).
Proof. by apply preserves_kv_call. Qed.

Lemma keeps_kv_get_index : preserves (on_store Q) kv_get_index.
Proof. by apply preserves_kv_call. Qed.

Lemma keeps_getCampaign cid : preserves (on_store Q) (getCampaign cid).
Proof. intros w Hw. rewrite getCampaign_null. by destruct (isValidId cid). Qed.

Lemma keeps_same_store w w' : same_store w w' -> on_store Q w -> on_store Q w'.
Proof. unfold on_store, store_of. intros (-> & -> & _). done. Qed.

Lemma keeps_getValidDate `{D : DateFns} hint ef : preserves (on_store Q) (getValidDate hint ef).
Proof. intros w Hw. destruct (getValidDate_runs hint ef w) as (s & n & ->). done. Qed.

Lemma keeps_scheduleContent `{D : DateFns} campaign sdate info apiKey :
  preserves (on_store Q) (lift (scheduleContent campaign sdate info apiKey)).
Proof.
  apply preserves_lift. intros w Hw.
  destruct (scheduleContent_frame campaign sdate info apiKey w) as [Hs _].
  by apply (keeps_same_store w).
Qed.

Hypothesis closed : save_closed Q.

Lemma keeps_saveCampaign campaign : preserves (on_store Q) (saveCampaign campaign).
Proof.
  intros w Hw. rewrite saveCampaign_eq.
  destruct (isValidId (id campaign)) eqn:Hid; [|done]. cbn [negb].
  destruct (fault_now w); [done|]. cbn zeta.
  assert (H1 : Q (mkStore (<[id campaign := campaign]> (w_campaigns w)) (w_index w))).
  { apply (closed (store_of w)); [|done]. by constructor. }
  destruct (fault_now _); [done|].
  destruct (fault_now _); [done|].
  unfold on_store, store_of. cbn.
  apply (closed (mkStore (<[id campaign := campaign]> (w_campaigns w)) (w_index w)));
    [|done].
  constructor; [done|]. rewrite lookup_insert_eq. by eexists.
Qed.

Ltac keep_step :=
  match goal with
  | |- preserves _ (try_catch _ _) => apply preserves_try_catch; [|intros ?]
  | |- preserves _ (bind _ _) => apply preserves_bind; [|intros ?]
  | |- preserves _ (ret _) => apply preserves_ret
  | |- preserves _ (throw _) => apply preserves_throw
  | |- preserves _ (saveCampaign _) => apply keeps_saveCampaign
  | |- preserves _ (getCampaign _) => apply keeps_getCampaign
  | |- preserves _ newDate => apply keeps_newDate
  | |- preserves _ env_api_key => apply keeps_env_api_key
  | |- preserves _ (getValidDate _ _) => apply keeps_getValidDate
  | |- preserves _ (lift (scheduleContent _ _ _ _)) => apply keeps_scheduleContent
  | |- preserves _ (if ?b then _ else _) => destruct b
  | |- preserves _ (match ?x with _ => _ end) => destruct x
  | |- preserves _ _ => progress cbn zeta
  end.

Section WithDates.
Context `{D : DateFns}.

Lemma keeps_updateCampaignStatus cid st :
  preserves (on_store Q) (updateCampaignStatus cid st).
Proof. unfold updateCampaignStatus. repeat keep_step. Qed.

Lemma keeps_createCampaign wanted about publish :
  preserves (on_store Q) (createCampaign wanted about publish).
Proof. unfold createCampaign. repeat keep_step. Qed.

Lemma keeps_handler input : preserves (on_store Q) (handler input).
Proof.
  unfold handler. repeat (keep_step || apply keeps_updateCampaignStatus).
Qed.

Lemma keeps_findCampaignsByTopic wanted :
  preserves (on_store Q) (findCampaignsByTopic wanted).
Proof.
  intros w Hw. rewrite findCampaignsByTopic_eq. destruct (truthy (trim wanted)); [|done].
  destruct (listCampaigns_listed w) as (_ & Hs & _). unfold on_store. cbn [snd].
  by rewrite Hs.
Qed.

Lemma keeps_manager generated input : preserves (on_store Q) (Manager.handler generated input).
Proof.
  unfold Manager.handler.
  repeat (keep_step || apply keeps_findCampaignsByTopic || apply keeps_createCampaign).
Qed.

Lemma keeps_copywriter generatedPosts generatedThreads input :
  preserves (on_store Q) (Copywriter.handler generatedPosts generatedThreads input).
Proof.
  unfold Copywriter.handler, Copywriter.schedulerAgent_run.
  repeat (keep_step || apply keeps_updateCampaignStatus || apply keeps_handler).
Qed.

End WithDates.
End Kept.

(** The stores a deletion can leave. *)
Lemma router_delete_store x w :
  let w' := (router_delete x w).2 in
  store_of w' = store_of w
  \/ store_of w' = mkStore (w_campaigns w) (Some (without x (index_ids w)))
  \/ store_of w' = mkStore (delete x (w_campaigns w)) (Some (without x (index_ids w))).
Proof.
  cbn zeta. destruct (router_delete x w) as [res w'] eqn:Erun. cbn [fst snd].
  unfold router_delete in Erun.
  destruct (truthy (trim x)); cbn [negb] in Erun.
  2:{ injection Erun as <- <-. by left. }
  unfold try_catch, bind, kv_get_campaign in Erun. rewrite kv_call_eq in Erun.
  destruct (fault_now w). { injection Erun as <- <-. by left. }
  cbn [fst snd] in Erun.
  destruct (w_campaigns w !! x) as [record|].
  2:{ injection Erun as <- <-. by left. }
  destruct (indexRetryLoop_cases x maxRetries (kv_called w)) as (Hc & Hf & Hk & Hcase).
  destruct (indexRetryLoop x maxRetries (kv_called w)) as [r w1].
  cbn [fst snd] in *.
  destruct Hcase as [[-> Hi]|[-> Hi]]; cbn [negb] in Erun.
  - unfold kv_delete_campaign in Erun. rewrite kv_call_eq in Erun.
    destruct (fault_now w1).
    + injection Erun as <- <-. right; left. unfold store_of. cbn. by rewrite Hc, Hi.
    + injection Erun as <- <-. right; right. unfold store_of. cbn. by rewrite Hc, Hi.
  - injection Erun as <- <-. left. unfold store_of. by rewrite Hc, Hi.
Qed.

(* ================================================================== *)
(** ** Invariants of the store *)
(* ================================================================== *)

Lemma well_keyed_closed :
  save_closed (fun s => forall key campaign,
                 s_campaigns s !! key = Some campaign -> id campaign = key).
Proof.
  intros s s' Hw Hs key campaign. destruct Hw as [m ix c Hc|m ix cid _ _]; cbn in *.
  - destruct (decide (id c = key)) as [<-|Hne].
    + rewrite lookup_insert_eq. by intros [= <-].
    + rewrite lookup_insert_ne by done. apply Hs.
  - apply Hs.
Qed.

Lemma well_keyed_delete x (m : gmap string Campaign) :
  (forall key campaign, m !! key = Some campaign -> id campaign = key) ->
  forall key campaign, delete x m !! key = Some campaign -> id campaign = key.
Proof. intros Hm key campaign [_ H]%lookup_delete_Some. by apply Hm. Qed.

Section Calls.
Context `{D : DateFns}.

(** A property that the writes of a save keep and that a deletion keeps is
    kept by every sequence of runs. *)
Lemma call_run_keeps (Q : Store -> Prop) c w :
  save_closed Q ->
  (forall x w0, c = CallDelete x -> on_store Q w0 -> on_store Q (router_delete x w0).2) ->
  on_store Q w -> on_store Q (call_run c w).
Proof.
  intros Hc Hd Hw.
  destruct c as [campaign|campaignId st|wanted about publish|input|generated input
                |generatedPosts generatedThreads input|x]; cbn [call_run].
  - by apply (keeps_saveCampaign _ Hc).
  - by apply (keeps_updateCampaignStatus _ Hc).
  - by apply (keeps_createCampaign _ Hc).
  - by apply (keeps_handler _ Hc).
  - by apply (keeps_manager _ Hc).
  - by apply (keeps_copywriter _ Hc).
  - by apply (Hd x).
Qed.

(** X14. If every record is stored under its own id, this remains so after any
    sequence of runs of saveCampaign, updateCampaignStatus, createCampaign,
    the scheduler, the manager, the copywriter and the deletion route, under
    any pattern of store failures and any answers of the language model and
    of the publishing service. *)
Theorem records_stay_under_their_ids (calls : list Call) w :
  well_keyed w -> well_keyed (call_runs calls w).
Proof.
  revert w. induction calls as [|c calls IH]; intros w Hw; [done|].
  cbn [call_runs]. apply IH.
  apply (call_run_keeps _ c w well_keyed_closed); [|exact Hw].
  intros x w0 _ Hw0. unfold on_store.
  destruct (router_delete_store x w0) as [E|[E|E]]; cbn zeta in E; rewrite E; try done.
  cbn. by apply well_keyed_delete.
Qed.

Lemma index_leads_closed :
  save_closed (fun s => forall cid, cid ∈ default [] (s_index s) ->
                 isValidId cid = true -> is_Some (s_campaigns s !! cid)).
Proof.
  intros s s' Hw Hs cid. destruct Hw as [m ix c Hc|m ix x Hx Hrec]; cbn in *.
  - intros Hin Hv. apply lookup_insert_is_Some'. right. by apply Hs.
  - change (default [] (Some [x])) with [x].
    by intros ->%list_elem_of_singleton Hv.
Qed.

(** X15. If every valid id of the index has a record, this remains so after any
    sequence of runs of the same entry points, under any pattern of
    failures: a save writes the record before it writes the index, and the
    deletion route rewrites the index before it deletes the record. *)
Theorem index_keeps_leading_to_records (calls : list Call) w :
  index_leads_to_records w -> index_leads_to_records (call_runs calls w).
Proof.
  revert w. induction calls as [|c calls IH]; intros w Hw; [done|].
  cbn [call_runs]. apply IH.
  apply (call_run_keeps _ c w index_leads_closed); [|exact Hw].
  intros x w0 _ Hw0. unfold on_store.
  destruct (router_delete_store x w0) as [E|[E|E]]; cbn zeta in E; rewrite E; try done.
  - cbn. intros cid. change (default [] (Some (without x (index_ids w0))))
      with (without x (index_ids w0)).
    intros [Hin _]%elem_without Hv. by apply Hw0.
  - cbn. intros cid. change (default [] (Some (without x (index_ids w0))))
      with (without x (index_ids w0)).
    intros [Hin Hne]%elem_without Hv. rewrite lookup_delete_ne by done. by apply Hw0.
Qed.

Lemma has_record_closed key :
  save_closed (fun s => is_Some (s_campaigns s !! key)).
Proof.
  intros s s' Hw Hs. destruct Hw as [m ix c Hc|m ix x Hx Hrec]; cbn in *; [|done].
  apply lookup_insert_is_Some'. by right.
Qed.

(** X16. Through any sequence of runs of the entry points that contains no
    deletion request for a key, a record stored under that key stays stored
    under it (possibly updated). The index does not keep its entries in this
    way: a save that returns true leaves an index that holds no other id
    than the one of the campaign saved. *)
Theorem records_stay_index_entries_do_not (calls : list Call) key w :
  Forall (fun c => ~ call_deletes key c) calls ->
  (is_Some (w_campaigns w !! key) -> is_Some (w_campaigns (call_runs calls w) !! key)) /\
  (forall campaign w0,
     (saveCampaign campaign w0).1 = Val true -> key <> id campaign ->
     ~ key ∈ index_ids (saveCampaign campaign w0).2).
Proof.
  intros Hnd. split.
  - revert w Hnd. induction calls as [|c calls IH]; intros w Hnd; [done|].
    apply Forall_cons in Hnd as [Hc Hnd]. cbn [call_runs].
    intros Hw. apply (IH _ Hnd).
    apply (call_run_keeps _ c w (has_record_closed key)); [|exact Hw].
    intros x w0 -> Hw0. unfold on_store. cbn in Hc.
    destruct (router_delete_store x w0) as [E|[E|E]]; cbn zeta in E; rewrite E; try done.
    cbn. rewrite lookup_delete_ne by done. exact Hw0.
  - intros campaign w0 Hsave Hne.
    destruct (saveCampaign campaign w0) as [r w1] eqn:E. cbn [fst snd] in *. subst r.
    apply saveCampaign_true in E as (_ & _ & Hix & _).
    unfold index_ids. rewrite Hix. change (default [] (Some [id campaign])) with [id campaign].
    by intros ->%list_elem_of_singleton.
Qed.

End Calls.

Lemma sample_world_well_keyed remote : well_keyed (sample_world remote).
Proof.
  intros key campaign. unfold sample_world, quiet_world. cbn [w_campaigns].
  intros [<- <-]%lookup_singleton_Some. reflexivity.
Qed.

Lemma records_stay_under_their_ids_witness :
  well_keyed (sample_world d1_service) /\
  well_keyed (@call_runs utc [CallScheduler sample_request; CallDelete "c1"]
                (sample_world d1_service)).
Proof.
  split; [apply sample_world_well_keyed|].
  apply (@records_stay_under_their_ids utc), sample_world_well_keyed.
Defined.

Lemma sample_world_index_leads remote : index_leads_to_records (sample_world remote).
Proof.
  intros cid. unfold sample_world, quiet_world, index_ids. cbn [w_campaigns w_index].
  change (default [] (Some ["c1"])) with ["c1"].
  intros ->%list_elem_of_singleton _. rewrite lookup_singleton_eq. by eexists.
Qed.

Lemma index_keeps_leading_to_records_witness :
  index_leads_to_records (sample_world d1_service) /\
  index_leads_to_records
    (@call_runs utc [CallCreate "launch" None None; CallDelete "c1"]
       (sample_world d1_service)).
Proof.
  split; [apply sample_world_index_leads|].
  apply (@index_keeps_leading_to_records utc), sample_world_index_leads.
Defined.

Lemma records_stay_index_entries_do_not_witness :
  is_Some (w_campaigns
             (@call_runs utc [CallSave campaign_a; CallDelete "zz"]
                (sample_world d1_service)) !! "c1") /\
  ~ "c1" ∈ index_ids (saveCampaign campaign_a (sample_world d1_service)).2.
Proof.
  destruct (@records_stay_index_entries_do_not utc
              [CallSave campaign_a; CallDelete "zz"] "c1"
              (sample_world d1_service)) as [H1 H2].
  - repeat constructor; cbn; [tauto|discriminate].
  - split.
    + apply H1. unfold sample_world, quiet_world. cbn [w_campaigns].
      rewrite lookup_singleton_eq. by eexists.
    + apply H2; [reflexivity|discriminate].
Defined.

(* ================================================================== *)
(** ** What the item loops write back *)
(* ================================================================== *)

Section Marks.
Context `{D : DateFns} {Item : Type}.
Variables (body : option Item -> option string) (plat : Platform) (thr : bool)
          (mkId : nat -> string) (mark : Item -> string -> string -> Item).
Hypothesis body_None : body None = None.
Hypothesis mkId_inj : forall i j, mkId i = mkId j -> i = j.
Variables (dates : list string) (apiKey : string).
Hypothesis dated : forall i, exists d, postDateAt i dates = Some d /\ d <> "".

(** One iteration on a dated slot, in full. *)
Lemma itemIteration_dated i item text d w :
  body (Some item) = Some text -> postDateAt i dates = Some d -> d <> "" ->
  itemIteration body plat thr mkId mark i item dates apiKey w
  = (Val match w_remote w (length (w_sent w)) (mkDraft text plat thr d apiKey) with
         | HttpOk tid => ([mkScheduled (mkId i) tid d st_scheduled], mark item d tid)
         | _ => ([mkScheduled (mkId i) "" d st_failed], item)
         end,
     sent (mkDraft text plat thr d apiKey) w).
Proof.
  intros Hb Hd Hne. unfold itemIteration, try_catch, bind at 1. rewrite Hb, Hd.
  unfold createTypefullyDraft, bind at 1 2. rewrite (or_tomorrow_date d w Hne).
  unfold fetch. cbn [fst snd].
  destruct (w_remote w (length (w_sent w)) _); unfold bind, ret, throw;
    by rewrite ?(or_tomorrow_date d _ Hne).
Qed.

Lemma itemLoop_ids slots : forall i w o,
  o ∈ (itemLoop body plat thr mkId mark i slots dates apiKey w).1.1 ->
  exists j, (i <= j)%nat /\ postId o = mkId j.
Proof.
  intros i w o Ho.
  destruct (itemLoop_spec body plat thr mkId mark body_None slots i dates apiKey w)
    as (rqs & Hout & _).
  destruct (record_of_dispatched _ _ _ _ _ _ _ _ _ _ o Hout Ho) as ([j text] & Hin & Hid).
  apply dispatchable_positions in Hin as (slot & Hle & _). by exists j.
Qed.

Lemma itemLoop_marks slots : forall i w k,
  let r := itemLoop body plat thr mkId mark i slots dates apiKey w in
  match slots !! k with
  | None => r.1.2 !! k = None
  | Some None => r.1.2 !! k = Some None
  | Some (Some item) =>
      (exists o, o ∈ r.1.1 /\ postId o = mkId (i + k)%nat /\ status o = st_scheduled /\
                 r.1.2 !! k = Some (Some (mark item (scheduledDate o) (typefullyId o))))
      \/ (r.1.2 !! k = Some (Some item) /\
          forall o, o ∈ r.1.1 -> postId o = mkId (i + k)%nat -> status o = st_failed)
  end.
Proof.
  induction slots as [|slot rest IH]; intros i w k; cbn zeta; [by destruct k|].
  destruct slot as [item|].
  - cbn [itemLoop].
    assert (Hrun : exists pushed item' w1,
      itemIteration body plat thr mkId mark i item dates apiKey w
      = (Val (pushed, item'), w1) /\
      ((exists o, pushed = [o] /\ postId o = mkId i /\ status o = st_scheduled /\
                  item' = mark item (scheduledDate o) (typefullyId o))
       \/ (item' = item /\ forall o, o ∈ pushed -> status o = st_failed)) /\
      forall o, o ∈ pushed -> postId o = mkId i).
    { destruct (body (Some item)) as [text|] eqn:Hb.
      - destruct (dated i) as (d & Hd & Hne).
        rewrite (itemIteration_dated i item text d w Hb Hd Hne).
        destruct (w_remote w _ _) as [tid|code st bd|msg]; eexists _, _, _;
          (split; [reflexivity|]); split.
        + left. by eexists.
        + by intros o ->%list_elem_of_singleton.
        + right. split; [done|]. by intros o ->%list_elem_of_singleton.
        + by intros o ->%list_elem_of_singleton.
        + right. split; [done|]. by intros o ->%list_elem_of_singleton.
        + by intros o ->%list_elem_of_singleton.
      - rewrite (itemIteration_skip body plat thr mkId mark i item dates apiKey w Hb).
        eexists _, _, _. split; [reflexivity|]. split.
        + right. split; [done|]. by intros o Ho%elem_of_nil.
        + by intros o Ho%elem_of_nil. }
    destruct Hrun as (pushed & item' & w1 & -> & Hcase & Hids).
    specialize (IH (S i) w1).
    pose proof (itemLoop_ids rest (S i) w1) as Hrest.
    destruct (itemLoop body plat thr mkId mark (S i) rest dates apiKey w1)
      as [[out rest'] w2]. cbn [fst snd] in *.
    destruct k as [|k]; cbn [lookup list_lookup].
    + rewrite Nat.add_0_r. destruct Hcase as [(o & -> & Hid & Hst & ->)|[-> Hf]].
      * left. exists o. split; [apply elem_of_cons; by left|]. by repeat split.
      * right. split; [done|]. intros o [Ho|Ho]%elem_of_app Hid; [by apply Hf|].
        destruct (Hrest o Ho) as (j & Hj & Ej). rewrite Ej in Hid.
        apply mkId_inj in Hid. lia.
    + specialize (IH k). cbn zeta in IH.
      replace (i + S k)%nat with (S i + k)%nat by lia.
      destruct (rest !! k) as [[item0|]|]; [|exact IH|exact IH].
      destruct IH as [(o & Ho & Hid & Hst & Hl)|[Hl Hf]].
      * left. exists o. split; [apply elem_of_app; by right|]. by repeat split.
      * right. split; [done|]. intros o [Ho|Ho]%elem_of_app Hid; [|by apply Hf].
        rewrite (Hids o Ho) in Hid. apply mkId_inj in Hid. lia.
  - cbn [itemLoop]. specialize (IH (S i) w).
    destruct (itemLoop body plat thr mkId mark (S i) rest dates apiKey w)
      as [[out rest'] w2]. cbn [fst snd] in *.
    destruct k as [|k]; cbn [lookup list_lookup]; [done|].
    specialize (IH k). cbn zeta in IH.
    replace (i + S k)%nat with (S i + k)%nat by lia. exact IH.
Qed.

End Marks.

Lemma dates_dated (dates : list string) :
  dates <> [] -> Forall (fun d => d <> "") dates ->
  forall i, exists d, postDateAt i dates = Some d /\ d <> "".
Proof.
  intros Hne Hall i. destruct (postDateAt_clamped dates i Hne) as (_ & d & Hd & _).
  exists d. split; [exact Hd|]. unfold postDateAt in Hd.
  by apply (Forall_lookup_1 _ _ _ _ Hall Hd).
Qed.

(** X17. With a nonempty list of nonempty dates, the posts (and likewise the
    threads) the scheduling loop hands back agree with its records position
    by position: a slot whose item was scheduled carries the date and the
    draft id of its record of status scheduled, and every other slot (empty,
    skipped or failed) is handed back as it was, any record under its id
    having status failed; the list keeps its length. *)
Theorem content_marked_as_recorded `{D : DateFns} (dates : list string) apiKey w :
  dates <> [] -> Forall (fun d => d <> "") dates ->
  (forall posts k,
     let r := scheduleLinkedInPosts posts dates apiKey w in
     match posts !! k with
     | None => r.1.2 !! k = None
     | Some None => r.1.2 !! k = Some None
     | Some (Some post) =>
         (exists o, o ∈ r.1.1 /\ postId o = linkedInPostId k /\ status o = st_scheduled /\
            r.1.2 !! k
            = Some (Some (set_post_schedule post (scheduledDate o) (typefullyId o))))
         \/ (r.1.2 !! k = Some (Some post) /\
             forall o, o ∈ r.1.1 -> postId o = linkedInPostId k -> status o = st_failed)
     end) /\
  (forall threads k,
     let r := scheduleTwitterThreads threads dates apiKey w in
     match threads !! k with
     | None => r.1.2 !! k = None
     | Some None => r.1.2 !! k = Some None
     | Some (Some thread) =>
         (exists o, o ∈ r.1.1 /\ postId o = twitterThreadId k /\ status o = st_scheduled /\
            r.1.2 !! k
            = Some (Some (set_thread_schedule thread (scheduledDate o) (typefullyId o))))
         \/ (r.1.2 !! k = Some (Some thread) /\
             forall o, o ∈ r.1.1 -> postId o = twitterThreadId k -> status o = st_failed)
     end).
Proof.
  intros Hne Hall. pose proof (dates_dated dates Hne Hall) as Hd. split.
  - intros posts k. cbn zeta. unfold scheduleLinkedInPosts.
    destruct dates as [|d0 ds]; [done|]. rewrite linkedInLoop_itemLoop.
    exact (itemLoop_marks postBody linkedin false linkedInPostId set_post_schedule
             eq_refl linkedInPostId_inj (d0 :: ds) apiKey Hd posts 0 w k).
  - intros threads k. cbn zeta. unfold scheduleTwitterThreads.
    destruct dates as [|d0 ds]; [done|]. rewrite twitterLoop_itemLoop.
    exact (itemLoop_marks threadBody twitter true twitterThreadId set_thread_schedule
             eq_refl twitterThreadId_inj (d0 :: ds) apiKey Hd threads 0 w k).
Qed.

Lemma content_marked_as_recorded_witness :
  let posts := [Some (post_of "ok"); Some (post_of "bad"); Some (post_of "")] in
  let r := @scheduleLinkedInPosts utc posts sample_dates "key"
             (quiet_world second_fails ∅ None (Some "key")) in
  sample_dates <> [] /\
  ((exists o, o ∈ r.1.1 /\ postId o = linkedInPostId 1 /\ status o = st_scheduled /\
      r.1.2 !! 1%nat
      = Some (Some (set_post_schedule (post_of "bad") (scheduledDate o) (typefullyId o))))
   \/ (r.1.2 !! 1%nat = Some (Some (post_of "bad")) /\
       forall o, o ∈ r.1.1 -> postId o = linkedInPostId 1 -> status o = st_failed)).
Proof.
  intros posts r.
  assert (Hne : sample_dates <> []) by done.
  assert (Hall : Forall (fun d : string => d <> "") sample_dates)
    by (repeat constructor; done).
  split; [exact Hne|].
  exact (proj1 (@content_marked_as_recorded utc sample_dates "key"
                  (quiet_world second_fails ∅ None (Some "key")) Hne Hall) posts 1%nat).
Defined.

(* ================================================================== *)
(** ** Runs of the scheduler under any pattern of failures *)
(* ================================================================== *)

Section SchedulerRuns.
Context `{D : DateFns}.

(** X18. Every run of the scheduler agent ends with an error reply: "Campaign ID
    is required" for a blank campaign id, and otherwise "Campaign not found
    with ID: " followed by the id, also when the campaign is stored with
    content and the API key is set. No run answers success, sends a
    request, reads the clock or writes to the store, and a run makes one
    call to the store, or none for a blank id. *)
Theorem scheduler_never_schedules input w :
  (handler input w).1
  = Val (OutError (if truthy (trim (rq_campaignId input))
                   then "Campaign not found with ID: " +:+ rq_campaignId input
                   else "Campaign ID is required")) /\
  (forall cid n msg, (handler input w).1 <> Val (OutSuccess cid n msg)) /\
  store_of (handler input w).2 = store_of w /\
  w_sent (handler input w).2 = w_sent w /\
  w_ticks (handler input w).2 = w_ticks w /\
  w_kv_calls (handler input w).2
  = (if truthy (trim (rq_campaignId input)) then S (w_kv_calls w) else w_kv_calls w).
Proof.
  rewrite handler_eq.
  destruct (truthy (trim (rq_campaignId input))); cbn [fst snd]; by repeat split.
Qed.

(** X19. When the campaign is not stored, has no content, or the API key is
    missing or empty, the scheduler answers with an error and has written
    nothing to the store, sent nothing, not read the clock, and made at most
    one call to the store. *)
Theorem nothing_to_schedule_nothing_touched input w :
  w_campaigns w !! rq_campaignId input = None
  \/ (exists campaign, w_campaigns w !! rq_campaignId input = Some campaign /\
                       campaign_content campaign = None)
  \/ w_api_key w = None \/ w_api_key w = Some "" ->
  exists msg,
    (handler input w).1 = Val (OutError msg) /\
    store_of (handler input w).2 = store_of w /\
    w_sent (handler input w).2 = w_sent w /\
    w_ticks (handler input w).2 = w_ticks w /\
    (w_kv_calls (handler input w).2 <= S (w_kv_calls w))%nat.
Proof.
  intros _. rewrite handler_eq.
  destruct (truthy (trim (rq_campaignId input))); cbn [fst snd];
    eexists; (split; [reflexivity|]); repeat split; cbn; lia.
Qed.

End SchedulerRuns.

Lemma nothing_to_schedule_nothing_touched_witness :
  exists msg,
    (@handler utc sample_request
       (quiet_world d1_service {["c1" := sample_campaign]} (Some ["c1"]) None)).1
    = Val (OutError msg) /\
    w_sent (@handler utc sample_request
              (quiet_world d1_service {["c1" := sample_campaign]} (Some ["c1"]) None)).2
    = [].
Proof.
  destruct (@nothing_to_schedule_nothing_touched utc sample_request
              (quiet_world d1_service {["c1" := sample_campaign]} (Some ["c1"]) None))
    as (msg & H1 & _ & H2 & _).
  - right; right; left. reflexivity.
  - exists msg. split; [exact H1|exact H2].
Defined.

(* ================================================================== *)
(** ** The reading routes *)
(* ================================================================== *)

Lemma filter_trim_valid ids :
  List.filter (fun cid => truthy (trim cid)) ids = List.filter isValidId ids.
Proof.
  induction ids as [|x l IH]; [done|]. cbn. by rewrite IH, isValidId_trim.
Qed.

Lemma readSettled_eq ids : forall w,
  exists results,
    readSettled ids w = (Val results, called (length ids) w) /\
    fulfilledValues results
    = omap (fun campaign => campaign)
        (reads (w_kv_fault w) (w_kv_calls w) (w_campaigns w) ids) /\
    forall w0,
      Rev1.allFulfilled results w0
      = (if faults_within (w_kv_fault w) (w_kv_calls w) (length ids)
         then Exn "kv: request failed"
         else Val (reads (w_kv_fault w) (w_kv_calls w) (w_campaigns w) ids), w0).
Proof.
  induction ids as [|cid ids IH]; intros w.
  - exists []. by rewrite called_0.
  - cbn [readSettled reads length faults_within]. unfold bind at 1, settle, kv_get_campaign.
    rewrite kv_call_eq.
    destruct (IH (kv_called w)) as (results & E & Hf & Hall).
    cbn [w_kv_fault w_kv_calls w_campaigns kv_called] in Hf, Hall.
    assert (Ec : called (length ids) (kv_called w) = called (S (length ids)) w).
    { rewrite kv_called_called, called_called. f_equal. lia. }
    rewrite Ec in E.
    unfold fault_now. destruct (w_kv_fault w (w_kv_calls w)) eqn:F.
    + exists (Rejected "kv: request failed" :: results).
      unfold bind, ret. rewrite E. split; [done|]. split; [exact Hf|]. done.
    + exists (Fulfilled (w_campaigns w !! cid) :: results). cbn [fst snd].
      unfold bind, ret. rewrite E. split; [done|]. split.
      { unfold fulfilledValues in *. cbn [omap list_omap].
        destruct (w_campaigns w !! cid); by rewrite Hf. }
      intros w0. cbn [Rev1.allFulfilled orb]. unfold bind, ret. rewrite Hall.
      by destruct (faults_within _ _ _).
Qed.

Lemma route_ids w :
  match w_index w with
  | Some ids => List.filter (fun cid => truthy (trim cid)) ids
  | None => []
  end = List.filter isValidId (index_ids w).
Proof. unfold index_ids. destruct (w_index w); [apply filter_trim_valid|done]. Qed.

Lemma reads_sublist fault campaigns ids : forall k,
  omap (fun campaign => campaign) (reads fault k campaigns ids)
  `sublist_of` omap (fun cid => campaigns !! cid) ids.
Proof.
  induction ids as [|cid ids IH]; intros k; [done|]. cbn [reads omap list_omap].
  destruct (fault k).
  - destruct (campaigns !! cid); [apply sublist_cons|]; apply IH.
  - destruct (campaigns !! cid); [apply sublist_skip|]; apply IH.
Qed.

Lemma reads_quiet fault campaigns ids : forall k,
  (forall n, fault n = false) ->
  reads fault k campaigns ids = map (fun cid => campaigns !! cid) ids.
Proof.
  induction ids as [|cid ids IH]; intros k Hq; [done|]. cbn. by rewrite Hq, IH.
Qed.

Lemma omap_map_lookup (campaigns : gmap string Campaign) ids :
  omap (fun campaign => campaign) (map (fun cid => campaigns !! cid) ids)
  = omap (fun cid => campaigns !! cid) ids.
Proof. induction ids as [|cid ids IH]; [done|]. cbn. by rewrite IH. Qed.

Lemma router_get_all_eq w :
  router_get_all w
  = if fault_now w then (Val (ListError 500 "Failed to list campaigns"), kv_called w)
    else
      let ids := List.filter isValidId (index_ids w) in
      (Val (ListOk (omap (fun campaign => campaign)
                      (reads (w_kv_fault w) (S (w_kv_calls w)) (w_campaigns w) ids))),
       called (S (length ids)) w).
Proof.
  unfold router_get_all, try_catch, bind at 1, kv_get_index. rewrite kv_call_eq.
  destruct (fault_now w) eqn:F; [done|]. cbn [fst snd]. rewrite route_ids. cbn zeta.
  destruct (List.filter isValidId (index_ids w)) as [|cid ids] eqn:E.
  - by rewrite kv_called_called.
  - destruct (readSettled_eq (cid :: ids) (kv_called w)) as (results & Er & Hf & _).
    unfold bind, ret. rewrite Er, Hf.
    cbn [w_kv_fault w_kv_calls w_campaigns kv_called fst snd].
    f_equal. rewrite kv_called_called, called_called. f_equal. cbn [length]. lia.
Qed.

(** X20. The listing route GET / never throws and leaves the store as it was. It
    replies 500 when the read of the index fails; otherwise it lists, in
    index order, records the valid ids of the index lead to, leaving out
    those whose read fails, and on a store that answers every call it lists
    them all. listCampaigns, on the same store, returns the empty list. *)
Theorem router_get_all_lists_indexed w :
  exists reply,
    (router_get_all w).1 = Val reply /\
    store_of (router_get_all w).2 = store_of w /\
    (fault_now w = true -> reply = ListError 500 "Failed to list campaigns") /\
    (fault_now w = false ->
     exists l, reply = ListOk l /\ l `sublist_of` indexed_campaigns w) /\
    (no_faults w -> reply = ListOk (indexed_campaigns w)) /\
    (listCampaigns w).1 = Val [].
Proof.
  rewrite router_get_all_eq, listCampaigns_eq. unfold indexed_campaigns.
  destruct (fault_now w) eqn:F.
  - eexists. split; [reflexivity|]. split; [done|]. split; [done|]. split; [done|].
    split; [|done]. intros Hq. unfold fault_now in F. by rewrite Hq in F.
  - cbn zeta. eexists. split; [reflexivity|]. split; [done|]. split; [done|].
    split; [|split; [|done]].
    + intros _. eexists. split; [reflexivity|]. apply reads_sublist.
    + intros Hq. by rewrite (reads_quiet _ _ _ _ Hq), omap_map_lookup.
Qed.

Lemma Rev1_router_get_all_eq w :
  Rev1.router_get_all w
  = if fault_now w then (Val (ListError 500 "Failed to list campaigns"), kv_called w)
    else
      let ids := List.filter isValidId (index_ids w) in
      (Val (if faults_within (w_kv_fault w) (S (w_kv_calls w)) (length ids)
            then ListError 500 "Failed to list campaigns"
            else ListOk (omap (fun campaign => campaign)
                           (reads (w_kv_fault w) (S (w_kv_calls w)) (w_campaigns w) ids))),
       called (S (length ids)) w).
Proof.
  unfold Rev1.router_get_all, try_catch, bind at 1, kv_get_index. rewrite kv_call_eq.
  destruct (fault_now w) eqn:F; [done|]. cbn [fst snd orb]. rewrite route_ids. cbn zeta.
  destruct (List.filter isValidId (index_ids w)) as [|cid ids] eqn:E.
  - by rewrite kv_called_called.
  - destruct (readSettled_eq (cid :: ids) (kv_called w)) as (results & Er & Hf & Hall).
    unfold bind at 1, ret. rewrite Er. unfold bind. rewrite Hall.
    cbn [w_kv_fault w_kv_calls w_campaigns kv_called fst snd].
    assert (Ec : called (length (cid :: ids)) (kv_called w)
                 = called (S (length (cid :: ids))) w).
    { rewrite kv_called_called, called_called. f_equal. lia. }
    rewrite Ec. by destruct (faults_within _ _ _).
Qed.

Lemma faults_within_quiet fault k n :
  (forall i, fault i = false) -> faults_within fault k n = false.
Proof. intros Hq. revert k. induction n as [|n IH]; intros k; [done|]. cbn. by rewrite Hq, IH. Qed.

Lemma faults_within_true fault n : forall k i,
  (i < n)%nat -> fault (k + i)%nat = true -> faults_within fault k n = true.
Proof.
  induction n as [|n IH]; intros k i Hi Hf; [lia|]. cbn.
  destruct i as [|i]; [by rewrite Nat.add_0_r in Hf; rewrite Hf|].
  rewrite (IH (S k) i); [by rewrite orb_true_r|lia|].
  by replace (S k + i)%nat with (k + S i)%nat by lia.
Qed.

(** X21. The earlier revision of the listing route makes the same calls as the
    current one and replies either 500 or what the current one replies. It
    replies the same when the store answers every call, and 500, where the
    current one still lists what it could read, as soon as the read of one
    record fails. *)
Theorem rev1_listing_fails_as_a_whole w :
  exists reply,
    (Rev1.router_get_all w).1 = Val reply /\
    (Rev1.router_get_all w).2 = (router_get_all w).2 /\
    (reply = ListError 500 "Failed to list campaigns"
     \/ (router_get_all w).1 = Val reply) /\
    (no_faults w -> (router_get_all w).1 = Val reply) /\
    (fault_now w = false ->
     (exists i, (i < length (List.filter isValidId (index_ids w)))%nat /\
                w_kv_fault w (S (w_kv_calls w) + i) = true) ->
     reply = ListError 500 "Failed to list campaigns" /\
     exists l, (router_get_all w).1 = Val (ListOk l)).
Proof.
  rewrite Rev1_router_get_all_eq, router_get_all_eq.
  destruct (fault_now w) eqn:F.
  - eexists. split; [reflexivity|]. split; [done|]. split; [by left|].
    split; [done|]. done.
  - cbn zeta. eexists. split; [reflexivity|]. cbn [fst snd].
    split; [done|]. split; [|split].
    + destruct (faults_within _ _ _); [by left|by right].
    + intros Hq. by rewrite faults_within_quiet.
    + intros _ (i & Hi & Hf).
      rewrite (faults_within_true _ _ _ i Hi Hf). split; [done|]. by eexists.
Qed.

(** X22. The route GET /:id and getCampaign make the same call to the store. The
    route replies 400 on a blank id, 500 when the read fails, 404 when there
    is no record, and the record otherwise; getCampaign returns null in all
    four cases, the last one included. *)
Theorem router_get_reads_what_getCampaign_misses cid w :
  (router_get cid w).2 = (getCampaign cid w).2 /\
  (router_get cid w).1
  = Val (if isValidId cid then
           if fault_now w then ItemError 500 "Failed to get campaign"
           else match w_campaigns w !! cid with
                | Some campaign => ItemOk campaign
                | None => ItemError 404 "Campaign not found"
                end
         else ItemError 400 "Campaign ID is required") /\
  (getCampaign cid w).1 = Val None.
Proof.
  rewrite getCampaign_null. unfold router_get. rewrite <- isValidId_trim.
  destruct (isValidId cid); cbn [negb]; [|done].
  unfold try_catch, bind, kv_get_campaign. rewrite kv_call_eq.
  destruct (fault_now w); [done|]. cbn [fst snd].
  by destruct (w_campaigns w !! cid).
Qed.

(* ================================================================== *)
(** ** Deleting *)
(* ================================================================== *)

Lemma bind_Val {A B} (m : M A) (k : A -> M B) w b w' :
  bind m k w = (Val b, w') -> exists a w1, m w = (Val a, w1) /\ k a w1 = (Val b, w').
Proof.
  unfold bind. destruct (m w) as [[a|e] w1]; [|done]. intros H. by exists a, w1.
Qed.

(** X23. In the earlier revision of the deletion route, when the record is
    deleted and the read of the index after it fails, the reply is 500, the
    record is gone and its id is still in the index, so that the index no
    longer leads to records only. *)
Theorem rev1_delete_can_leave_dangling_id cid w record :
  truthy (trim cid) = true ->
  w_campaigns w !! cid = Some record -> cid ∈ index_ids w ->
  fault_now w = false ->
  w_kv_fault w (S (w_kv_calls w)) = false ->
  w_kv_fault w (S (S (w_kv_calls w))) = true ->
  let w' := (Rev1.router_delete cid w).2 in
  (Rev1.router_delete cid w).1 = Val (JsonError 500 "Failed to delete campaign") /\
  w_campaigns w' !! cid = None /\ cid ∈ index_ids w' /\
  ~ index_leads_to_records w'.
Proof.
  intros Ht Hrec Hin F0 F1 F2. cbn zeta.
  assert (Erun : Rev1.router_delete cid w
                 = (Val (JsonError 500 "Failed to delete campaign"),
                    kv_called (kv_called
                      (with_campaigns (delete cid (w_campaigns w)) (kv_called w))))).
  { unfold Rev1.router_delete. rewrite Ht. cbn [negb].
    unfold try_catch, bind at 1, kv_get_campaign. rewrite kv_call_eq, F0. cbn [fst snd].
    rewrite Hrec. unfold bind at 1, kv_delete_campaign. rewrite kv_call_eq.
    unfold fault_now at 1. cbn [w_kv_fault w_kv_calls kv_called]. rewrite F1. cbn [fst snd].
    unfold bind at 1, kv_get_index. rewrite kv_call_eq.
    unfold fault_now at 1. cbn [w_kv_fault w_kv_calls kv_called with_campaigns].
    by rewrite F2. }
  rewrite Erun. cbn [fst snd w_campaigns kv_called with_campaigns].
  split; [done|]. split; [apply lookup_delete_eq|]. split; [exact Hin|].
  intros Hinv. specialize (Hinv cid Hin). rewrite isValidId_trim in Hinv.
  specialize (Hinv Ht). cbn in Hinv. rewrite lookup_delete_eq in Hinv. by destruct Hinv.
Qed.

Lemma rev1_delete_can_leave_dangling_id_witness :
  let w := faulty_world (fault_at 2) {["a" := campaign_a]} (Some ["a"]) in
  index_leads_to_records w /\
  (Rev1.router_delete "a" w).1 = Val (JsonError 500 "Failed to delete campaign") /\
  ~ index_leads_to_records (Rev1.router_delete "a" w).2.
Proof.
  intros w. split.
  - intros cid. unfold w, faulty_world, index_ids. cbn [w_campaigns w_index].
    change (default [] (Some ["a"])) with ["a"].
    intros ->%list_elem_of_singleton _. rewrite lookup_singleton_eq. by eexists.
  - destruct (rev1_delete_can_leave_dangling_id "a" w campaign_a)
      as (H1 & _ & _ & H2); try reflexivity.
    + unfold w, faulty_world, index_ids. cbn [w_index].
      change (default [] (Some ["a"])) with ["a"]. by apply list_elem_of_singleton.
    + split; [exact H1|exact H2].
Defined.

(** X24. After a deletion that replied success (the message names the id), the
    record is gone and the id is not in the index: getCampaign returns null,
    the route GET /:id and a second DELETE /:id reply 404 (500 when their
    read fails), and the second deletion changes nothing in the store. *)
Theorem deleted_campaign_is_gone cid w msg :
  (router_delete cid w).1 = Val (JsonSuccess msg) ->
  let w' := (router_delete cid w).2 in
  msg = "Campaign " +:+ cid +:+ " deleted" /\
  w_campaigns w' !! cid = None /\ ~ cid ∈ index_ids w' /\
  (getCampaign cid w').1 = Val None /\
  (router_get cid w').1
  = Val (if fault_now w' then ItemError 500 "Failed to get campaign"
         else ItemError 404 "Campaign not found") /\
  (router_delete cid w').1
  = Val (if fault_now w' then JsonError 500 "Failed to delete campaign"
         else JsonError 404 "Campaign not found") /\
  store_of (router_delete cid w').2 = store_of w'.
Proof.
  intros Hok. cbn zeta.
  destruct (router_delete_index cid w) as [_ Hs]. destruct (Hs msg Hok) as [Hi Hc].
  assert (Hgone : w_campaigns (router_delete cid w).2 !! cid = None)
    by (rewrite Hc; apply lookup_delete_eq).
  assert (Ht : truthy (trim cid) = true).
  { unfold router_delete in Hok. by destruct (truthy (trim cid)). }
  assert (Hmsg : msg = "Campaign " +:+ cid +:+ " deleted").
  { unfold router_delete in Hok. rewrite Ht in Hok. cbn [negb] in Hok.
    unfold try_catch in Hok.
    match type of Hok with
    | (match ?m w with _ => _ end).1 = _ => destruct (m w) as [[out|e] w0] eqn:Hbody
    end; [|done].
    cbn in Hok. injection Hok as ->.
    apply bind_Val in Hbody as (result & w1 & _ & H1).
    destruct result as [record|]; [|done].
    apply bind_Val in H1 as (updated & w2 & _ & H2).
    destruct updated; cbn [negb] in H2; [|done].
    apply bind_Val in H2 as (u & w3 & _ & H3). by injection H3 as <-. }
  split; [exact Hmsg|]. split; [exact Hgone|]. split.
  { unfold index_ids. rewrite Hi.
    change (default [] (Some (without cid (index_ids w)))) with (without cid (index_ids w)).
    intros [_ Hne]%elem_without. done. }
  set (w' := (router_delete cid w).2) in *.
  split; [|split; [|split]].
  - by rewrite getCampaign_null.
  - unfold router_get. rewrite Ht. cbn [negb].
    unfold try_catch, bind, kv_get_campaign. rewrite kv_call_eq.
    destruct (fault_now w'); [done|]. cbn [fst snd]. by rewrite Hgone.
  - unfold router_delete. rewrite Ht. cbn [negb].
    unfold try_catch, bind, kv_get_campaign. rewrite kv_call_eq.
    destruct (fault_now w'); [done|]. cbn [fst snd]. by rewrite Hgone.
  - unfold router_delete. rewrite Ht. cbn [negb].
    unfold try_catch, bind, kv_get_campaign. rewrite kv_call_eq.
    destruct (fault_now w'); [done|]. cbn [fst snd]. by rewrite Hgone.
Qed.

Lemma deleted_campaign_is_gone_witness :
  (router_get "c1" (router_delete "c1" (sample_world d1_service)).2).1
  = Val (ItemError 404 "Campaign not found").
Proof.
  destruct (deleted_campaign_is_gone "c1" (sample_world d1_service)
              "Campaign c1 deleted") as (_ & _ & _ & _ & E & _); [reflexivity|].
  exact E.
Defined.

(* ================================================================== *)
(** ** The manager *)
(* ================================================================== *)

Lemma truthy_lower s : truthy (toLowerCase s) = truthy s.
Proof. by destruct s. Qed.

Section ManagerRuns.
Context `{D : DateFns}.

(** The search of the manager finds nothing, so a request with a topic goes
    on to the creation. *)
Lemma manager_eq generated input w :
  let request := Manager.enrichRequestData generated input in
  let w1 := if truthy (trim (mr_topic request)) then kv_called w else w in
  Manager.handler generated input w
  = if truthy (mr_topic input) then
      match createCampaign (mr_topic request) (or_null (mr_description request))
              (or_null (mr_publishDate request)) w1 with
      | (Val campaign, w2) =>
          (Val (MgrHandoff "Campaign created, handing off to copywriter"
                  (mkHandoff (topic campaign) (or_null (description campaign))
                     (id campaign) (or_null (publishDate campaign))
                     (or_null (mr_domain request)))), w2)
      | (Exn e, w2) => (Val (MgrError ("Failed to create campaign: " +:+ e)), w2)
      end
    else (Val (MgrError "Missing topic"), w).
Proof.
  cbn zeta. unfold Manager.handler. destruct (truthy (mr_topic input)); [|done].
  cbn [negb]. unfold bind at 1. rewrite findCampaignsByTopic_nil.
  unfold try_catch, bind.
  destruct (createCampaign _ _ _ _) as [[campaign|e] w2] eqn:Ec; [|done].
  apply createCampaign_ok in Ec as (-> & _). done.
Qed.

(** X25. The manager never throws and never answers with existing campaigns,
    whatever is stored: its search returns the empty list. A hand-off means
    that the topic was not blank and that the campaign named in the payload
    is now stored under its id with the topic of the request, status
    planning and no content, and is indexed. An error is "Missing topic" for
    an empty topic, with nothing touched, or a failed creation. *)
Theorem manager_always_creates generated input w :
  let request := Manager.enrichRequestData generated input in
  let w' := (Manager.handler generated input w).2 in
  match (Manager.handler generated input w).1 with
  | Val (MgrExisting _ _) => False
  | Val (MgrHandoff _ payload) =>
      truthy (trim (mr_topic request)) = true /\
      h_topic payload = mr_topic request /\
      h_source payload = or_null (mr_domain request) /\
      exists campaign,
        w_campaigns w' !! h_campaignId payload = Some campaign /\
        id campaign = h_campaignId payload /\ topic campaign = mr_topic request /\
        campaign_status campaign = planning /\ campaign_content campaign = None /\
        h_campaignId payload ∈ index_ids w'
  | Val (MgrError msg) =>
      (msg = "Missing topic" /\ mr_topic input = "" /\ w' = w)
      \/ (msg = "Failed to create campaign: Invalid topic provided" /\ w' = w)
      \/ (msg = "Failed to create campaign: Failed to save campaign" /\
          w_index w' = w_index w)
  | Exn _ => False
  end.
Proof.
  cbn zeta. rewrite manager_eq. cbn zeta.
  set (request := Manager.enrichRequestData generated input).
  destruct (truthy (mr_topic input)) eqn:Hin.
  2:{ cbn [fst snd]. left. split; [done|]. split; [|done]. by destruct (mr_topic input). }
  destruct (truthy (trim (mr_topic request))) eqn:Ht.
  - pose proof (createCampaign_outcome (mr_topic request)
                  (or_null (mr_description request)) (or_null (mr_publishDate request))
                  (kv_called w) Ht) as Hok.
    destruct (createCampaign _ _ _ _) as [[campaign|e] w2] eqn:Ec; cbn [fst snd] in *.
    + destruct Hok as (-> & Hl & Hi). split; [done|]. split; [done|]. split; [done|].
      eexists. split; [exact Hl|]. by repeat split.
    + destruct Hok as (-> & Hi). right; right. by split.
  - rewrite createCampaign_eq, Ht. cbn [fst snd]. right; left. done.
Qed.

(** X26. On a store that answers every call, after a request the manager
    answered with a hand-off, a second request on the same topic (the same
    lower-cased, trimmed form) is answered with a hand-off again: the
    campaign of the first request is stored but not found, and a second
    campaign is created and stored for the topic, whose id alone the index
    then holds. *)
Theorem manager_creates_a_duplicate generated1 input1 generated2 input2 w msg payload w1 :
  no_faults w ->
  Manager.handler generated1 input1 w = (Val (MgrHandoff msg payload), w1) ->
  let request1 := Manager.enrichRequestData generated1 input1 in
  let request2 := Manager.enrichRequestData generated2 input2 in
  truthy (mr_topic input2) = true ->
  trim (toLowerCase (mr_topic request2)) = trim (toLowerCase (mr_topic request1)) ->
  let w2 := (Manager.handler generated2 input2 w1).2 in
  exists first msg2 payload2 second,
    w_campaigns w1 !! h_campaignId payload = Some first /\
    topic first = mr_topic request1 /\
    (Manager.handler generated2 input2 w1).1 = Val (MgrHandoff msg2 payload2) /\
    w_campaigns w2 !! h_campaignId payload2 = Some second /\
    topic second = mr_topic request2 /\
    index_ids w2 = [h_campaignId payload2].
Proof.
  intros Hq Hrun request1 request2 Hin2 Hsame.
  rewrite manager_eq in Hrun. cbn zeta in Hrun. fold request1 in Hrun.
  destruct (truthy (mr_topic input1)); [|done].
  assert (Ht1 : truthy (trim (mr_topic request1)) = true).
  { destruct (truthy (trim (mr_topic request1))) eqn:Ht; [done|].
    rewrite createCampaign_eq, Ht in Hrun. done. }
  rewrite Ht1 in Hrun.
  destruct (createCampaign _ _ _ _) as [[campaign|e] w1'] eqn:Ec; [|done].
  injection Hrun as <- <- <-. cbn [h_campaignId].
  apply createCampaign_ok in Ec as (Ecreated & Esave).
  assert (Htc : topic campaign = mr_topic request1) by (by rewrite Ecreated).
  apply saveCampaign_true in Esave as (Hv & Hc & _ & _ & _ & _ & _ & _ & Hf & _).
  assert (Hl : w_campaigns w1' !! id campaign = Some campaign)
    by (by rewrite Hc, lookup_insert_eq).
  assert (Hq1 : no_faults w1') by (intros k; rewrite Hf; apply Hq).
  assert (Ht2 : truthy (trim (mr_topic request2)) = true).
  { rewrite <- truthy_lower, <- trim_lower, Hsame, trim_lower, truthy_lower. done. }
  cbn zeta. rewrite manager_eq. cbn zeta. fold request2. rewrite Hin2, Ht2.
  rewrite createCampaign_eq, Ht2. cbn zeta.
  set (c2 := created (mr_topic request2) _ _ (kv_called w1')).
  rewrite (saveCampaign_run c2 (tick (tick (kv_called w1')))).
  2:{ intros k. apply Hq1. }
  2:{ apply campaign_id_valid. }
  cbn [fst snd h_campaignId].
  exists campaign, "Campaign created, handing off to copywriter".
  eexists. exists c2. split; [exact Hl|]. split; [exact Htc|]. split; [reflexivity|].
  cbn [h_campaignId]. split; [apply lookup_insert_eq|]. split; reflexivity.
Qed.

End ManagerRuns.

Lemma manager_creates_a_duplicate_witness :
  let w := quiet_world always_accepts ∅ None None in
  let first := mkManagerRequest "Rust 2.0 launch" (Some "a release") None None in
  let second := mkManagerRequest "  rust 2.0 LAUNCH" None (Some "tomorrow") None in
  exists msg2 payload2,
    (@Manager.handler utc None second (@Manager.handler utc None first w).2).1
    = Val (MgrHandoff msg2 payload2).
Proof.
  intros w first second.
  destruct (@manager_creates_a_duplicate utc None first None second w
              "Campaign created, handing off to copywriter"
              (mkHandoff "Rust 2.0 launch" (Some "a release") "campaign-1793607180000"
                 None None)
              (@Manager.handler utc None first w).2)
    as (c1 & msg2 & payload2 & c2 & _ & _ & H & _).
  - by intros k.
  - vm_compute. reflexivity.
  - reflexivity.
  - vm_compute. reflexivity.
  - exists msg2, payload2. exact H.
Defined.

(* ================================================================== *)
(** ** The copywriter *)
(* ================================================================== *)

Section CopywriterRuns.
Context `{D : DateFns}.

(** X27. Every run of the copywriter ends with an error reply: "Missing required
    field: campaignId" for a blank campaign id, and otherwise "Campaign not
    found with ID: " followed by the id, also when the campaign is stored
    under this id. The answers of the language model play no role: no run
    writes content or a status to the store, hands over to the scheduler
    or sends a request, and a run makes one call to the store, or none for
    a blank id. *)
Theorem copywriter_never_writes generatedPosts generatedThreads input w :
  Copywriter.handler generatedPosts generatedThreads input w
  = (if truthy (trim (cw_campaignId input))
     then (Val (CwError ("Campaign not found with ID: " +:+ cw_campaignId input)),
           kv_called w)
     else (Val (CwError "Missing required field: campaignId"), w)) /\
  (forall cid msg result,
     (Copywriter.handler generatedPosts generatedThreads input w).1
     <> Val (CwSuccess cid msg result)) /\
  store_of (Copywriter.handler generatedPosts generatedThreads input w).2 = store_of w /\
  w_sent (Copywriter.handler generatedPosts generatedThreads input w).2 = w_sent w /\
  w_ticks (Copywriter.handler generatedPosts generatedThreads input w).2 = w_ticks w.
Proof.
  assert (E : Copywriter.handler generatedPosts generatedThreads input w
              = if truthy (trim (cw_campaignId input))
                then (Val (CwError ("Campaign not found with ID: " +:+ cw_campaignId input)),
                      kv_called w)
                else (Val (CwError "Missing required field: campaignId"), w)).
  { unfold Copywriter.handler, try_catch. cbn zeta.
    destruct (truthy (trim (cw_campaignId input))) eqn:Hid; [|done]. cbn [negb].
    unfold bind. by rewrite getCampaign_null, isValidId_trim, Hid. }
  rewrite E. split; [done|].
  destruct (truthy (trim (cw_campaignId input))); cbn [fst snd]; by repeat split.
Qed.

End CopywriterRuns.

(* ================================================================== *)
(** ** The two revisions of the deletion *)
(* ================================================================== *)

Lemma indexAttempt_quiet cid w :
  no_faults w ->
  indexAttempt cid w
  = (Val true, kv_called (with_index (Some (without cid (index_ids w))) (kv_called w))).
Proof.
  intros Hq. unfold indexAttempt, try_catch, bind at 1, kv_get_index.
  rewrite kv_call_ok by apply Hq. cbn [fst snd]. unfold bind, kv_set_index.
  rewrite kv_call_ok by apply Hq. cbn [fst snd]. unfold ret.
  do 4 f_equal. unfold without, index_ids. by destruct (w_index w).
Qed.

(** X29. On a store that answers every call, the two revisions of the deletion
    route give the same reply and leave the same store; for a stored
    campaign with a nonblank id that is the success reply, the record
    deleted and the id filtered out of the index. *)
Theorem delete_revisions_agree_when_the_store_answers cid w :
  no_faults w ->
  (Rev1.router_delete cid w).1 = (router_delete cid w).1 /\
  store_of (Rev1.router_delete cid w).2 = store_of (router_delete cid w).2 /\
  (forall record, truthy (trim cid) = true -> w_campaigns w !! cid = Some record ->
     (router_delete cid w).1 = Val (JsonSuccess ("Campaign " +:+ cid +:+ " deleted")) /\
     store_of (router_delete cid w).2
     = mkStore (delete cid (w_campaigns w)) (Some (without cid (index_ids w)))).
Proof.
  intros Hq.
  assert (E1 : Rev1.router_delete cid w
               = if truthy (trim cid) then
                   match w_campaigns w !! cid with
                   | Some _ =>
                       (Val (JsonSuccess ("Campaign " +:+ cid +:+ " deleted")),
                        kv_called (with_index (Some (without cid (index_ids w)))
                          (kv_called (kv_called
                             (with_campaigns (delete cid (w_campaigns w))
                                (kv_called w))))))
                   | None => (Val (JsonError 404 "Campaign not found"), kv_called w)
                   end
                 else (Val (JsonError 400 "Campaign ID is required"), w)).
  { unfold Rev1.router_delete. destruct (truthy (trim cid)); [|done]. cbn [negb].
    unfold try_catch, bind at 1, kv_get_campaign. rewrite kv_call_ok by apply Hq.
    cbn [fst snd]. destruct (w_campaigns w !! cid); [|done].
    unfold bind at 1, kv_delete_campaign. rewrite kv_call_ok by apply Hq. cbn [fst snd].
    unfold bind at 1, kv_get_index. rewrite kv_call_ok by apply Hq. cbn [fst snd].
    unfold bind, kv_set_index. rewrite kv_call_ok by apply Hq. cbn [fst snd]. unfold ret.
    do 4 f_equal. unfold without, index_ids. cbn [w_index kv_called with_campaigns].
    by destruct (w_index w). }
  assert (E2 : router_delete cid w
               = if truthy (trim cid) then
                   match w_campaigns w !! cid with
                   | Some _ =>
                       (Val (JsonSuccess ("Campaign " +:+ cid +:+ " deleted")),
                        kv_called (with_campaigns (delete cid (w_campaigns w))
                          (kv_called (with_index (Some (without cid (index_ids w)))
                             (kv_called (kv_called w))))))
                   | None => (Val (JsonError 404 "Campaign not found"), kv_called w)
                   end
                 else (Val (JsonError 400 "Campaign ID is required"), w)).
  { unfold router_delete. destruct (truthy (trim cid)); [|done]. cbn [negb].
    unfold try_catch, bind at 1, kv_get_campaign. rewrite kv_call_ok by apply Hq.
    cbn [fst snd]. destruct (w_campaigns w !! cid); [|done].
    unfold bind at 1. unfold maxRetries. cbn [indexRetryLoop]. unfold bind at 1.
    rewrite indexAttempt_quiet by (by apply (no_faults_same w)).
    unfold ret at 1. cbn [negb]. unfold bind, kv_delete_campaign.
    rewrite kv_call_ok by apply Hq. done. }
  rewrite E1, E2. destruct (truthy (trim cid)) eqn:Ht0; [|by repeat split].
  destruct (w_campaigns w !! cid) as [record|] eqn:Hr0; [|by repeat split].
  split; [done|]. split; [done|]. intros r _ _. done.
Qed.

Lemma delete_revisions_agree_when_the_store_answers_witness :
  (Rev1.router_delete "c1" (sample_world d1_service)).1
  = Val (JsonSuccess "Campaign c1 deleted") /\
  store_of (Rev1.router_delete "c1" (sample_world d1_service)).2
  = store_of (router_delete "c1" (sample_world d1_service)).2.
Proof.
  destruct (delete_revisions_agree_when_the_store_answers "c1" (sample_world d1_service))
    as (H1 & H2 & _); [intros k; reflexivity|].
  split; [|exact H2]. rewrite H1. reflexivity.
Defined.

